(** * AI Study Mate: heuristics engine, session store and account routes

    A shallow embedding of [server/services/aiService.js] (the rule-based
    text heuristics and the remote summarisation adapter) and of the
    account and study-session routes, followed by the properties that the
    specification states about them.

    Conventions of the embedding.
    - A JavaScript string is a list of code units; the embedding covers the
      code units below 256 (Latin-1), carried by [ascii].  Case mapping and
      the white-space class are the ECMAScript ones restricted to that range.
    - A JavaScript number that the code only uses as a count or an index is a
      [nat] or a [Z]; the sentence scores of [extractSmartKeyPoints], which are
      computed with [/] and [+] on doubles, are rationals rounded to binary64
      after every operation (see [Number.fl]).
    - [Array.prototype.sort] is stable (ECMAScript 2019); it is embedded as a
      stable insertion sort driven by the sign of the comparator.
    - File-system and network effects are explicit: a handler takes the state
      of the world it reads and returns the state it leaves.  Every call of
      [Date.now()] and every [new Date()] is a reading of the clock of its
      own, and a call of the file system can fail with the code [ENOENT] or
      with another one.
    - A field of the body of [/register], [/login] and [/process] is the
      value that the JSON parser decoded, whatever its type, and the checks
      convert it as ECMAScript does. *)

From Stdlib Require Import Ascii String DecimalString.
From Stdlib Require Import List Bool Arith ZArith QArith Qround Qpower Lia Lqa.
From Stdlib Require Import Sorting.Permutation Sorting.Sorted.
From Equations Require Import Equations.
From Stdlib Require Import Floats.PrimFloat Floats.SpecFloat Floats.FloatOps Uint63.
Import ListNotations.
Open Scope string_scope.
Open Scope nat_scope.
Open Scope list_scope.

Set Implicit Arguments.

(* ================================================================== *)
(** * JavaScript strings                                                *)
(* ================================================================== *)

Definition jsstring := list ascii.

Coercion list_ascii_of_string : string >-> list.

Definition code (c : ascii) : nat := nat_of_ascii c.

Definition in_range (lo hi : nat) (c : ascii) : bool :=
  (lo <=? code c) && (code c <=? hi).

(** [\s] of a regular expression, also the set [String.prototype.trim]
    strips: TAB, LF, VT, FF, CR, SPACE and NBSP are its members below 256. *)
Definition isWhiteSpace (c : ascii) : bool :=
  in_range 9 13 c || (code c =? 32) || (code c =? 160).

(** The character class [[.!?]]. *)
Definition isTerminator (c : ascii) : bool :=
  (code c =? 46) || (code c =? 33) || (code c =? 63).

Definition isUpperAZ (c : ascii) : bool := in_range 65 90 c.
Definition isLowerAZ (c : ascii) : bool := in_range 97 122 c.
Definition isDigit (c : ascii) : bool := in_range 48 57 c.

(** The character class [[a-zA-Z]]. *)
Definition isAlpha (c : ascii) : bool := isUpperAZ c || isLowerAZ c.

(** The character class [[a-zA-Z0-9]]. *)
Definition isAlnum (c : ascii) : bool := isAlpha c || isDigit c.

(** [toLowerCase] on one code unit: A-Z, and the Latin-1 capitals
    U+00C0..U+00DE except the multiplication sign U+00D7. *)
Definition lowerChar (c : ascii) : ascii :=
  if isUpperAZ c || (in_range 192 222 c && negb (code c =? 215))
  then ascii_of_nat (code c + 32) else c.

(** [toUpperCase] on one code unit.  The service applies it only to the first
    character of a word made of [[a-z0-9]] (see [extractMainTopic]); on
    that domain it is the ASCII mapping. *)
Definition upperChar (c : ascii) : ascii :=
  if isLowerAZ c then ascii_of_nat (code c - 32) else c.

Definition toLowerCase (s : jsstring) : jsstring := map lowerChar s.
Definition toUpperCase (s : jsstring) : jsstring := map upperChar s.

Fixpoint dropWhile {A} (p : A -> bool) (l : list A) : list A :=
  match l with
  | [] => []
  | x :: t => if p x then dropWhile p t else l
  end.

Definition trimStart (s : jsstring) : jsstring := dropWhile isWhiteSpace s.
Definition trimEnd (s : jsstring) : jsstring := rev (dropWhile isWhiteSpace (rev s)).
Definition trim (s : jsstring) : jsstring := trimEnd (trimStart s).

Definition eqb_char (a b : ascii) : bool := Ascii.eqb a b.

Fixpoint eqb_str (a b : jsstring) : bool :=
  match a, b with
  | [], [] => true
  | x :: a', y :: b' => eqb_char x y && eqb_str a' b'
  | _, _ => false
  end.

Fixpoint startsWith (s p : jsstring) : bool :=
  match p, s with
  | [], _ => true
  | x :: p', y :: s' => eqb_char x y && startsWith s' p'
  | _ :: _, [] => false
  end.

(** [s.includes(sub)]. *)
Fixpoint includes (s sub : jsstring) : bool :=
  startsWith s sub ||
  match s with
  | [] => false
  | _ :: t => includes t sub
  end.

Definition endsWith (s p : jsstring) : bool := startsWith (rev s) (rev p).

(** [s.split(re)] for a regular expression [re = [cls]+] that matches a
    non-empty run of characters of one class: the pieces between the maximal
    runs, the empty pieces at both ends included. *)
Fixpoint split_runs (sep : ascii -> bool) (s : jsstring) : list jsstring :=
  match s with
  | [] => [ [] ]
  | c :: rest =>
      if sep c then
        match rest with
        | d :: _ => if sep d then split_runs sep rest else [] :: split_runs sep rest
        | [] => [] :: split_runs sep rest
        end
      else
        match split_runs sep rest with
        | piece :: pieces => (c :: piece) :: pieces
        | [] => [ [c] ]
        end
  end.

(** [text.split(/[.!?]+/)] and [text.split(/\s+/)]. *)
Definition splitSentences (text : jsstring) : list jsstring := split_runs isTerminator text.
Definition splitWords (text : jsstring) : list jsstring := split_runs isWhiteSpace text.

(** [arr.join(sep)]. *)
Fixpoint join (sep : jsstring) (l : list jsstring) : jsstring :=
  match l with
  | [] => []
  | [x] => x
  | x :: t => x ++ sep ++ join sep t
  end.

(** [s.replace(/[^a-zA-Z0-9]/g, '')]. *)
Definition stripNonAlnum (s : jsstring) : jsstring := filter isAlnum s.

(** [/^[a-zA-Z]+$/.test(s)]. *)
Definition isAlphabetic (s : jsstring) : bool :=
  negb (Nat.eqb (length s) 0) && forallb isAlpha s.

(** [arr.includes(x)] on an array of strings. *)
Definition arrayIncludes (l : list jsstring) (x : jsstring) : bool :=
  existsb (eqb_str x) l.

(** [[...new Set(arr)]]: the distinct elements in order of first occurrence. *)
Fixpoint dedup_acc (seen : list jsstring) (l : list jsstring) : list jsstring :=
  match l with
  | [] => []
  | x :: t => if arrayIncludes seen x then dedup_acc seen t
              else x :: dedup_acc (x :: seen) t
  end.
Definition uniqueOf (l : list jsstring) : list jsstring := dedup_acc [] l.

(** [arr.slice(0, n)] and [arr.find(p)]. *)
Definition slice0 {A} (n : nat) (l : list A) : list A := firstn n l.

(* ================================================================== *)
(** * JavaScript numbers                                                *)
(* ================================================================== *)

Module Number.
Open Scope Q_scope.

(** A finite double is the rational it denotes. *)
Definition number := Q.

Definition pow2 (z : Z) : Q := Qpower 2 z.

(** Round to the nearest integer, ties to the even one. *)
Definition rne (s : Q) : Z :=
  let f := Qfloor s in
  match Qcompare (s - inject_Z f) (1 # 2) with
  | Lt => f
  | Gt => (f + 1)%Z
  | Eq => if Z.even f then f else (f + 1)%Z
  end.

(** The binary exponent [floor (log2 q)] of a positive rational. *)
Definition ilog2 (q : Q) : Z :=
  let k := (Z.log2 (Qnum q) - Z.log2 (Zpos (Qden q)))%Z in
  if Qle_bool (pow2 k) q then k else (k - 1)%Z.

(** Rounding to binary64 (53 significant bits, nearest, ties to even), away
    from overflow and from the subnormal range, which the scores of the
    service never reach.  [scores_agree_with_doubles] compares it with the
    doubles of the kernel. *)
Definition fl_pos (q : Q) : Q :=
  let e := ilog2 q in
  Qred (inject_Z (rne (q * pow2 (52 - e))) * pow2 (e - 52)).

Definition fl (q : Q) : Q :=
  match Qcompare q 0 with
  | Eq => 0
  | Gt => fl_pos q
  | Lt => - fl_pos (- q)
  end.

Definition ofNat (n : nat) : number := inject_Z (Z.of_nat n).
Definition ofZ (z : Z) : number := inject_Z z.

Definition add (x y : number) : number := fl (x + y).
Definition sub (x y : number) : number := fl (x - y).
Definition div (x y : number) : number := fl (x / y).

(** [Math.min] and [Math.max] on finite numbers. *)
Definition min (x y : number) : number := if Qle_bool x y then x else y.
Definition max (x y : number) : number := if Qle_bool x y then y else x.

(** The sign of a comparator's result, which is all that [sort] reads. *)
Definition sign (x : number) : comparison := Qcompare x 0.

End Number.

(* ================================================================== *)
(** * Arrays                                                            *)
(* ================================================================== *)

(** [arr.map((x, index) => f x index)]. *)
Fixpoint mapi_from {A B} (i : nat) (f : A -> nat -> B) (l : list A) : list B :=
  match l with
  | [] => []
  | x :: t => f x i :: mapi_from (S i) f t
  end.
Definition mapi {A B} (f : A -> nat -> B) (l : list A) : list B := mapi_from 0 f l.

(** [arr.sort(cmp)], reading only the sign of what the comparator returns
    ([Lt]: negative, the first argument goes first; [Eq]: zero or NaN;
    [Gt]: positive).  The sort is stable: [insert_sorted] puts an element in
    front of the first one it does not have to follow, and the elements are
    inserted from the last to the first. *)
Fixpoint insert_sorted {A} (cmp : A -> A -> comparison) (x : A) (l : list A) : list A :=
  match l with
  | [] => [x]
  | y :: t =>
      match cmp x y with
      | Gt => y :: insert_sorted cmp x t
      | _ => x :: l
      end
  end.

Fixpoint sort {A} (cmp : A -> A -> comparison) (l : list A) : list A :=
  match l with
  | [] => []
  | x :: t => insert_sorted cmp x (sort cmp t)
  end.

Definition signZ (z : Z) : comparison := Z.compare z 0.

(** Decimal rendering of a non-negative integer, as in a template literal. *)
Definition natToString (n : nat) : jsstring :=
  list_ascii_of_string (DecimalString.NilZero.string_of_uint (Nat.to_uint n)).

(** [Date.now().toString()], for a time in milliseconds. *)
Definition timeToString (t : N) : jsstring :=
  list_ascii_of_string (DecimalString.NilZero.string_of_uint (N.to_uint t)).

(** Truthiness of a string: every string but the empty one. *)
Definition truthy (s : jsstring) : bool := negb (Nat.eqb (length s) 0).

(** A value that the service may put where a string is expected: a lookup in
    an object literal goes through [Object.prototype], where the keys
    [constructor] and [__proto__] are found. *)
Inductive jsvalue :=
| VString (s : jsstring)
| VObjectConstructor
| VObjectPrototype.

(** A value decoded by [JSON.parse]; an object carries its properties, each
    name once. *)
#[local] Unset Elimination Schemes.
Inductive json :=
| JNull
| JBool (b : bool)
| JNumber (q : Q)
| JString (s : jsstring)
| JArray (items : list json)
| JObject (props : list (jsstring * json)).
#[local] Set Elimination Schemes.

(** What a call completes with: a value, or an exception that was thrown. *)
Inductive exn :=
| Error (message : jsstring)
| ErrorOf (reason : json)
| TypeError
| SyntaxError
| SystemError (errorCode : jsstring).

Inductive completion (A : Type) :=
| Normal (a : A)
| Throw (e : exn).
Arguments Normal {A} a.
Arguments Throw {A} e.

Definition bind {A B} (c : completion A) (k : A -> completion B) : completion B :=
  match c with
  | Normal a => k a
  | Throw e => Throw e
  end.

Notation "x <- c ;; k" := (bind c (fun x => k))
  (at level 61, c at next level, right associativity).

(** [try { body } catch (error) { handler }]. *)
Definition tryCatch {A} (body : completion A) (handler : exn -> completion A)
  : completion A :=
  match body with
  | Normal a => Normal a
  | Throw e => handler e
  end.

(** Truthiness of a decoded value. *)
Definition truthyJson (j : json) : bool :=
  match j with
  | JNull => false
  | JBool b => b
  | JNumber q => negb (Qeq_bool q 0)
  | JString s => truthy s
  | JArray _ => true
  | JObject _ => true
  end.

Fixpoint lookup (k : jsstring) (props : list (jsstring * json)) : option json :=
  match props with
  | [] => None
  | (k', v) :: t => if eqb_str k k' then Some v else lookup k t
  end.

(** [value.name] for a property name that is neither an index nor a member
    of a prototype: [None] is [undefined]; reading a property of [null]
    throws. *)
Definition getNamed (value : json) (name : jsstring) : completion (option json) :=
  match value with
  | JNull => Throw TypeError
  | JObject props => Normal (lookup name props)
  | _ => Normal None
  end.

(** [value[0]]. *)
Definition getFirst (value : json) : completion (option json) :=
  match value with
  | JNull => Throw TypeError
  | JObject props => Normal (lookup (list_ascii_of_string "0") props)
  | JArray items => Normal (nth_error items 0)
  | JString s => Normal (match s with c :: _ => Some (JString [c]) | [] => None end)
  | _ => Normal None
  end.

(** [value?.name], for [value] possibly [undefined]. *)
Definition getNamedOptional (value : option json) (name : jsstring) : option json :=
  match value with
  | None => None
  | Some JNull => None
  | Some (JObject props) => lookup name props
  | Some _ => None
  end.

(** ** A decoded value where the code expects a string or a number *)

(** [typeof value]. *)
Definition typeOf (value : json) : jsstring :=
  list_ascii_of_string
    match value with
    | JBool _ => "boolean"
    | JNumber _ => "number"
    | JString _ => "string"
    | _ => "object"
    end.

(** [value.length]: the length of a string or of an array, the property of
    that name of an object, and [undefined] on a number or a boolean. *)
Definition getLength (value : json) : completion (option json) :=
  match value with
  | JNull => Throw TypeError
  | JString s => Normal (Some (JNumber (Number.ofNat (length s))))
  | JArray items => Normal (Some (JNumber (Number.ofNat (length items))))
  | JObject props => Normal (lookup (list_ascii_of_string "length") props)
  | _ => Normal None
  end.

(** [value.includes('@')]: the method of a string or of an array, which
    looks for an item that is the string [@]; no other value has it. *)
Definition includesAt (value : json) : completion bool :=
  match value with
  | JString s => Normal (includes s (list_ascii_of_string "@"))
  | JArray items =>
      Normal (existsb (fun item => match item with
                                   | JString s => eqb_str s (list_ascii_of_string "@")
                                   | _ => false
                                   end) items)
  | _ => Throw TypeError
  end.

(** [value.toLowerCase()] and [value.trim()]: methods of strings only. *)
Definition toLowerCaseOf (value : json) : completion jsstring :=
  match value with
  | JString s => Normal (toLowerCase s)
  | _ => Throw TypeError
  end.

Definition trimOf (value : json) : completion jsstring :=
  match value with
  | JString s => Normal (trim s)
  | _ => Throw TypeError
  end.

(** The value of a digit in a radix up to 36. *)
Definition digitOf (radix : N) (c : ascii) : option N :=
  let value := if isDigit c then Some (N.of_nat (code c - 48))
               else if isLowerAZ c then Some (N.of_nat (code c - 87))
               else if isUpperAZ c then Some (N.of_nat (code c - 55))
               else None in
  match value with
  | Some d => if (d <? radix)%N then Some d else None
  | None => None
  end.

(** What [ToNumber] makes of a value: NaN, an infinity or a finite number. *)
Inductive numeric :=
| NotANumber
| Infinity (negative : bool)
| Finite (q : Number.number).

(** A run of digits of a radix, and the integer that a run which is not
    empty denotes. *)
Fixpoint digitsOf (radix : N) (s : jsstring) : option (list N) :=
  match s with
  | [] => Some []
  | c :: rest =>
      match digitOf radix c, digitsOf radix rest with
      | Some d, Some ds => Some (d :: ds)
      | _, _ => None
      end
  end.

Definition numeral (radix : N) (s : jsstring) : option N :=
  match s, digitsOf radix s with
  | _ :: _, Some ds => Some (fold_left (fun acc d => acc * radix + d)%N ds 0%N)
  | _, _ => None
  end.

(** The part of a string before the first character of a class, and the
    part after that character when there is one. *)
Fixpoint cut (sep : ascii -> bool) (s : jsstring) : jsstring * option jsstring :=
  match s with
  | [] => ([], None)
  | c :: rest =>
      if sep c then ([], Some rest)
      else let '(before, after) := cut sep rest in (c :: before, after)
  end.

(** [SignedInteger] of an exponent. *)
Definition signedInteger (s : jsstring) : option Z :=
  match s with
  | c :: rest =>
      if code c =? 45 then option_map (fun n => (- Z.of_N n)%Z) (numeral 10 rest)
      else if code c =? 43 then option_map Z.of_N (numeral 10 rest)
      else option_map Z.of_N (numeral 10 s)
  | [] => None
  end.

(** [StrUnsignedDecimalLiteral] other than [Infinity]: digits, a point and
    digits, with digits on one side of the point at least, then an optional
    exponent. *)
Definition unsignedDecimal (s : jsstring) : option Q :=
  let '(mantissa, exponent) := cut (fun c => (code c =? 101) || (code c =? 69)) s in
  let '(whole, point) := cut (fun c => code c =? 46) mantissa in
  let fraction := match point with Some f => f | None => [] end in
  let power := match exponent with
               | Some e => signedInteger e
               | None => Some 0%Z
               end in
  match digitsOf 10 whole, digitsOf 10 fraction, power with
  | Some ws, Some fs, Some e =>
      if Nat.eqb (length whole + length fraction) 0 then None
      else Some (inject_Z (Z.of_N (fold_left (fun acc d => acc * 10 + d)%N (ws ++ fs) 0%N))
                 * Qpower 10 (e - Z.of_nat (length fraction)))%Q
  | _, _, _ => None
  end.

(** [StrDecimalLiteral]: an optional sign before [Infinity] or before an
    unsigned literal, whose value is rounded to a double. *)
Definition decimalLiteral (s : jsstring) : numeric :=
  let '(negative, unsigned) :=
    match s with
    | c :: rest => if code c =? 45 then (true, rest)
                   else if code c =? 43 then (false, rest)
                   else (false, s)
    | [] => (false, s)
    end in
  if eqb_str unsigned (list_ascii_of_string "Infinity") then Infinity negative
  else match unsignedDecimal unsigned with
       | Some q => Finite (Number.fl (if negative then - q else q)%Q)
       | None => NotANumber
       end.

(** [NonDecimalIntegerLiteral]: [0x], [0o] or [0b] and digits of the base. *)
Definition nonDecimalLiteral (s : jsstring) : option N :=
  match s with
  | zero :: x :: rest =>
      if negb (code zero =? 48) then None
      else if (code x =? 120) || (code x =? 88) then numeral 16 rest
      else if (code x =? 111) || (code x =? 79) then numeral 8 rest
      else if (code x =? 98) || (code x =? 66) then numeral 2 rest
      else None
  | _ => None
  end.

(** [StringToNumber]: white space around a numeric literal is skipped, the
    empty string is 0, and a string that is no literal is NaN. *)
Definition stringToNumber (s : jsstring) : numeric :=
  let literal := trim s in
  match literal with
  | [] => Finite 0%Q
  | _ :: _ =>
      match nonDecimalLiteral literal with
      | Some n => Finite (Number.fl (inject_Z (Z.of_N n)))
      | None => decimalLiteral literal
      end
  end.

Definition hasOwn (name : string) (props : list (jsstring * json)) : bool :=
  match lookup (list_ascii_of_string name) props with
  | Some _ => true
  | None => false
  end.

(** Does [ToString] complete on a value?  An object becomes a primitive
    through its methods [toString] and [valueOf].  A decoded object inherits
    them from [Object.prototype], where [valueOf] returns the object and
    [toString] a string; a property [toString] of its own is no function and
    hides the one that returns a string, and the conversion throws.  An array
    joins the strings of its items. *)
Fixpoint stringifies (value : json) : bool :=
  match value with
  | JArray items => forallb stringifies items
  | JObject props => negb (hasOwn "toString" props)
  | _ => true
  end.

(** [ToNumber].  An object that converts gives [[object Object]], which is no
    number.  An array gives the text of its items with commas between them:
    the empty string without items, the text of the item when there is one
    ([null] shows as the empty string, a number as the numeral that reads
    back as that number), and a text with a comma, which is no number, when
    there are more. *)
Fixpoint toNumber (value : json) : completion numeric :=
  match value with
  | JNull => Normal (Finite 0%Q)
  | JBool b => Normal (Finite (if b then 1 else 0)%Q)
  | JNumber q => Normal (Finite q)
  | JString s => Normal (stringToNumber s)
  | JObject props => if hasOwn "toString" props then Throw TypeError else Normal NotANumber
  | JArray items =>
      if negb (forallb stringifies items) then Throw TypeError
      else
        match items with
        | [] => Normal (Finite 0%Q)
        | [item] =>
            match item with
            | JNull => Normal (Finite 0%Q)
            | JBool _ => Normal NotANumber
            | JObject _ => Normal NotANumber
            | _ => toNumber item
            end
        | _ :: _ :: _ => Normal NotANumber
        end
  end.

(** [x < bound] for a number [bound]; [None] is [undefined], which is NaN as
    a number, and a comparison with NaN is false. *)
Definition lessThan (x : option json) (bound : Number.number) : completion bool :=
  match x with
  | None => Normal false
  | Some value =>
      n <- toNumber value ;;
      Normal match n with
             | NotANumber => false
             | Infinity negative => negative
             | Finite q => negb (Qle_bool bound q)
             end
  end.

(** How the call to the inference API ends: [fetch] rejects, or it resolves
    to a response with a status and a body that [response.json()] decodes
    ([None]: the body is not JSON and decoding rejects). *)
Inductive fetched :=
| FetchRejects (e : exn)
| FetchResponse (status : nat) (body : option json).

(** [response.ok]. *)
Definition responseOk (status : nat) : bool := (200 <=? status) && (status <=? 299).

(* ================================================================== *)
(** * The heuristics engine: [class AIService]                          *)
(* ================================================================== *)

Module AIService.

Definition str (s : string) : jsstring := list_ascii_of_string s.

(** ** Helper methods *)

Definition hasImportantKeywords (sentence : jsstring) : bool :=
  let keywords := map str ["important"; "key"; "main"; "primary"; "essential";
                           "crucial"; "significant"; "major"] in
  let lowerSentence := toLowerCase sentence in
  existsb (fun keyword => includes lowerSentence keyword) keywords.

Definition containsProcess (text : jsstring) : bool :=
  let processIndicators := map str ["process"; "step"; "stage"; "phase"; "cycle";
                                    "method"; "procedure"] in
  let lowerText := toLowerCase text in
  existsb (fun indicator => includes lowerText indicator) processIndicators.

Definition extractProcessSteps (text : jsstring) : list jsstring :=
  let sentences := splitSentences text in
  let stepIndicators := map str ["first"; "second"; "third"; "then"; "next"; "after";
                                 "finally"; "step"] in
  map trim
    (slice0 3
       (filter (fun sentence =>
                  existsb (fun indicator => includes (toLowerCase sentence) indicator)
                          stepIndicators
                  && (length sentence <? 100))
               sentences)).

Definition isDefinition (sentence : jsstring) : bool :=
  let definitionIndicators := map str ["is defined as"; "means that"; "refers to";
                                       "is called"; "known as"] in
  let lowerSentence := toLowerCase sentence in
  existsb (fun indicator => includes lowerSentence indicator) definitionIndicators.

(** [string.charAt(0).toUpperCase() + string.slice(1)]. *)
Definition capitalizeFirstLetter (s : jsstring) : jsstring :=
  toUpperCase (firstn 1 s) ++ skipn 1 s.

(** [distractors[correctAnswer.toLowerCase()] || 'Related but different concept'].
    A key that the literal does not hold is looked up in [Object.prototype]:
    of its property names only [constructor] and [__proto__] have no capital
    letter, and both hold an object, which is truthy. *)
Definition distractors : list (jsstring * jsstring) :=
  map (fun '(k, v) => (str k, str v))
    [("machine", "artificial intelligence"); ("learning", "training");
     ("photosynthesis", "respiration"); ("water", "air"); ("cycle", "process");
     ("computer", "technology"); ("programming", "coding");
     ("algorithm", "method"); ("data", "information"); ("network", "system")].

Fixpoint assoc {V} (k : jsstring) (l : list (jsstring * V)) : option V :=
  match l with
  | [] => None
  | (k', v) :: t => if eqb_str k k' then Some v else assoc k t
  end.

Definition generateDistractor (correctAnswer : jsstring) : jsvalue :=
  let key := toLowerCase correctAnswer in
  match assoc key distractors with
  | Some d => if truthy d then VString d else VString (str "Related but different concept")
  | None =>
      if eqb_str key (str "constructor") then VObjectConstructor
      else if eqb_str key (str "__proto__") then VObjectPrototype
      else VString (str "Related but different concept")
  end.

(** ** [extractMainTopic] *)

(** What a property of [wordFreq] holds: a count, or, for the key
    [constructor], the text that [+ 1] makes of the inherited function. *)
Inductive freq :=
| Count (n : nat)
| Text (s : jsstring).

Definition objectConstructorSource : jsstring := str "function Object() { [native code] }".

(** [(wordFreq[w] || 0) + 1], with the own properties [own] of [wordFreq]. *)
Definition bump (own : list (jsstring * freq)) (w : jsstring) : freq :=
  match assoc w own with
  | Some (Count n) => Count (n + 1)
  | Some (Text s) => if truthy s then Text (s ++ str "1") else Count 1
  | None =>
      if eqb_str w (str "constructor") then Text (objectConstructorSource ++ str "1")
      else Count 1
  end.

(** [obj[k] = v]: an existing property keeps its place, a new one goes last. *)
Fixpoint setProp {V} (k : jsstring) (v : V) (l : list (jsstring * V)) : list (jsstring * V) :=
  match l with
  | [] => [(k, v)]
  | (k', v') :: t => if eqb_str k k' then (k', v) :: t else (k', v') :: setProp k v t
  end.

Definition digitValue (c : ascii) : N := N.of_nat (code c - 48).

Definition parseDecimal (s : jsstring) : N :=
  fold_left (fun acc c => (acc * 10 + digitValue c)%N) s 0%N.

(** An array index: the canonical decimal form of an integer below 2^32 - 1. *)
Definition isArrayIndex (s : jsstring) : bool :=
  match s with
  | [] => false
  | c :: t =>
      forallb isDigit s
      && (negb (code c =? 48) || Nat.eqb (length t) 0)
      && (parseDecimal s <=? 4294967294)%N
  end.

(** [Object.keys(obj)]: the array indices in ascending order, then the other
    keys in the order in which they were created. *)
Definition objectKeys {V} (own : list (jsstring * V)) : list jsstring :=
  let keys := map fst own in
  sort (fun a b => N.compare (parseDecimal a) (parseDecimal b)) (filter isArrayIndex keys)
  ++ filter (fun k => negb (isArrayIndex k)) keys.

Definition commonTopicWords : list jsstring :=
  map str ["the"; "is"; "in"; "and"; "to"; "of"; "that"; "this"; "with"; "for"; "on";
           "are"; "which"; "what"; "how"; "when"; "where"; "why"].

Definition countWord (wordFreq : list (jsstring * freq)) (word : jsstring)
  : list (jsstring * freq) :=
  let cleanWord := stripNonAlnum word in
  if (4 <? length cleanWord) && negb (arrayIncludes commonTopicWords cleanWord)
  then setProp cleanWord (bump wordFreq cleanWord) wordFreq
  else wordFreq.

(** [wordFreq[b] - wordFreq[a]]: a difference of counts, or NaN when one of
    the two is not a count.  NaN sorts as 0; with the key [constructor] the
    comparator is then not consistent, ECMAScript leaves the order to the
    implementation, and the embedding shows the order of a stable insertion
    sort. *)
Definition freqCompare (wordFreq : list (jsstring * freq)) (a b : jsstring) : comparison :=
  match assoc b wordFreq, assoc a wordFreq with
  | Some (Count nb), Some (Count na) => signZ (Z.of_nat nb - Z.of_nat na)
  | _, _ => Eq
  end.

Definition extractMainTopic (text : jsstring) : jsstring :=
  let words := splitWords (toLowerCase text) in
  let wordFreq := fold_left countWord words [] in
  let sortedWords := sort (freqCompare wordFreq) (objectKeys wordFreq) in
  match sortedWords with
  | w :: _ => if truthy w then capitalizeFirstLetter w else str "Learning Concepts"
  | [] => str "Learning Concepts"
  end.

(** ** [extractKeyTerms] *)

Definition commonTermWords : list jsstring :=
  map str ["however"; "although"; "because"; "therefore"; "additionally"].

Definition genericTerms : list jsstring :=
  map str ["Concept"; "Theory"; "Application"; "Method"; "Principle"; "Analysis"].

Definition extractKeyTerms (text : jsstring) : list jsstring :=
  let words := filter (fun word => 6 <? length word) (splitWords text) in
  let uniqueWords := slice0 8 (uniqueOf words) in
  let filteredWords :=
    filter (fun word => negb (arrayIncludes commonTermWords (toLowerCase word))
                        && isAlphabetic word)
           uniqueWords in
  if 4 <=? length filteredWords then slice0 4 filteredWords
  else slice0 4 genericTerms.

(** ** [generateSmartSummary] *)

Module SummaryItem.
Record t := { sentence : jsstring; length : nat; position : nat; hasKeywords : bool }.
End SummaryItem.

(** The comparator of the first [sort]: sentences with keywords first, then
    the longer ones, then the earlier ones. *)
Definition summaryOrder (a b : SummaryItem.t) : comparison :=
  if SummaryItem.hasKeywords a && negb (SummaryItem.hasKeywords b) then Lt
  else if negb (SummaryItem.hasKeywords a) && SummaryItem.hasKeywords b then Gt
  else if negb (SummaryItem.length a =? SummaryItem.length b)
       then signZ (Z.of_nat (SummaryItem.length b) - Z.of_nat (SummaryItem.length a))
       else signZ (Z.of_nat (SummaryItem.position a) - Z.of_nat (SummaryItem.position b)).

(** The comparator of the second [sort]: [a.position - b.position]. *)
Definition summaryPositionOrder (a b : SummaryItem.t) : comparison :=
  signZ (Z.of_nat (SummaryItem.position a) - Z.of_nat (SummaryItem.position b)).

Definition summarySentences (text : jsstring) : list jsstring :=
  filter (fun s => 10 <? length (trim s)) (splitSentences text).

Definition summaryItems (sentences : list jsstring) : list SummaryItem.t :=
  mapi (fun sentence index =>
          {| SummaryItem.sentence := trim sentence;
             SummaryItem.length := length sentence;
             SummaryItem.position := index;
             SummaryItem.hasKeywords := hasImportantKeywords sentence |})
       sentences.

Definition summaryMarker : jsstring := str " [AI Enhanced Summary]".

Definition generateSmartSummary (text : jsstring) : jsstring :=
  let sentences := summarySentences text in
  let importantSentences :=
    map SummaryItem.sentence
      (sort summaryPositionOrder
         (slice0 4 (sort summaryOrder (summaryItems sentences)))) in
  let summary := join (str ". ") importantSentences ++ str "." in
  summary ++ summaryMarker.

(** ** [generateSmartQuiz] *)

Module QuizQuestion.
Record t := { question : jsstring; options : list jsvalue; correct : nat;
              explanation : jsstring }.
End QuizQuestion.

Definition topicQuestion (mainTopic : jsstring) : QuizQuestion.t :=
  {| QuizQuestion.question := str "What is the main topic of this text?";
     QuizQuestion.options :=
       [ VString mainTopic; generateDistractor mainTopic; generateDistractor mainTopic;
         VString (str "A completely different subject") ];
     QuizQuestion.correct := 0;
     QuizQuestion.explanation :=
       str "The text primarily focuses on " ++ mainTopic
       ++ str ", as evidenced by the content and key terms." |}.

Definition conceptQuestion (term : jsstring) : QuizQuestion.t :=
  {| QuizQuestion.question := str "Which of these is a key concept mentioned in the text?";
     QuizQuestion.options :=
       [ VString term; generateDistractor term;
         VString (str "Unrelated concept 1"); VString (str "Unrelated concept 2") ];
     QuizQuestion.correct := 0;
     QuizQuestion.explanation := term ++ str " is a key concept discussed in the material." |}.

Definition processQuestion : QuizQuestion.t :=
  {| QuizQuestion.question := str "What does the text describe?";
     QuizQuestion.options :=
       map (fun o => VString (str o))
         ["A process or method"; "A historical event"; "A fictional story"; "A product review"];
     QuizQuestion.correct := 0;
     QuizQuestion.explanation :=
       str "The text describes a process or method based on the content structure." |}.

Definition genericQuestion : QuizQuestion.t :=
  {| QuizQuestion.question := str "What type of educational content is this?";
     QuizQuestion.options :=
       map (fun o => VString (str o))
         ["Study material for learning"; "Entertainment content"; "Advertising material";
          "Personal diary entry"];
     QuizQuestion.correct := 0;
     QuizQuestion.explanation :=
       str "This appears to be educational study material designed for learning purposes." |}.

(** [while (questions.length < 2) questions.push(generic)]. *)
Equations? padQuestions (questions : list QuizQuestion.t) : list QuizQuestion.t
  by wf (2 - length questions) lt :=
  padQuestions questions with lt_dec (length questions) 2 => {
    | left _ := padQuestions (questions ++ [genericQuestion]) ;
    | right _ := questions }.
Proof.
  rewrite length_app.
  destruct (length questions) as [|[|n]]; simpl in *; lia.
Qed.

Definition generateSmartQuiz (text : jsstring) : list QuizQuestion.t :=
  let mainTopic := extractMainTopic text in
  let keyTerms := extractKeyTerms text in
  let questions1 := if truthy mainTopic then [topicQuestion mainTopic] else [] in
  let questions2 :=
    match keyTerms with
    | term :: _ => questions1 ++ [conceptQuestion term]
    | [] => questions1
    end in
  let questions3 :=
    if containsProcess text then questions2 ++ [processQuestion] else questions2 in
  slice0 3 (padQuestions questions3).

(** [async generateQuiz(text)]: both the [try] and the [catch] call the
    rule-based generator. *)
Definition generateQuiz (text : jsstring) : list QuizQuestion.t := generateSmartQuiz text.

(** ** [generateSmartFlashcards] *)

Module Flashcard.
Record t := { front : jsstring; back : jsstring }.
End Flashcard.

(** The card that [keyTerms.forEach] pushes for one term. *)
Definition termCard (text : jsstring) (sentences : list jsstring) (term : jsstring)
  : Flashcard.t :=
  let contextSentence :=
    find (fun s => includes (toLowerCase s) (toLowerCase term) && (length s <? 100))
         sentences in
  {| Flashcard.front := term;
     Flashcard.back :=
       match contextSentence with
       | Some s =>
           if truthy s then str "Relates to: " ++ trim s ++ str "."
           else str "Important concept in " ++ extractMainTopic text ++ str "."
       | None => str "Important concept in " ++ extractMainTopic text ++ str "."
       end |}.

(** [processSteps.forEach((step, index) => { if (flashcards.length < 6) push })]. *)
Fixpoint pushSteps (index : nat) (steps : list jsstring) (flashcards : list Flashcard.t)
  : list Flashcard.t :=
  match steps with
  | [] => flashcards
  | step :: rest =>
      pushSteps (S index) rest
        (if length flashcards <? 6
         then flashcards ++ [ {| Flashcard.front := str "Step " ++ natToString (index + 1);
                                 Flashcard.back := step |} ]
         else flashcards)
  end.

Definition defaultFlashcards (text : jsstring) : list Flashcard.t :=
  [ {| Flashcard.front := str "Main Topic";
       Flashcard.back := str "The primary subject is " ++ extractMainTopic text ++ str "." |};
    {| Flashcard.front := str "Key Concept";
       Flashcard.back := str "Central idea discussed in the material." |};
    {| Flashcard.front := str "Learning Objective";
       Flashcard.back := str "Understanding the core concepts presented." |};
    {| Flashcard.front := str "Study Focus";
       Flashcard.back := str "Focus on the main ideas and relationships." |} ].

(** [while (flashcards.length < 4) { const defaultCard =
    defaultFlashcards[flashcards.length]; if (defaultCard) push }].  The four
    defaults cover every index below 4, so each turn pushes; the branch
    without a card is the one in which the source would spin, and
    [defaultCard_defined] shows that it is never taken. *)
Equations? padFlashcards (defaults flashcards : list Flashcard.t) : list Flashcard.t
  by wf (4 - length flashcards) lt :=
  padFlashcards defaults flashcards with lt_dec (length flashcards) 4 => {
    | left _ with nth_error defaults (length flashcards) => {
        | Some defaultCard := padFlashcards defaults (flashcards ++ [defaultCard]) ;
        | None := flashcards } ;
    | right _ := flashcards }.
Proof.
  rewrite length_app.
  destruct (length flashcards) as [|[|[|[|n]]]]; simpl in *; lia.
Qed.

Definition generateSmartFlashcards (text : jsstring) : list Flashcard.t :=
  let keyTerms := extractKeyTerms text in
  let sentences := filter (fun s => 10 <? length (trim s)) (splitSentences text) in
  let flashcards1 := map (termCard text sentences) keyTerms in
  let flashcards2 :=
    if containsProcess text then pushSteps 0 (extractProcessSteps text) flashcards1
    else flashcards1 in
  slice0 6 (padFlashcards (defaultFlashcards text) flashcards2).

Definition generateFlashcards (text : jsstring) : list Flashcard.t :=
  generateSmartFlashcards text.

(** ** [extractSmartKeyPoints] *)

Module Scored.
Record t := { sentence : jsstring; score : Number.number; position : nat }.
End Scored.

Module KeyPoint.
Record t := { id : nat; point : jsstring }.
End KeyPoint.

(** The body of the scoring [map]: [score] starts at 0 and is increased four
    times, each [+=] and each [/] rounding as doubles do. *)
Definition scoreOf (sentence : jsstring) (index : nat) : Number.number :=
  let score0 := 0%Q in
  let score1 :=
    Number.add score0
      (Number.min (Number.div (Number.ofNat (length sentence)) (Number.ofNat 50))
                  (Number.ofNat 3)) in
  let score2 := if hasImportantKeywords sentence
                then Number.add score1 (Number.ofNat 2) else score1 in
  let score3 := if isDefinition sentence
                then Number.add score2 (Number.ofNat 2) else score2 in
  Number.add score3
    (Number.max (Number.ofNat 0)
                (Number.div (Number.ofZ (10 - Z.of_nat index)) (Number.ofNat 5))).

Definition keyPointSentences (text : jsstring) : list jsstring :=
  filter (fun s => 15 <? length (trim s)) (splitSentences text).

Definition scoredSentences (sentences : list jsstring) : list Scored.t :=
  mapi (fun sentence index =>
          {| Scored.sentence := trim sentence;
             Scored.score := scoreOf sentence index;
             Scored.position := index |})
       sentences.

(** [(a, b) => b.score - a.score]. *)
Definition scoreOrder (a b : Scored.t) : comparison :=
  Number.sign (Number.sub (Scored.score b) (Scored.score a)).

(** [(a, b) => a.position - b.position]. *)
Definition scoredPositionOrder (a b : Scored.t) : comparison :=
  signZ (Z.of_nat (Scored.position a) - Z.of_nat (Scored.position b)).

Definition topSentences (text : jsstring) : list Scored.t :=
  sort scoredPositionOrder
    (slice0 5 (sort scoreOrder (scoredSentences (keyPointSentences text)))).

Definition extractSmartKeyPoints (text : jsstring) : list KeyPoint.t :=
  mapi (fun item index =>
          {| KeyPoint.id := index + 1;
             KeyPoint.point :=
               Scored.sentence item
               ++ (if endsWith (Scored.sentence item) (str ".") then [] else str ".") |})
       (topSentences text).

Definition extractKeyPoints (text : jsstring) : list KeyPoint.t :=
  extractSmartKeyPoints text.

(** ** [generateSummary]: the remote call and its fallback *)

(** [if (result.error) throw new Error(result.error)]. *)
Definition throwIfSet (error : option json) : completion unit :=
  match error with
  | Some e => if truthyJson e then Throw (ErrorOf e) else Normal tt
  | None => Normal tt
  end.

(** The body of the [try] block, from the awaited [fetch] on. *)
Definition remoteSummary (text : jsstring) (reply : fetched) : completion json :=
  match reply with
  | FetchRejects e => Throw e
  | FetchResponse status body =>
      if negb (responseOk status)
      then Throw (Error (str "Hugging Face API error: " ++ natToString status))
      else
        match body with
        | None => Throw SyntaxError
        | Some result =>
            error <- getNamed result (str "error") ;;
            _ <- throwIfSet error ;;
            first <- getFirst result ;;
            match getNamedOptional first (str "summary_text") with
            | Some summary_text =>
                if truthyJson summary_text then Normal summary_text
                else Normal (JString (generateSmartSummary text))
            | None => Normal (JString (generateSmartSummary text))
            end
        end
  end.

Definition generateSummary (text : jsstring) (reply : fetched) : completion json :=
  tryCatch (remoteSummary text reply)
           (fun error => Normal (JString (generateSmartSummary text))).

End AIService.

(* ================================================================== *)
(** * The process: files, clock and faults                              *)
(* ================================================================== *)

(** The text of a file, by what [JSON.parse] makes of it. *)
Inductive text (V : Type) :=
| Blank
| Malformed
| Encodes (v : V).
Arguments Blank {V}.
Arguments Malformed {V}.
Arguments Encodes {V} v.

Inductive file (V : Type) :=
| Absent
| Present (t : text V).
Arguments Absent {V}.
Arguments Present {V} t.

Module User.
Record t := { id : jsstring; email : jsstring; password : jsstring; name : jsstring;
              createdAt : N; lastLogin : N }.
End User.

(** What [users.json] decodes to, and what the variable [users] may hold: an
    array of user records, [null], or another value with the [length] it
    shows ([None]: no such property). *)
Inductive usersValue :=
| UArray (users : list User.t)
| UNull
| UOther (len : option nat).

Module Results.
Record t := { summary : option json;
              quiz : option (list AIService.QuizQuestion.t);
              flashcards : option (list AIService.Flashcard.t);
              keyPoints : option (list AIService.KeyPoint.t) }.
End Results.

(** A session as [study-sessions.json] holds it.  The results are kept as
    the decoded value: the routes store them and hand them back, and read
    nothing in them. *)
Module Session.
Record t := { id : jsstring; userId : jsstring; originalText : jsstring;
              fullTextLength : nat; results : json; features : list jsstring;
              timestamp : N; wordCount : nat; inputType : jsstring;
              fileName : option jsstring }.
End Session.

(** What [study-sessions.json] decodes to: an array of sessions or a value
    that has no [unshift]. *)
Inductive sessionsValue :=
| SArray (sessions : list Session.t)
| SNotArray.

(** What can go wrong at one call of the file system: nothing, an I/O error
    with a code other than [ENOENT], a path that is not found ([ENOENT]), or
    another writer that replaced [users.json] just before the call. *)
Inductive fault :=
| NoFault
| IOError
| NotFound
| UsersReplaced (f : file usersValue).

Record World := {
  usersFile : file usersValue;
  sessionsFile : file sessionsValue;
  inMemoryUsers : usersValue;      (* [let inMemoryUsers = []] of auth.js *)
  clock : N;                       (* what [Date.now()] returns next, in milliseconds *)
  later : list N;                  (* what it returns at the calls after that one *)
  entropy : nat;                   (* the salt that [bcrypt.hash] draws *)
  remote : fetched;                (* how the call to the inference API ends *)
  faults : list fault              (* one entry per call of the file system *)
}.

(** Effectful code: a function of the world that completes and leaves a world. *)
Definition io (A : Type) := World -> completion A * World.

Definition ret {A} (a : A) : io A := fun w => (Normal a, w).
Definition throw {A} (e : exn) : io A := fun w => (Throw e, w).

Definition bindIO {A B} (c : io A) (k : A -> io B) : io B :=
  fun w => match c w with
           | (Normal a, w') => k a w'
           | (Throw e, w') => (Throw e, w')
           end.

Notation "x <~ c ;; k" := (bindIO c (fun x => k))
  (at level 61, c at next level, right associativity).

Definition tryCatchIO {A} (body : io A) (handler : exn -> io A) : io A :=
  fun w => match body w with
           | (Normal a, w') => (Normal a, w')
           | (Throw e, w') => handler e w'
           end.

Definition lift {A} (c : completion A) : io A := fun w => (c, w).

(** The next fault, consumed. *)
Definition nextFault : io fault :=
  fun w => match faults w with
           | [] => (Normal NoFault, w)
           | f :: rest =>
               (Normal f, {| usersFile := usersFile w; sessionsFile := sessionsFile w;
                             inMemoryUsers := inMemoryUsers w; clock := clock w;
                             later := later w; entropy := entropy w; remote := remote w;
                             faults := rest |})
           end.

Definition setUsersFile (f : file usersValue) : io unit :=
  fun w => (Normal tt, {| usersFile := f; sessionsFile := sessionsFile w;
                          inMemoryUsers := inMemoryUsers w; clock := clock w;
                          later := later w; entropy := entropy w; remote := remote w;
                          faults := faults w |}).

Definition setSessionsFile (f : file sessionsValue) : io unit :=
  fun w => (Normal tt, {| usersFile := usersFile w; sessionsFile := f;
                          inMemoryUsers := inMemoryUsers w; clock := clock w;
                          later := later w; entropy := entropy w; remote := remote w;
                          faults := faults w |}).

Definition setInMemoryUsers (u : usersValue) : io unit :=
  fun w => (Normal tt, {| usersFile := usersFile w; sessionsFile := sessionsFile w;
                          inMemoryUsers := u; clock := clock w;
                          later := later w; entropy := entropy w; remote := remote w;
                          faults := faults w |}).

Definition getInMemoryUsers : io usersValue := fun w => (Normal (inMemoryUsers w), w).

(** The world once the clock has been read: the next reading is the first
    of those that were to follow; when none is listed the clock stands. *)
Definition advance (w : World) : World :=
  {| usersFile := usersFile w; sessionsFile := sessionsFile w;
     inMemoryUsers := inMemoryUsers w;
     clock := hd (clock w) (later w); later := tl (later w);
     entropy := entropy w; remote := remote w; faults := faults w |}.

(** [Date.now()] and [new Date()]: every call reads the clock anew. *)
Definition dateNow : io N := fun w => (Normal (clock w), advance w).
Definition drawSalt : io nat := fun w => (Normal (entropy w), w).
Definition awaitFetch : io fetched := fun w => (Normal (remote w), w).

(** [mkdir(dir, { recursive: true })] and [fs.mkdirSync]. *)
Definition mkdir : io unit :=
  f <~ nextFault ;;
  match f with
  | IOError => throw (SystemError (list_ascii_of_string "EACCES"))
  | NotFound => throw (SystemError (list_ascii_of_string "ENOENT"))
  | _ => ret tt
  end.

Definition readContent {V} (f : file V) : io (text V) :=
  match f with
  | Absent => throw (SystemError (list_ascii_of_string "ENOENT"))
  | Present t => ret t
  end.

(** [readFile(usersPath, 'utf8')]. *)
Definition readUsersFile : io (text usersValue) :=
  f <~ nextFault ;;
  match f with
  | IOError => throw (SystemError (list_ascii_of_string "EIO"))
  | NotFound => throw (SystemError (list_ascii_of_string "ENOENT"))
  | UsersReplaced other => _ <~ setUsersFile other ;; readContent other
  | NoFault => fun w => readContent (usersFile w) w
  end.

(** [writeFile(usersPath, JSON.stringify(users, null, 2), 'utf8')]. *)
Definition writeUsersFile (users : usersValue) : io unit :=
  f <~ nextFault ;;
  match f with
  | IOError => throw (SystemError (list_ascii_of_string "EIO"))
  | NotFound => throw (SystemError (list_ascii_of_string "ENOENT"))
  | _ => setUsersFile (Present (Encodes users))
  end.

(** [readFile] and [writeFile] on [study-sessions.json]. *)
Definition readSessionsFile : io (text sessionsValue) :=
  f <~ nextFault ;;
  match f with
  | IOError => throw (SystemError (list_ascii_of_string "EIO"))
  | NotFound => throw (SystemError (list_ascii_of_string "ENOENT"))
  | _ => fun w => readContent (sessionsFile w) w
  end.

Definition writeSessionsFile (sessions : list Session.t) : io unit :=
  f <~ nextFault ;;
  match f with
  | IOError => throw (SystemError (list_ascii_of_string "EIO"))
  | NotFound => throw (SystemError (list_ascii_of_string "ENOENT"))
  | _ => setSessionsFile (Present (Encodes (SArray sessions)))
  end.

(** [JSON.parse(data)]. *)
Definition parse {V} (data : text V) : completion V :=
  match data with
  | Encodes v => Normal v
  | _ => Throw SyntaxError
  end.

(** [!data || data.trim() === '']. *)
Definition isBlank {V} (data : text V) : bool :=
  match data with
  | Blank => true
  | _ => false
  end.

(** [error.code === 'ENOENT']. *)
Definition isENOENT (e : exn) : bool :=
  match e with
  | SystemError c => eqb_str c (list_ascii_of_string "ENOENT")
  | _ => false
  end.

(* ================================================================== *)
(** * The account routes: [routes/auth.js]                              *)
(* ================================================================== *)

(** The two libraries that the routes call: [bcryptjs] and [jsonwebtoken]. *)
Class Crypto := {
  bcryptHash : jsstring -> nat -> nat -> jsstring;   (* password, rounds, salt *)
  bcryptCompare : jsstring -> jsstring -> bool;      (* password, stored hash *)
  jwtSign : jsstring -> jsstring -> N -> jsstring    (* userId, email, issued at *)
}.

(** The answer of a route: the status and the JSON body. *)
Module PublicUser.
Record t := { id : jsstring; email : jsstring; name : jsstring; createdAt : N;
              lastLogin : option N }.
End PublicUser.

Inductive payload :=
| Failure (error : jsstring)
| Success (message : jsstring) (token : jsstring) (user : PublicUser.t).

Record response := { status : nat; body : payload }.

Module Auth.

(** A token as [/verify] and the middleware receive it: absent or a string. *)
Definition field := option jsstring.

(** A field of the body of [/register] and [/login]: absent, or the value
    that the JSON parser decoded. *)
Definition input := option json.

Module RegisterBody.
Record t := { email : input; password : input; name : input }.
End RegisterBody.

Module LoginBody.
Record t := { email : input; password : input }.
End LoginBody.

Section Routes.
Context `{Crypto}.

Definition str (s : string) : jsstring := list_ascii_of_string s.

(** [users.length]. *)
Definition lengthOf (users : usersValue) : completion (option nat) :=
  match users with
  | UArray l => Normal (Some (length l))
  | UNull => Throw TypeError
  | UOther n => Normal n
  end.

(** [Array.isArray(users)]. *)
Definition isArray (users : usersValue) : bool :=
  match users with
  | UArray _ => true
  | _ => false
  end.

(** [backupData.length > 0]. *)
Definition hasEntries (backupData : usersValue) : completion bool :=
  n <- lengthOf backupData ;;
  Normal (match n with Some k => 0 <? k | None => false end).

(** [verifiedUsers.length === users.length]. *)
Definition sameLength (verifiedUsers users : usersValue) : completion bool :=
  n <- lengthOf verifiedUsers ;;
  m <- lengthOf users ;;
  Normal (match n, m with
          | Some a, Some b => a =? b
          | None, None => true
          | _, _ => false
          end).

(** The inner [try] of [writeUsers] that snapshots the file. *)
Definition readBackup : io usersValue :=
  tryCatchIO
    (currentData <~ readUsersFile ;;
     if isBlank currentData then ret (UArray []) else lift (parse currentData))
    (fun backupError => ret (UArray [])).

Definition writeUsers (users : usersValue) : io bool :=
  tryCatchIO
    (_ <~ mkdir ;;
     _ <~ (if isArray users then ret tt
           else throw (Error (str "Users data is not an array"))) ;;
     backupData <~ readBackup ;;
     _ <~ writeUsersFile users ;;
     tryCatchIO
       (verifyData <~ readUsersFile ;;
        verifiedUsers <~ lift (parse verifyData) ;;
        same <~ lift (sameLength verifiedUsers users) ;;
        if same then _ <~ setInMemoryUsers users ;; ret true
        else throw (Error (str "File verification failed - data mismatch")))
       (fun verifyError =>
          restore <~ lift (hasEntries backupData) ;;
          _ <~ (if restore then writeUsersFile backupData else ret tt) ;;
          _ <~ setInMemoryUsers users ;;
          ret true))
    (fun error =>
       _ <~ setInMemoryUsers users ;;
       ret true).

Definition readUsers : io usersValue :=
  tryCatchIO
    (_ <~ mkdir ;;
     data <~ readUsersFile ;;
     if isBlank data then ret (UArray [])
     else
       users <~ lift (parse data) ;;
       _ <~ lift (lengthOf users) ;;
       _ <~ setInMemoryUsers users ;;
       ret users)
    (fun error =>
       if isENOENT error then _ <~ writeUsers (UArray []) ;; ret (UArray [])
       else
         mirror <~ getInMemoryUsers ;;
         _ <~ lift (lengthOf mirror) ;;        (* logged: [inMemoryUsers.length] *)
         ret mirror).

(** [!x] for a field of the body. *)
Definition falsy (x : input) : bool :=
  match x with
  | Some v => negb (truthyJson v)
  | None => true
  end.

(** The value of a field that is there; a property of [undefined] is read
    like one of [null], with a [TypeError]. *)
Definition given (x : input) : json :=
  match x with
  | Some v => v
  | None => JNull
  end.

(** [arr.find(callback)] with a callback that may throw: it is called on the
    items in turn, up to the first that it accepts. *)
Fixpoint findFirst {A} (callback : A -> completion bool) (l : list A)
  : completion (option A) :=
  match l with
  | [] => Normal None
  | x :: rest =>
      accepted <- callback x ;;
      if accepted then Normal (Some x) else findFirst callback rest
  end.

(** [users.find(user => user.email === email.toLowerCase())]. *)
Definition findByEmail (users : usersValue) (email : json)
  : completion (option User.t) :=
  match users with
  | UArray l =>
      findFirst (fun user => wanted <- toLowerCaseOf email ;;
                             Normal (eqb_str (User.email user) wanted)) l
  | _ => Throw TypeError
  end.

(** [bcrypt.hash(password, 12)] and [bcrypt.compare(password, hash)]: the
    library rejects a password that is no string. *)
Definition hash (password : json) : io jsstring :=
  match password with
  | JString s => salt <~ drawSalt ;; ret (bcryptHash s 12 salt)
  | _ => throw (Error (str "Illegal arguments: " ++ typeOf password ++ str ", number"))
  end.

Definition compare (password : json) (hashed : jsstring) : completion bool :=
  match password with
  | JString s => Normal (bcryptCompare s hashed)
  | _ => Throw (Error (str "Illegal arguments: " ++ typeOf password ++ str ", string"))
  end.

(** [users.push(newUser)]. *)
Definition push (users : usersValue) (newUser : User.t) : completion usersValue :=
  match users with
  | UArray l => Normal (UArray (l ++ [newUser]))
  | _ => Throw TypeError
  end.

(** [!x] for a field. *)
Definition missing (x : field) : bool :=
  match x with
  | Some s => negb (truthy s)
  | None => true
  end.

Definition value (x : field) : jsstring :=
  match x with
  | Some s => s
  | None => []
  end.

Definition reply (code : nat) (p : payload) : io response :=
  ret {| status := code; body := p |}.

Definition publicUser (u : User.t) (withLogin : bool) : PublicUser.t :=
  {| PublicUser.id := User.id u; PublicUser.email := User.email u;
     PublicUser.name := User.name u; PublicUser.createdAt := User.createdAt u;
     PublicUser.lastLogin := if withLogin then Some (User.lastLogin u) else None |}.

(** [router.post('/register', ...)].  The new record is built field by
    field in the order of the object literal, each [Date] read on its own;
    [jwt.sign] reads the clock for the time of issue. *)
Definition registerBody (req : RegisterBody.t) : io response :=
  let email := RegisterBody.email req in
  let password := RegisterBody.password req in
  let name := RegisterBody.name req in
  if falsy email || falsy password || falsy name
  then reply 400 (Failure (str "All fields are required: name, email, password"))
  else
    short <~ lift (n <- getLength (given password) ;; lessThan n 6%Q) ;;
    if short
    then reply 400 (Failure (str "Password must be at least 6 characters long"))
    else
      valid <~ lift (includesAt (given email)) ;;
      if negb valid
      then reply 400 (Failure (str "Please provide a valid email address"))
      else
        users <~ readUsers ;;
        _ <~ lift (lengthOf users) ;;
        existingUser <~ lift (findByEmail users (given email)) ;;
        match existingUser with
        | Some _ => reply 409 (Failure (str "User with this email already exists"))
        | None =>
            hashedPassword <~ hash (given password) ;;
            id <~ dateNow ;;
            lowerEmail <~ lift (toLowerCaseOf (given email)) ;;
            trimmedName <~ lift (trimOf (given name)) ;;
            createdAt <~ dateNow ;;
            lastLogin <~ dateNow ;;
            let newUser :=
              {| User.id := timeToString id;
                 User.email := lowerEmail;
                 User.password := hashedPassword;
                 User.name := trimmedName;
                 User.createdAt := createdAt;
                 User.lastLogin := lastLogin |} in
            users' <~ lift (push users newUser) ;;
            saveResult <~ writeUsers users' ;;
            if negb saveResult
            then reply 500 (Failure (str "Failed to create user account"))
            else
              issuedAt <~ dateNow ;;
              let token := jwtSign (User.id newUser) (User.email newUser) issuedAt in
              reply 201 (Success (str "User registered successfully") token
                                 (publicUser newUser false))
        end.

(** The route with its [try]/[catch]: it always answers. *)
Definition answer (handler : io response) (onError : jsstring) (w : World)
  : response * World :=
  match handler w with
  | (Normal r, w') => (r, w')
  | (Throw _, w') => ({| status := 500; body := Failure onError |}, w')
  end.

Definition register (req : RegisterBody.t) (w : World) : response * World :=
  answer (registerBody req) (str "Internal server error during registration") w.

(** [user.lastLogin = ...] on the record that [find] returned. *)
Fixpoint touch (wanted : jsstring) (now : N) (l : list User.t) : list User.t :=
  match l with
  | [] => []
  | u :: t =>
      if eqb_str (User.email u) wanted
      then {| User.id := User.id u; User.email := User.email u;
              User.password := User.password u; User.name := User.name u;
              User.createdAt := User.createdAt u; User.lastLogin := now |} :: t
      else u :: touch wanted now t
  end.

Definition touched (users : usersValue) (wanted : jsstring) (now : N) : usersValue :=
  match users with
  | UArray l => UArray (touch wanted now l)
  | other => other
  end.

(** [router.post('/login', ...)].  The record that [find] returned is the
    first with its address, and it is the one that gets the new [lastLogin]. *)
Definition loginBody (req : LoginBody.t) : io response :=
  let email := LoginBody.email req in
  let password := LoginBody.password req in
  if falsy email || falsy password
  then reply 400 (Failure (str "Email and password are required"))
  else
    users <~ readUsers ;;
    _ <~ lift (lengthOf users) ;;
    found <~ lift (findByEmail users (given email)) ;;
    match found with
    | None => reply 401 (Failure (str "Invalid email or password"))
    | Some user =>
        isPasswordValid <~ lift (compare (given password) (User.password user)) ;;
        if negb isPasswordValid
        then reply 401 (Failure (str "Invalid email or password"))
        else
          now <~ dateNow ;;
          let users' := touched users (User.email user) now in
          _ <~ writeUsers users' ;;
          issuedAt <~ dateNow ;;
          let token := jwtSign (User.id user) (User.email user) issuedAt in
          reply 200 (Success (str "Login successful") token
                             {| PublicUser.id := User.id user;
                                PublicUser.email := User.email user;
                                PublicUser.name := User.name user;
                                PublicUser.createdAt := User.createdAt user;
                                PublicUser.lastLogin := Some now |})
    end.

Definition login (req : LoginBody.t) (w : World) : response * World :=
  answer (loginBody req) (str "Internal server error during login") w.

End Routes.
End Auth.

(* ================================================================== *)
(** * The study routes: [routes/study.js]                               *)
(* ================================================================== *)

(** The body of an answer, as [res.json] sends it: the properties of the
    results are spread beside the message and the identifier. *)
Inductive studyPayload :=
| StudyFailure (error : jsstring)
| Generated (message : jsstring) (sessionId : jsstring) (results : json).

Record studyResponse := { studyStatus : nat; studyBody : studyPayload }.

(** The field [features] of a body: an array of names, or a value that is
    no array (a form field that is sent once is a string).  The embedding
    covers the arrays whose items are strings. *)
Inductive featuresValue :=
| FeatureList (names : list jsstring)
| NotAList.

Module Study.

Definition str (s : string) : jsstring := list_ascii_of_string s.

Definition readStudySessions : io sessionsValue :=
  tryCatchIO
    (data <~ readSessionsFile ;; lift (parse data))
    (fun error => ret (SArray [])).

Definition writeStudySessions (sessions : list Session.t) : io bool :=
  tryCatchIO
    (_ <~ mkdir ;;
     _ <~ writeSessionsFile sessions ;;
     ret true)
    (fun error => ret false).

(** [features.includes(name)]. *)
Definition wants (features : list jsstring) (name : string) : bool :=
  arrayIncludes features (str name).

Definition fallbackQuiz : list AIService.QuizQuestion.t :=
  [ {| AIService.QuizQuestion.question := str "What type of content is this?";
       AIService.QuizQuestion.options :=
         map (fun o => VString (str o)) ["Study material"; "Story"; "Poem"; "Advertisement"];
       AIService.QuizQuestion.correct := 0;
       AIService.QuizQuestion.explanation :=
         str "This appears to be educational study material." |} ].

Definition fallbackFlashcards : list AIService.Flashcard.t :=
  [ {| AIService.Flashcard.front := str "Main Topic";
       AIService.Flashcard.back := str "The primary subject of this study material" |};
    {| AIService.Flashcard.front := str "Key Concept";
       AIService.Flashcard.back := str "An important idea discussed in the text" |} ].

Definition fallbackKeyPoints : list AIService.KeyPoint.t :=
  [ {| AIService.KeyPoint.id := 1;
       AIService.KeyPoint.point :=
         str "This text contains educational content worth studying." |};
    {| AIService.KeyPoint.id := 2;
       AIService.KeyPoint.point :=
         str "Key concepts and ideas are presented for learning." |} ].

(** One [if (features.includes(name)) { try { ... } catch { ... } }]. *)
Definition feature {A} (features : list jsstring) (name : string)
  (compute : io A) (fallback : A) : io (option A) :=
  if wants features name
  then a <~ tryCatchIO compute (fun error => ret fallback) ;; ret (Some a)
  else ret None.

Definition generateAIResults (text : jsstring) (features : list jsstring) : io Results.t :=
  summary <~ feature features "summary"
               (reply <~ awaitFetch ;; lift (AIService.generateSummary text reply))
               (JString (str "AI summary generation is temporarily unavailable. Please try again later.")) ;;
  quiz <~ feature features "quiz" (ret (AIService.generateQuiz text)) fallbackQuiz ;;
  flashcards <~ feature features "flashcards"
                  (ret (AIService.generateFlashcards text)) fallbackFlashcards ;;
  keyPoints <~ feature features "keyPoints"
                 (ret (AIService.extractKeyPoints text)) fallbackKeyPoints ;;
  ret {| Results.summary := summary; Results.quiz := quiz;
         Results.flashcards := flashcards; Results.keyPoints := keyPoints |}.

(** What [JSON.stringify] writes for the results, in the answer and in the
    file.  An option of a question that is the function [Object] shows as
    [null], as a function does in an array, and [Object.prototype] as an
    object without properties; a feature that was not asked for has no
    property. *)
Definition optionJSON (option : jsvalue) : json :=
  match option with
  | VString s => JString s
  | VObjectConstructor => JNull
  | VObjectPrototype => JObject []
  end.

Definition questionJSON (q : AIService.QuizQuestion.t) : json :=
  JObject [ (str "question", JString (AIService.QuizQuestion.question q));
            (str "options", JArray (map optionJSON (AIService.QuizQuestion.options q)));
            (str "correct", JNumber (Number.ofNat (AIService.QuizQuestion.correct q)));
            (str "explanation", JString (AIService.QuizQuestion.explanation q)) ].

Definition flashcardJSON (card : AIService.Flashcard.t) : json :=
  JObject [ (str "front", JString (AIService.Flashcard.front card));
            (str "back", JString (AIService.Flashcard.back card)) ].

Definition keyPointJSON (point : AIService.KeyPoint.t) : json :=
  JObject [ (str "id", JNumber (Number.ofNat (AIService.KeyPoint.id point)));
            (str "point", JString (AIService.KeyPoint.point point)) ].

Definition property (name : string) (value : option json) : list (jsstring * json) :=
  match value with
  | Some v => [ (str name, v) ]
  | None => []
  end.

Definition resultsJSON (results : Results.t) : json :=
  JObject (property "summary" (Results.summary results)
           ++ property "quiz"
                (option_map (fun quiz => JArray (map questionJSON quiz))
                            (Results.quiz results))
           ++ property "flashcards"
                (option_map (fun cards => JArray (map flashcardJSON cards))
                            (Results.flashcards results))
           ++ property "keyPoints"
                (option_map (fun points => JArray (map keyPointJSON points))
                            (Results.keyPoints results))).

(** [sessions.unshift(session)]. *)
Definition unshift (sessions : sessionsValue) (session : Session.t)
  : completion (list Session.t) :=
  match sessions with
  | SArray l => Normal (session :: l)
  | SNotArray => Throw TypeError
  end.

(** The session is built with two readings of the clock, [Date.now()] for
    the identifier and [new Date()] for the time stamp.  It goes to the file
    through [JSON.stringify], and only its identifier is used afterwards, so
    the record shows the results as they are written. *)
Definition createStudySession (userId text : jsstring) (features : list jsstring)
  (results : Results.t) (inputType : jsstring) (fileName : option jsstring)
  : io Session.t :=
  id <~ dateNow ;;
  timestamp <~ dateNow ;;
  let session :=
    {| Session.id := timeToString id;
       Session.userId := userId;
       Session.originalText :=
         firstn 150 text ++ (if 150 <? length text then str "..." else []);
       Session.fullTextLength := length text;
       Session.results := resultsJSON results;
       Session.features := features;
       Session.timestamp := timestamp;
       Session.wordCount := length (splitWords text);
       Session.inputType := inputType;
       Session.fileName := fileName |} in
  sessions <~ readStudySessions ;;
  sessions' <~ lift (unshift sessions session) ;;
  let limitedSessions := slice0 50 sessions' in
  saveResult <~ writeStudySessions limitedSessions ;;
  ret session.

Definition allFeatures : list jsstring :=
  map str ["summary"; "quiz"; "flashcards"; "keyPoints"].

(** [Array.isArray(features) && features.length !== 0], with the default
    for a body without the field: the names to generate, if any. *)
Definition selected (features : option featuresValue) : option (list jsstring) :=
  match features with
  | Some (FeatureList names) => if Nat.eqb (length names) 0 then None else Some names
  | Some NotAList => None
  | None => Some allFeatures
  end.

(** [router.post('/process', authenticateToken, ...)], past the token check:
    [userId] is the identity that the token carries, [text] is the field of
    the body, absent or any decoded value, and [features] is [None] when the
    body has none and the default applies. *)
Definition processBody (userId : jsstring) (text : option json)
  (features : option featuresValue) : io studyResponse :=
  let tooShort :=
    {| studyStatus := 400;
       studyBody := StudyFailure (str "Please provide at least 30 characters of text") |} in
  match text with
  | None => ret tooShort
  | Some text =>
      if negb (truthyJson text) then ret tooShort
      else
        trimmed <~ lift (trimOf text) ;;
        if length trimmed <? 30 then ret tooShort
        else
          match selected features with
          | None =>
              ret {| studyStatus := 400;
                     studyBody := StudyFailure
                                    (str "Please select at least one feature to generate") |}
          | Some features =>
              cleanText <~ lift (trimOf text) ;;
              results <~ generateAIResults cleanText features ;;
              session <~ createStudySession userId cleanText features results
                           (str "text") None ;;
              ret {| studyStatus := 200;
                     studyBody := Generated (str "Study materials generated successfully!")
                                            (Session.id session) (resultsJSON results) |}
          end
  end.

Definition process (userId : jsstring) (text : option json)
  (features : option featuresValue) (w : World) : studyResponse * World :=
  match processBody userId text features w with
  | (Normal r, w') => (r, w')
  | (Throw _, w') =>
      ({| studyStatus := 500;
          studyBody := StudyFailure (str "Failed to process study material. Please try again.") |},
       w')
  end.

End Study.

(* ================================================================== *)
(** * The other account routes and the token check                      *)
(* ================================================================== *)

(** [s.split(sep)] for a separator of one character: the pieces between
    the occurrences, the empty ones included. *)
Fixpoint splitOn (sep : ascii) (s : jsstring) : list jsstring :=
  match s with
  | [] => [ [] ]
  | c :: rest =>
      if eqb_char c sep then [] :: splitOn sep rest
      else
        match splitOn sep rest with
        | piece :: pieces => (c :: piece) :: pieces
        | [] => [ [c] ]
        end
  end.

(** What a valid token carries. *)
Module Identity.
Record t := { userId : jsstring; email : jsstring }.
End Identity.

(** [jsonwebtoken.verify] with the secret of the server: the payload of a
    token that is valid at a given time, [None] when the library reports an
    error. *)
Class Jwt := {
  jwtVerify : jsstring -> N -> option Identity.t     (* token, now *)
}.

Inductive adminPayload :=
| AdminFailure (error : exn)
| Saved (message : jsstring) (usersSaved : option nat)
| Cleared (message : jsstring).

Inductive verifyPayload :=
| VerifyFailure (error : jsstring)
| Verified (user : PublicUser.t).

Record verifyResponse := { verifyStatus : nat; verifyResult : verifyPayload }.

Module Gate.
Section Routes.
Context `{Crypto} `{Jwt}.
Import Auth.

(** The maintenance routes answer with [res.json], so with status 200, and
    report an exception in the body. *)
Definition report (handler : io adminPayload) (w : World) : adminPayload * World :=
  match handler w with
  | (Normal r, w') => (r, w')
  | (Throw e, w') => (AdminFailure e, w')
  end.

(** [router.post('/force-save', ...)]. *)
Definition forceSave : World -> adminPayload * World :=
  report
    (users <~ getInMemoryUsers ;;
     success <~ writeUsers users ;;
     mirror <~ getInMemoryUsers ;;
     usersSaved <~ lift (lengthOf mirror) ;;
     ret (Saved (str "Force save " ++ (if success then str "completed" else str "failed"))
                usersSaved)).

(** [router.post('/clear-users', ...)]. *)
Definition clearUsers : World -> adminPayload * World :=
  report
    (_ <~ setInMemoryUsers (UArray []) ;;
     _ <~ writeUsers (UArray []) ;;
     ret (Cleared (str "All users cleared"))).

(** [users.find(u => u.id === wanted)]. *)
Definition findById (users : usersValue) (wanted : jsstring) : completion (option User.t) :=
  match users with
  | UArray l => Normal (find (fun u => eqb_str (User.id u) wanted) l)
  | _ => Throw TypeError
  end.

(** [jwt.verify(token, JWT_SECRET)], which throws on a token that is not
    valid. *)
Definition verifyToken (token : jsstring) : io Identity.t :=
  now <~ dateNow ;;
  match jwtVerify token now with
  | Some decoded => ret decoded
  | None => throw (Error (str "invalid token"))
  end.

(** [router.post('/verify', ...)]. *)
Definition verifyBody (token : field) : io verifyResponse :=
  if missing token
  then ret {| verifyStatus := 400; verifyResult := VerifyFailure (str "Token is required") |}
  else
    decoded <~ verifyToken (value token) ;;
    users <~ readUsers ;;
    user <~ lift (findById users (Identity.userId decoded)) ;;
    match user with
    | None => ret {| verifyStatus := 404; verifyResult := VerifyFailure (str "User not found") |}
    | Some user => ret {| verifyStatus := 200; verifyResult := Verified (publicUser user false) |}
    end.

Definition verify (token : field) (w : World) : verifyResponse * World :=
  match verifyBody token w with
  | (Normal r, w') => (r, w')
  | (Throw _, w') =>
      ({| verifyStatus := 401; verifyResult := VerifyFailure (str "Invalid or expired token") |},
       w')
  end.

(** [const token = authHeader && authHeader.split(' ')[1]]. *)
Definition bearerToken (authHeader : option jsstring) : field :=
  match authHeader with
  | None => None
  | Some header => if truthy header then nth_error (splitOn " " header) 1 else Some header
  end.

(** The middleware [authenticateToken]: it answers itself, or hands the
    payload of the token to the route ([req.user = user; next()]). *)
Definition authenticateToken (authHeader : option jsstring) : io (response + Identity.t) :=
  let token := bearerToken authHeader in
  if missing token
  then ret (inl {| status := 401; body := Failure (str "Access token required") |})
  else
    now <~ dateNow ;;
    match jwtVerify (value token) now with
    | None => ret (inl {| status := 403; body := Failure (str "Invalid or expired token") |})
    | Some user => ret (inr user)
    end.

End Routes.
End Gate.

(* ================================================================== *)
(** * The queries on the session store and the upload route             *)
(* ================================================================== *)

(** [Math.round]: the nearest integer, a tie going up. *)
Module Math.
Definition round (x : Number.number) : Z := Qfloor (x + (1 # 2))%Q.
End Math.

(** [parseInt(s)] without a radix: leading white space, a sign, the prefix
    [0x] for base 16, then the longest run of digits; [None] is NaN.  The
    routes only use the result as the end of a [slice], which clamps it, so it
    is kept as an integer. *)
Fixpoint digitsPrefix (radix : N) (s : jsstring) : list N :=
  match s with
  | [] => []
  | c :: rest =>
      match digitOf radix c with
      | Some d => d :: digitsPrefix radix rest
      | None => []
      end
  end.

Definition parseInt (s : jsstring) : option Z :=
  let s1 := trimStart s in
  let negative := match s1 with c :: _ => code c =? 45 | [] => false end in
  let s2 := match s1 with
            | c :: rest => if (code c =? 45) || (code c =? 43) then rest else s1
            | [] => s1
            end in
  let hex := match s2 with
             | zero :: x :: _ => (code zero =? 48) && ((code x =? 120) || (code x =? 88))
             | _ => false
             end in
  let radix := if hex then 16%N else 10%N in
  let s3 := if hex then skipn 2 s2 else s2 in
  match digitsPrefix radix s3 with
  | [] => None
  | digits =>
      let mathInt := Z.of_N (fold_left (fun acc d => acc * radix + d)%N digits 0%N) in
      Some (if negative then (- mathInt)%Z else mathInt)
  end.

(** [arr.slice(0, end)]: NaN counts as 0, a negative [end] counts from the
    end of the array. *)
Definition sliceTo {A} (finish : option Z) (l : list A) : list A :=
  match finish with
  | None => []
  | Some e => if (e <? 0)%Z then firstn (length l - Z.to_nat (- e)) l
              else firstn (Z.to_nat e) l
  end.

Module Stats.
Record t := { totalSessions : nat; totalWordsProcessed : nat;
              averageWordsPerSession : Z; mostUsedFeature : jsstring;
              firstSession : option N; lastSession : option N;
              fileUploads : nat; textInputs : nat }.
End Stats.

Inductive queryPayload :=
| QueryFailure (error : jsstring)
| History (sessions : list Session.t) (total : nat)
| Found (session : Session.t)
| Statistics (stats : Stats.t).

Record queryResponse := { queryStatus : nat; queryBody : queryPayload }.

(** A file that multer stored: where it is, what the client said it is, and
    the text that [readFile(path, 'utf8')] finds in it. *)
Module Upload.
Record t := { path : jsstring; mimetype : jsstring; originalname : jsstring;
              content : jsstring }.
End Upload.

Module Queries.
Import Study.

(** The receiver of [.filter] and [.find]: an array, or a [TypeError]. *)
Definition arrayOf (sessions : sessionsValue) : completion (list Session.t) :=
  match sessions with
  | SArray l => Normal l
  | SNotArray => Throw TypeError
  end.

Definition ownedBy (userId : jsstring) (session : Session.t) : bool :=
  eqb_str (Session.userId session) userId.

Definition answerQuery (handler : io queryResponse) (onError : jsstring) (w : World)
  : queryResponse * World :=
  match handler w with
  | (Normal r, w') => (r, w')
  | (Throw _, w') => ({| queryStatus := 500; queryBody := QueryFailure onError |}, w')
  end.

(** [router.get('/history', authenticateToken, ...)], past the token check.
    [limit] is the query parameter as a string, [None] when there is none
    and the default 20 applies. *)
Definition historyBody (userId : jsstring) (limit : option jsstring) : io queryResponse :=
  sessions <~ readStudySessions ;;
  all <~ lift (arrayOf sessions) ;;
  let finish := match limit with
                | Some s => parseInt s
                | None => Some 20%Z
                end in
  let userSessions := sliceTo finish (filter (ownedBy userId) all) in
  ret {| queryStatus := 200; queryBody := History userSessions (length userSessions) |}.

Definition history (userId : jsstring) (limit : option jsstring)
  : World -> queryResponse * World :=
  answerQuery (historyBody userId limit) (str "Failed to load study history").

(** [router.get('/session/:sessionId', authenticateToken, ...)]. *)
Definition sessionBody (userId sessionId : jsstring) : io queryResponse :=
  sessions <~ readStudySessions ;;
  all <~ lift (arrayOf sessions) ;;
  match find (fun s => eqb_str (Session.id s) sessionId && eqb_str (Session.userId s) userId)
             all with
  | None => ret {| queryStatus := 404;
                   queryBody := QueryFailure (str "Study session not found") |}
  | Some session => ret {| queryStatus := 200; queryBody := Found session |}
  end.

Definition session (userId sessionId : jsstring) : World -> queryResponse * World :=
  answerQuery (sessionBody userId sessionId) (str "Failed to retrieve study session").

(** ** [getMostUsedFeature] *)

(** The properties that [featureCount = {}] inherits from [Object.prototype],
    each with the text that [+ 1] makes of its value before the [1]. *)
Definition inheritedMethods : list jsstring :=
  map str ["constructor"; "__defineGetter__"; "__defineSetter__"; "hasOwnProperty";
           "__lookupGetter__"; "__lookupSetter__"; "isPrototypeOf";
           "propertyIsEnumerable"; "toString"; "valueOf"; "toLocaleString"].

Definition inheritedText (key : jsstring) : option jsstring :=
  if eqb_str key (str "constructor") then Some AIService.objectConstructorSource
  else if arrayIncludes inheritedMethods key
       then Some (str "function " ++ key ++ str "() { [native code] }")
  else if eqb_str key (str "__proto__") then Some (str "[object Object]")
  else None.

(** [(featureCount[feature] || 0) + 1]. *)
Definition bumpFeature (own : list (jsstring * AIService.freq)) (feature : jsstring)
  : AIService.freq :=
  match AIService.assoc feature own with
  | Some (AIService.Count n) => AIService.Count (n + 1)
  | Some (AIService.Text s) =>
      if truthy s then AIService.Text (s ++ str "1") else AIService.Count 1
  | None =>
      match inheritedText feature with
      | Some s => AIService.Text (s ++ str "1")
      | None => AIService.Count 1
      end
  end.

(** [featureCount[feature] = ...]: the setter of [__proto__] drops a string. *)
Definition countFeature (featureCount : list (jsstring * AIService.freq))
  (feature : jsstring) : list (jsstring * AIService.freq) :=
  if eqb_str feature (str "__proto__") then featureCount
  else AIService.setProp feature (bumpFeature featureCount feature) featureCount.

(** [a < b] on strings: the order of the code units. *)
Fixpoint ltString (a b : jsstring) : bool :=
  match a, b with
  | _, [] => false
  | [], _ :: _ => true
  | x :: a', y :: b' =>
      if code x <? code y then true
      else if code y <? code x then false
      else ltString a' b'
  end.

(** [featureCount[a] > featureCount[b]] for values that are counts, texts
    that are no numerals, or [undefined]: two counts compare as numbers, two
    texts as strings, and every other pair involves NaN. *)
Definition greater (x y : option AIService.freq) : bool :=
  match x, y with
  | Some (AIService.Count a), Some (AIService.Count b) => b <? a
  | Some (AIService.Text s), Some (AIService.Text t) => ltString t s
  | _, _ => false
  end.

Definition getMostUsedFeature (sessions : list Session.t) : jsstring :=
  let featureCount :=
    fold_left (fun featureCount session =>
                 fold_left countFeature (Session.features session) featureCount)
              sessions [] in
  fold_left (fun a b =>
               if greater (AIService.assoc a featureCount) (AIService.assoc b featureCount)
               then a else b)
            (AIService.objectKeys featureCount) (str "summary").

(** [router.get('/stats', authenticateToken, ...)]. *)
Definition totalWords (sessions : list Session.t) : nat :=
  fold_left (fun sum session => sum + Session.wordCount session) sessions 0.

Definition statsBody (userId : jsstring) : io queryResponse :=
  sessions <~ readStudySessions ;;
  all <~ lift (arrayOf sessions) ;;
  let userSessions := filter (ownedBy userId) all in
  let stats :=
    {| Stats.totalSessions := length userSessions;
       Stats.totalWordsProcessed := totalWords userSessions;
       Stats.averageWordsPerSession :=
         if 0 <? length userSessions
         then Math.round (Number.div (Number.ofNat (totalWords userSessions))
                                     (Number.ofNat (length userSessions)))
         else 0%Z;
       Stats.mostUsedFeature := getMostUsedFeature userSessions;
       Stats.firstSession :=
         if 0 <? length userSessions
         then option_map Session.timestamp
                (nth_error userSessions (length userSessions - 1))
         else None;
       Stats.lastSession :=
         if 0 <? length userSessions
         then option_map Session.timestamp (nth_error userSessions 0)
         else None;
       Stats.fileUploads :=
         length (filter (fun s => eqb_str (Session.inputType s) (str "file")) userSessions);
       Stats.textInputs :=
         length (filter (fun s => eqb_str (Session.inputType s) (str "text")) userSessions)
    |} in
  ret {| queryStatus := 200; queryBody := Statistics stats |}.

Definition stats (userId : jsstring) : World -> queryResponse * World :=
  answerQuery (statsBody userId) (str "Failed to load statistics").

(** ** [router.post('/process-file', ...)] *)

(** The three methods that the route calls on the service for audio, video
    and PDF files.  [class AIService] defines none of them, so each is
    [undefined] on the object that the route imports. *)
Definition transcribeAudio : option (jsstring -> io jsstring) := None.
Definition transcribeVideo : option (jsstring -> io jsstring) := None.
Definition extractTextFromPDF : option (jsstring -> io jsstring) := None.

(** [aiService.method(filePath)]: calling [undefined] throws. *)
Definition callMethod (method : option (jsstring -> io jsstring)) (filePath : jsstring)
  : io jsstring :=
  match method with
  | Some f => f filePath
  | None => throw TypeError
  end.

(** [readFile(filePath, 'utf8')] and [fs.unlinkSync(filePath)] on the stored
    upload.  The uploads directory is not part of the world: the two calls
    show as calls of the file system that may fail. *)
Definition readUpload (file : Upload.t) : io jsstring :=
  f <~ nextFault ;;
  match f with
  | IOError => throw (SystemError (list_ascii_of_string "EIO"))
  | NotFound => throw (SystemError (list_ascii_of_string "ENOENT"))
  | _ => ret (Upload.content file)
  end.

Definition unlink : io unit :=
  f <~ nextFault ;;
  match f with
  | IOError => throw (SystemError (list_ascii_of_string "EPERM"))
  | NotFound => throw (SystemError (list_ascii_of_string "ENOENT"))
  | _ => ret tt
  end.

(** The [try] that extracts the text according to the type of the file,
    with the [catch] that replaces it. *)
Definition extractText (file : Upload.t) : io jsstring :=
  let fileType := Upload.mimetype file in
  tryCatchIO
    (if startsWith fileType (str "audio/") then callMethod transcribeAudio (Upload.path file)
     else if startsWith fileType (str "video/")
          then callMethod transcribeVideo (Upload.path file)
     else if eqb_str fileType (str "application/pdf")
          then callMethod extractTextFromPDF (Upload.path file)
     else if eqb_str fileType (str "text/plain") then readUpload file
     else ret (str "Content from " ++ Upload.originalname file
               ++ str ". This would be processed text from the uploaded file."))
    (fun extractionError =>
       ret (str "Content extracted from " ++ Upload.originalname file
            ++ str ". This is sample extracted text that would normally come from the file.")).

(** [fileFilter] of the multer configuration: the types that reach the
    route. *)
Definition allowedTypes : list jsstring :=
  map str ["audio/mpeg"; "audio/wav"; "audio/mp4"; "audio/ogg";
           "video/mp4"; "video/avi"; "video/mov"; "video/webm";
           "application/pdf";
           "application/vnd.openxmlformats-officedocument.wordprocessingml.document";
           "text/plain"].

Definition fileFilter (file : Upload.t) : bool :=
  arrayIncludes allowedTypes (Upload.mimetype file).

Definition insufficient : studyResponse :=
  {| studyStatus := 400;
     studyBody := StudyFailure (str "Could not extract sufficient text from the file. Please try a different file.") |}.

Definition processingFailed : studyResponse :=
  {| studyStatus := 500;
     studyBody := StudyFailure (str "Failed to process file. Please try again.") |}.

(** The route past the token check and multer.  The steps up to the removal
    of the upload cannot throw; [deleted] records whether the removal
    succeeded, which is what [fs.existsSync(req.file.path)] finds in the
    [catch] block. *)
Definition processFileBody (userId : jsstring) (file : Upload.t) (features : list jsstring)
  : io studyResponse :=
  extractedText <~ extractText file ;;
  deleted <~ tryCatchIO (_ <~ unlink ;; ret true) (fun cleanupError => ret false) ;;
  tryCatchIO
    (if negb (truthy extractedText) || (length (trim extractedText) <? 10)
     then ret insufficient
     else
       results <~ generateAIResults extractedText features ;;
       session <~ createStudySession userId extractedText features results (str "file")
                    (Some (Upload.originalname file)) ;;
       ret {| studyStatus := 200;
              studyBody := Generated (str "Study materials generated successfully from file!")
                                     (Session.id session) (resultsJSON results) |})
    (fun error =>
       _ <~ (if deleted then ret tt else tryCatchIO unlink (fun cleanupError => ret tt)) ;;
       ret processingFailed).

Definition processFile (userId : jsstring) (file : option Upload.t)
  (features : option featuresValue) (w : World) : studyResponse * World :=
  match file with
  | None => ({| studyStatus := 400; studyBody := StudyFailure (str "No file uploaded") |}, w)
  | Some file =>
      match selected features with
      | None =>
          ({| studyStatus := 400;
              studyBody := StudyFailure (str "Please select at least one feature to generate") |},
           w)
      | Some names =>
          match processFileBody userId file names w with
          | (Normal r, w') => (r, w')
          | (Throw _, w') => (processingFailed, w')
          end
      end
  end.

End Queries.

(* ================================================================== *)
(** * The vocabulary of the properties                                  *)
(* ================================================================== *)

(** [a] may stand before [b]: the comparator does not send [a] behind [b]. *)
Definition precedes {A} (cmp : A -> A -> comparison) (a b : A) : Prop := cmp a b <> Gt.

(** The comparator [(a, b) => a.position - b.position]. *)
Definition byPosition {A} (pos : A -> nat) (a b : A) : comparison :=
  signZ (Z.of_nat (pos a) - Z.of_nat (pos b)).

(** The best [k] by [rank], listed by position: the shape that the summary
    and the key points share. *)
Definition selected {A} (rank : A -> A -> comparison) (pos : A -> nat) (k : nat)
  (l : list A) : list A :=
  sort (byPosition pos) (slice0 k (sort rank l)).

(** The comparator that a stable sort behaves like on a list in increasing
    order of [pos]: ties of [cmp] go to the element that stands first. *)
Definition withTies {A} (cmp : A -> A -> comparison) (pos : A -> nat) (a b : A)
  : comparison :=
  match cmp a b with
  | Eq => Nat.compare (pos a) (pos b)
  | c => c
  end.

(** [ensures c Q]: whenever [c] completes normally, [Q] holds of its value
    and of the world it leaves. *)
Definition ensures {A} (c : io A) (Q : A -> World -> Prop) : Prop :=
  forall w a w', c w = (Normal a, w') -> Q a w'.

(** [neverThrows c]: [c] completes normally in every world. *)
Definition neverThrows {A} (c : io A) : Prop :=
  forall w, exists a w', c w = (Normal a, w').

(** What the clock shows at the call of [Date.now()] that comes after [k]
    others. *)
Definition reading (k : nat) (w : World) : N := clock (Nat.iter k advance w).

(** [timeless c]: [c] neither reads the clock nor draws a salt. *)
Definition timeless {A} (c : io A) : Prop :=
  forall w r w', c w = (r, w') ->
    clock w' = clock w /\ later w' = later w /\ entropy w' = entropy w.

Module SummarySpec.
Import AIService.

(** The tie-break order in the words of the specification: a sentence ranks
    before another when it alone has an important keyword or, both having one
    or neither, when it is longer or, at equal length, stands earlier. *)
Definition ranksBefore (a b : SummaryItem.t) : Prop :=
  (SummaryItem.hasKeywords a = true /\ SummaryItem.hasKeywords b = false)
  \/ (SummaryItem.hasKeywords a = SummaryItem.hasKeywords b
      /\ (SummaryItem.length b < SummaryItem.length a
          \/ (SummaryItem.length a = SummaryItem.length b
              /\ SummaryItem.position a < SummaryItem.position b))).

(** The candidates: the kept sentences, each with its place among them. *)
Definition candidates (text : jsstring) : list SummaryItem.t :=
  summaryItems (summarySentences text).

(** The sentences that make the summary. *)
Definition chosen (text : jsstring) : list SummaryItem.t :=
  selected summaryOrder SummaryItem.position 4 (candidates text).

End SummarySpec.

Module KeyPointSpec.
Import AIService.

Definition candidates (text : jsstring) : list Scored.t :=
  scoredSentences (keyPointSentences text).

(** The order of the scores with its ties settled by position. *)
Definition tiedOrder : Scored.t -> Scored.t -> comparison :=
  withTies scoreOrder Scored.position.

End KeyPointSpec.

Module QuizSpec.
Import AIService.

(** A question with exactly four options, the first of which is the correct
    one. *)
Definition wellFormed (q : QuizQuestion.t) : Prop :=
  length (QuizQuestion.options q) = 4 /\ QuizQuestion.correct q = 0.

(** The four kinds of question. *)
Definition shaped (q : QuizQuestion.t) : Prop :=
  exists topic term,
    In q [topicQuestion topic; conceptQuestion term; processQuestion; genericQuestion].

End QuizSpec.

Module KeyTermSpec.
Import AIService.

(** A token qualifies when it is no stopword and is made of letters only. *)
Definition qualifies (word : jsstring) : bool :=
  negb (arrayIncludes commonTermWords (toLowerCase word)) && isAlphabetic word.

Definition longTokens (text : jsstring) : list jsstring :=
  filter (fun word => 6 <? length word) (splitWords text).

Definition genericFour : list jsstring :=
  map str ["Concept"; "Theory"; "Application"; "Method"].

(** Key-term extraction in the words of the specification: the tokens longer
    than 6 characters, without repetitions and in order of first occurrence,
    without the stopwords and the tokens that are not alphabetic; the first
    four of them, or the generic set when fewer than four remain. *)
Definition keyTermsAsSpecified (text : jsstring) : list jsstring :=
  let qualifying := filter qualifies (uniqueOf (longTokens text)) in
  if length qualifying <? 4 then genericFour else firstn 4 qualifying.

End KeyTermSpec.

Module SessionSpec.
Import Study.

(** The sessions that the file holds: those of the array it encodes, none
    when the file is missing or does not encode an array. *)
Definition persisted (w : World) : list Session.t :=
  match sessionsFile w with
  | Present (Encodes (SArray l)) => l
  | _ => []
  end.

(** The file is missing, holds text that does not decode, or holds an array:
    what an append reads from it has an [unshift]. *)
Definition readable (w : World) : Prop :=
  match sessionsFile w with
  | Present (Encodes SNotArray) => False
  | _ => True
  end.

(** The worlds that a run of appends reaches.  Between two appends the rest
    of the process (clock, pending faults, the users' file, the remote
    service) may change; nothing else writes the sessions' file. *)
Inductive appends : World -> World -> Prop :=
| appends_none w : appends w w
| appends_more w w1 w1' w2 userId text features results inputType fileName outcome :
    appends w w1 ->
    sessionsFile w1' = sessionsFile w1 ->
    createStudySession userId text features results inputType fileName w1' = (outcome, w2) ->
    appends w w2.

(** One millisecond later. *)
Definition tick (w : World) : World :=
  {| usersFile := usersFile w; sessionsFile := sessionsFile w;
     inMemoryUsers := inMemoryUsers w; clock := clock w + 1; later := later w;
     entropy := entropy w; remote := remote w; faults := faults w |}.

Definition noResults : Results.t :=
  {| Results.summary := None; Results.quiz := None; Results.flashcards := None;
     Results.keyPoints := None |}.

(** A run of [n] appends by one user, the clock advancing by one
    millisecond before each. *)
Fixpoint appendMany (n : nat) (w : World) : World :=
  match n with
  | O => w
  | S k => snd (createStudySession (str "42") (str "some text") allFeatures noResults
                                   (str "text") None (tick (appendMany k w)))
  end.

Definition freshWorld : World :=
  {| usersFile := Absent; sessionsFile := Absent; inMemoryUsers := UArray [];
     clock := 1700000000000; later := []; entropy := 0;
     remote := FetchRejects (Error []); faults := [] |}.

End SessionSpec.

Module AccountSpec.
Section WithCrypto.
Context `{Crypto}.
Import Auth.

(** A registration request that passes the three input checks: no field
    is falsy, [password.length < 6] is false and [email.includes('@')] is
    true. *)
Definition passesChecks (req : RegisterBody.t) : Prop :=
  falsy (RegisterBody.email req) = false
  /\ falsy (RegisterBody.password req) = false
  /\ falsy (RegisterBody.name req) = false
  /\ (n <- getLength (given (RegisterBody.password req)) ;; lessThan n 6%Q) = Normal false
  /\ includesAt (given (RegisterBody.email req)) = Normal true.

(** The body of a registration whose three fields are strings, and what the
    input checks ask of such strings. *)
Definition registration (email password name : jsstring) : RegisterBody.t :=
  {| RegisterBody.email := Some (JString email);
     RegisterBody.password := Some (JString password);
     RegisterBody.name := Some (JString name) |}.

Definition validRegistration (email password name : jsstring) : Prop :=
  6 <= length password /\ includes email (str "@") = true /\ name <> [].

(** The next two calls of the file system, the ones that [readUsers] makes
    to create the directory and to read the file, meet no fault. *)
Definition readable (w : World) : Prop :=
  Forall (fun f => f = NoFault) (firstn 2 (faults w)).

(** A login request with both fields, and one in which both are strings. *)
Definition completeLogin (req : LoginBody.t) : Prop :=
  falsy (LoginBody.email req) = false /\ falsy (LoginBody.password req) = false.

Definition credentials (email password : jsstring) : LoginBody.t :=
  {| LoginBody.email := Some (JString email);
     LoginBody.password := Some (JString password) |}.

(** The account with a given address among the users that were read. *)
Definition accountOf (users : list User.t) (email : jsstring) : option User.t :=
  find (fun user => eqb_str (User.email user) (toLowerCase email)) users.

Definition conflict : response :=
  {| status := 409; body := Failure (str "User with this email already exists") |}.

Definition unauthorized : response :=
  {| status := 401; body := Failure (str "Invalid email or password") |}.


Definition serverError (message : string) : response :=
  {| status := 500; body := Failure (str message) |}.

(** The record that a registration stores when it starts to build it in
    world [w]: the identifier and the two dates come from three readings of
    the clock, one after the other. *)
Definition newUserOf (email password name : jsstring) (w : World) : User.t :=
  {| User.id := timeToString (reading 0 w);
     User.email := toLowerCase email;
     User.password := bcryptHash password 12 (entropy w);
     User.name := trim name;
     User.createdAt := reading 1 w;
     User.lastLogin := reading 2 w |}.

End WithCrypto.
End AccountSpec.

Module AccountExamples.

(** Stand-ins for the two libraries, to run the routes on concrete worlds. *)
#[global] Instance plainCrypto : Crypto :=
  {| bcryptHash := fun password rounds salt =>
       list_ascii_of_string "$2a$" ++ natToString rounds ++ list_ascii_of_string "$"
       ++ natToString salt ++ list_ascii_of_string "$" ++ rev password;
     bcryptCompare := fun password hash =>
       endsWith hash (list_ascii_of_string "$" ++ rev password);
     jwtSign := fun userId email issuedAt =>
       list_ascii_of_string "jwt." ++ userId ++ list_ascii_of_string "." ++ email |}.

Definition alice : User.t :=
  {| User.id := list_ascii_of_string "1700000000000";
     User.email := list_ascii_of_string "alice@example.com";
     User.password := bcryptHash (list_ascii_of_string "correct horse") 12 7;
     User.name := list_ascii_of_string "Alice";
     User.createdAt := 1700000000000; User.lastLogin := 1700000000000 |}.

(** A process whose account store holds Alice.  The clock moves on between
    its readings. *)
Definition withAlice : World :=
  {| usersFile := Present (Encodes (UArray [alice])); sessionsFile := Absent;
     inMemoryUsers := UArray [alice]; clock := 1700000001000;
     later := [1700000001000%N; 1700000001001%N; 1700000001002%N]; entropy := 3;
     remote := FetchRejects (Error []); faults := [] |}.

Definition aliceAgain : Auth.RegisterBody.t :=
  AccountSpec.registration (list_ascii_of_string "Alice@Example.com")
    (list_ascii_of_string "another password") (list_ascii_of_string "Alice").

Definition aliceShortPassword : Auth.RegisterBody.t :=
  AccountSpec.registration (list_ascii_of_string "alice@example.com")
    (list_ascii_of_string "12345") (list_ascii_of_string "Alice").

Definition aliceWrongPassword : Auth.LoginBody.t :=
  AccountSpec.credentials (list_ascii_of_string "alice@example.com")
    (list_ascii_of_string "wrong horse").

Definition aliceEmptyPassword : Auth.LoginBody.t :=
  AccountSpec.credentials (list_ascii_of_string "alice@example.com") [].

(** A login for Alice's address whose password is the number 1234567. *)
Definition aliceNumericPassword : Auth.LoginBody.t :=
  {| Auth.LoginBody.email := Some (JString (list_ascii_of_string "alice@example.com"));
     Auth.LoginBody.password := Some (JNumber 1234567%Q) |}.

Definition bob : Auth.RegisterBody.t :=
  AccountSpec.registration (list_ascii_of_string "Bob@Example.com")
    (list_ascii_of_string "bobs password") (list_ascii_of_string "Bob").




(** A process that has just started, so that its mirror is empty, while the
    file holds Alice; the first reading of the file fails. *)
Definition unreadable : World :=
  {| usersFile := Present (Encodes (UArray [alice])); sessionsFile := Absent;
     inMemoryUsers := UArray []; clock := 1700000001000;
     later := [1700000001000%N; 1700000001001%N; 1700000001002%N]; entropy := 3;
     remote := FetchRejects (Error []);
     faults := [NoFault; IOError] |}.

End AccountExamples.

Module RemoteSpec.
Import AIService.

(** The text at [result[0].summary_text], when there is one and it is truthy. *)
Definition summaryText (result : json) : option json :=
  match getFirst result with
  | Normal first =>
      match getNamedOptional first (str "summary_text") with
      | Some v => if truthyJson v then Some v else None
      | None => None
      end
  | Throw _ => None
  end.

(** The ways in which the remote call fails: [fetch] rejects; the status is
    not a success; the body does not decode; the decoded payload has an
    [error] property that is set, that is, truthy as [if (result.error)]
    tests it; the payload has no text at [result[0].summary_text]. *)
Inductive remoteFailure : fetched -> Prop :=
| fetch_rejected e :
    remoteFailure (FetchRejects e)
| status_not_ok status body :
    responseOk status = false -> remoteFailure (FetchResponse status body)
| body_not_json status :
    remoteFailure (FetchResponse status None)
| error_field status result e :
    getNamed result (str "error") = Normal (Some e) -> truthyJson e = true ->
    remoteFailure (FetchResponse status (Some result))
| output_missing status result :
    summaryText result = None ->
    remoteFailure (FetchResponse status (Some result)).

Definition fallback (text : jsstring) : completion json :=
  Normal (JString (generateSmartSummary text)).

(** The service answers 503 while the model loads. *)
Definition modelLoading : fetched :=
  FetchResponse 503
    (Some (JObject [ (str "error",
                      JString (str "Model facebook/bart-large-cnn is currently loading"));
                     (str "estimated_time", JNumber 20) ])).

End RemoteSpec.

Module DeterminismSpec.
Import Study.

(** The quiz among the results of one request served in world [w]. *)
Definition quizIn (text : jsstring) (features : list jsstring) (w : World)
  : option (list AIService.QuizQuestion.t) :=
  match fst (generateAIResults text features w) with
  | Normal results => Results.quiz results
  | Throw _ => None
  end.

(** The summary among the results of one request served in world [w]. *)
Definition summaryIn (text : jsstring) (features : list jsstring) (w : World)
  : option json :=
  match fst (generateAIResults text features w) with
  | Normal results => Results.summary results
  | Throw _ => None
  end.

(** Two processes that differ in what the inference service answers. *)
Definition offline : World :=
  {| usersFile := Absent; sessionsFile := Absent; inMemoryUsers := UArray [];
     clock := 1700000000000; later := []; entropy := 0;
     remote := FetchRejects (Error []); faults := [] |}.

Definition online : World :=
  {| usersFile := Absent; sessionsFile := Absent; inMemoryUsers := UArray [];
     clock := 1700000005000; later := [1700000005003%N]; entropy := 9;
     remote := FetchResponse 200
                 (Some (JArray [ JObject [ (str "summary_text",
                                            JString (str "Machines learn.")) ] ]));
     faults := [IOError] |}.

(** The quiz that an answer of [/process] carries. *)
Definition answeredQuiz (r : studyResponse) : option json :=
  match studyBody r with
  | Generated _ _ results => getNamedOptional (Some results) (str "quiz")
  | StudyFailure _ => None
  end.

End DeterminismSpec.

Module Binary64.
Import AIService.

(** The rational denoted by a primitive double, to compare the rounded
    rationals of [Number] with the kernel's binary64 arithmetic. *)
Definition ofFloat (f : float) : Q :=
  match Prim2SF f with
  | S754_finite s m e =>
      Qred ((if s then -1 else 1) * inject_Z (Zpos m) * Number.pow2 e)%Q
  | _ => 0%Q
  end.

Definition floatOfZ (z : Z) : float :=
  if (z <? 0)%Z then PrimFloat.opp (PrimFloat.of_uint63 (Uint63.of_Z (- z)))
  else PrimFloat.of_uint63 (Uint63.of_Z z).

(** The numeric core of [scoreOf]. *)
Definition sentenceScore (len : nat) (keywords definition : bool) (index : nat)
  : Number.number :=
  let score0 := 0%Q in
  let score1 :=
    Number.add score0
      (Number.min (Number.div (Number.ofNat len) (Number.ofNat 50)) (Number.ofNat 3)) in
  let score2 := if keywords then Number.add score1 (Number.ofNat 2) else score1 in
  let score3 := if definition then Number.add score2 (Number.ofNat 2) else score2 in
  Number.add score3
    (Number.max (Number.ofNat 0)
                (Number.div (Number.ofZ (10 - Z.of_nat index)) (Number.ofNat 5))).

Definition primMin (x y : float) : float := if PrimFloat.leb x y then x else y.
Definition primMax (x y : float) : float := if PrimFloat.leb x y then y else x.

(** The same computation on the kernel's doubles. *)
Definition primScore (len : nat) (keywords definition : bool) (index : nat) : float :=
  let num n := Binary64.floatOfZ (Z.of_nat n) in
  let score0 := num 0 in
  let score1 := PrimFloat.add score0 (primMin (PrimFloat.div (num len) (num 50)) (num 3)) in
  let score2 := if keywords then PrimFloat.add score1 (num 2) else score1 in
  let score3 := if definition then PrimFloat.add score2 (num 2) else score2 in
  PrimFloat.add score3
    (primMax (num 0) (PrimFloat.div (Binary64.floatOfZ (10 - Z.of_nat index)) (num 5))).

Definition primSign (x : float) : comparison :=
  match PrimFloat.compare x (Binary64.floatOfZ 0) with
  | FLt => Lt
  | FGt => Gt
  | _ => Eq
  end.

Definition flags : list (bool * bool) :=
  [(false, false); (false, true); (true, false); (true, true)].

Definition scoresAgree (len index : nat) : bool :=
  forallb (fun '(k, d) =>
             Qeq_bool (sentenceScore len k d index) (Binary64.ofFloat (primScore len k d index)))
          flags.

Definition grid (lens indexes : list nat) : list (nat * nat * bool * bool) :=
  flat_map (fun len =>
    flat_map (fun index => map (fun '(k, d) => (len, index, k, d)) flags) indexes) lens.

(** Both scores of every point of a grid. *)
Definition bothScores (points : list (nat * nat * bool * bool))
  : list (Number.number * float) :=
  map (fun '(len, index, k, d) => (sentenceScore len k d index, primScore len k d index))
      points.

Definition signsAgree (a b : Number.number * float) : bool :=
  match Number.sign (Number.sub (fst b) (fst a)),
        primSign (PrimFloat.sub (snd b) (snd a)) with
  | Lt, Lt | Eq, Eq | Gt, Gt => true
  | _, _ => false
  end.

End Binary64.

Module ScoreSpec.
Open Scope Q_scope.

(** Half a unit in the last place of 1. *)
Definition u : Q := 1 # 9007199254740992.

(** The score as the specification writes it, in exact arithmetic. *)
Definition exactScore (len : nat) (keywords definition : bool) (index : nat) : Q :=
  Number.min (Number.ofNat len / 50) 3
  + (if keywords then 2 else 0)
  + (if definition then 2 else 0)
  + Number.max 0 (Number.ofZ (10 - Z.of_nat index) / 5).

End ScoreSpec.

Definition sampleText : jsstring :=
  AIService.str "Machine learning is important. It uses algorithms. Neural networks are key.".

(** Eight long tokens that end in a comma come first; four alphabetic ones
    follow them. *)
Definition crowdedText : jsstring :=
  AIService.str
    ("Photosynthesis, chlorophyll, sunlight, nutrients, molecules, membrane, bacteria, "
     ++ "hydrogen, feed the chloroplast organelles through thylakoid membranes").

(** ** The vocabulary of the further properties *)

Module TopicSpec.
Import AIService.

(** A cleaned word counts towards the topic when it has more than 4
    characters and is no common word. *)
Definition qualifies (cleanWord : jsstring) : bool :=
  (4 <? length cleanWord) && negb (arrayIncludes commonTopicWords cleanWord).

(** The words of the text that count, cleaned, with their repetitions. *)
Definition topicWords (text : jsstring) : list jsstring :=
  filter qualifies (map stripNonAlnum (splitWords (toLowerCase text))).

(** How often [w] stands in [l]. *)
Definition occurrences (w : jsstring) (l : list jsstring) : nat :=
  length (filter (eqb_str w) l).

End TopicSpec.

Module CardSpec.
Import AIService.

(** The card of the step at [index]. *)
Definition stepCard (step : jsstring) (index : nat) : Flashcard.t :=
  {| Flashcard.front := str "Step " ++ natToString (index + 1); Flashcard.back := step |}.

(** The sentences among which a term looks for its context. *)
Definition contextSentences (text : jsstring) : list jsstring :=
  filter (fun s => 10 <? length (trim s)) (splitSentences text).

(** The key point that the sentence at [index] makes. *)
Definition pointOf (sentence : jsstring) (index : nat) : KeyPoint.t :=
  {| KeyPoint.id := index + 1; KeyPoint.point := trim sentence ++ str "." |}.

End CardSpec.

Module IndicatorSpec.

(** The words that the three tests look for. *)
Definition importantKeywords : list jsstring :=
  map list_ascii_of_string ["important"; "key"; "main"; "primary"; "essential"; "crucial";
                            "significant"; "major"].

Definition definitionIndicators : list jsstring :=
  map list_ascii_of_string ["is defined as"; "means that"; "refers to"; "is called";
                            "known as"].

Definition processIndicators : list jsstring :=
  map list_ascii_of_string ["process"; "step"; "stage"; "phase"; "cycle"; "method";
                            "procedure"].

(** [sub] occurs in [s]. *)
Definition occursIn (sub s : jsstring) : Prop :=
  exists before after, s = before ++ sub ++ after.

End IndicatorSpec.

Module StoreSpec.

(** The world with another users file and another mirror. *)
Definition stored (w : World) (f : file usersValue) (mirror : usersValue) : World :=
  {| usersFile := f; sessionsFile := sessionsFile w; inMemoryUsers := mirror;
     clock := clock w; later := later w; entropy := entropy w; remote := remote w;
     faults := faults w |}.

(** No two accounts share an address. *)
Definition uniqueEmails (users : list User.t) : Prop := NoDup (map User.email users).

(** What a login leaves alone in an account: everything but [lastLogin]. *)
Definition kept (u : User.t) : jsstring * jsstring * jsstring * jsstring * N :=
  (User.id u, User.email u, User.password u, User.name u, User.createdAt u).

(** The library accepts the password that it hashed. *)
Definition hashesVerify `{Crypto} : Prop :=
  forall password rounds salt, bcryptCompare password (bcryptHash password rounds salt) = true.

End StoreSpec.

Module GateSpec.

(** A stand-in for [jsonwebtoken.verify] that accepts the tokens of
    [AccountExamples.plainCrypto], whatever the time. *)
#[global] Instance plainJwt : Jwt :=
  {| jwtVerify := fun token now =>
       if startsWith token (list_ascii_of_string "jwt.")
       then match splitOn "." (skipn 4 token) with
            | userId :: email =>
                Some {| Identity.userId := userId;
                        Identity.email := join (list_ascii_of_string ".") email |}
            | [] => None
            end
       else None |}.

Definition aliceToken : jsstring :=
  list_ascii_of_string "jwt.1700000000000.alice@example.com".

End GateSpec.

Module StudySpec.
Import Study.

(** The session that a request stores when it starts to build it in world
    [w]: the identifier comes from one reading of the clock and the time
    stamp from the next, and the results are in the form in which they are
    written. *)
Definition sessionFor (userId text : jsstring) (features : list jsstring)
  (results : Results.t) (inputType : jsstring) (fileName : option jsstring) (w : World)
  : Session.t :=
  {| Session.id := timeToString (reading 0 w);
     Session.userId := userId;
     Session.originalText := firstn 150 text ++ (if 150 <? length text then str "..." else []);
     Session.fullTextLength := length text;
     Session.results := resultsJSON results;
     Session.features := features;
     Session.timestamp := reading 1 w;
     Session.wordCount := length (splitWords text);
     Session.inputType := inputType;
     Session.fileName := fileName |}.

(** The answer to a text that is missing or too short. *)
Definition tooShort : studyResponse :=
  {| studyStatus := 400;
     studyBody := StudyFailure (str "Please provide at least 30 characters of text") |}.

(** A process whose file of sessions holds an object. *)
Definition objectStore : World :=
  {| usersFile := Absent; sessionsFile := Present (Encodes SNotArray);
     inMemoryUsers := UArray []; clock := 1700000000000; later := [1700000000002%N];
     entropy := 0; remote := FetchRejects (Error []); faults := [] |}.

End StudySpec.

Module UploadSpec.
Import Study Queries.

(** The two sentences that stand in for the text of an upload. *)
Definition sampleExtract (name : jsstring) : jsstring :=
  str "Content extracted from " ++ name
  ++ str ". This is sample extracted text that would normally come from the file.".

Definition genericExtract (name : jsstring) : jsstring :=
  str "Content from " ++ name
  ++ str ". This would be processed text from the uploaded file.".

Definition wordDocument : jsstring :=
  str "application/vnd.openxmlformats-officedocument.wordprocessingml.document".

(** The same upload with another content. *)
Definition withContent (file : Upload.t) (content : jsstring) : Upload.t :=
  {| Upload.path := Upload.path file; Upload.mimetype := Upload.mimetype file;
     Upload.originalname := Upload.originalname file; Upload.content := content |}.

Definition lecture : Upload.t :=
  {| Upload.path := str "uploads/file-1700000000000-1.mp3";
     Upload.mimetype := str "audio/mpeg";
     Upload.originalname := str "lecture.mp3";
     Upload.content := str "ID3 binary audio data" |}.


End UploadSpec.

Module QuerySpec.
Import Study Queries.

(** The sessions of [userId] among [l], in the order of [l]. *)
Definition own (userId : jsstring) (l : list Session.t) : list Session.t :=
  filter (ownedBy userId) l.

(** A feature name that is no property of [Object.prototype]. *)
Definition plainFeature (k : jsstring) : Prop := inheritedText k = None.

(** A stored session, for the examples. *)
Definition sessionOf (userId id : string) (words : nat) (features : list string)
  (inputType : string) : Session.t :=
  {| Session.id := str id; Session.userId := str userId;
     Session.originalText := str "Some study text."; Session.fullTextLength := 16;
     Session.results := JObject []; Session.features := map str features;
     Session.timestamp := 1700000000000; Session.wordCount := words;
     Session.inputType := str inputType; Session.fileName := None |}.

Definition annSessions : list Session.t :=
  [ sessionOf "ann" "1700000000003" 7 ["quiz"; "summary"] "text";
    sessionOf "ann" "1700000000001" 4 ["quiz"] "file" ].

(** Two stores in which Ann has the same sessions and Ben has not. *)
Definition storeA : World :=
  {| usersFile := Absent;
     sessionsFile := Present (Encodes (SArray
       (sessionOf "ben" "1700000000004" 100 ["flashcards"] "text" :: annSessions)));
     inMemoryUsers := UArray []; clock := 1700000000005; later := []; entropy := 0;
     remote := FetchRejects (Error []); faults := [] |}.

Definition storeB : World :=
  {| usersFile := Absent;
     sessionsFile := Present (Encodes (SArray
       (annSessions ++ [sessionOf "ben" "1700000000000" 1 ["keyPoints"] "file"])));
     inMemoryUsers := UArray []; clock := 1700000000009; later := []; entropy := 0;
     remote := FetchRejects (Error []); faults := [] |}.

End QuerySpec.

(* ================================================================== *)
(** * Proofs                                                            *)
(* ================================================================== *)

(** ** The embedding at work *)

Example split_examples :
  splitSentences "a..b" = [ "a" : jsstring; "b" : jsstring ]
  /\ splitSentences ".a." = [ [] ; "a" : jsstring; [] ]
  /\ splitSentences "" = [ [] ]
  /\ splitWords " a  b " = [ []; "a" : jsstring; "b" : jsstring; [] ]
  /\ trim "  a b  " = ("a b" : jsstring)
  /\ includes "The Key idea" "Key" = true
  /\ toLowerCase "The KEY" = ("the key" : jsstring).
Proof. repeat split; reflexivity. Qed.

Example fl_agrees_with_primitive_doubles :
  Number.add (Number.div (Number.ofNat 20) (Number.ofNat 50)) (Number.div (Number.ofZ 1) (Number.ofNat 5))
  = Binary64.ofFloat (PrimFloat.add (PrimFloat.div (Binary64.floatOfZ 20) (Binary64.floatOfZ 50))
                                  (PrimFloat.div (Binary64.floatOfZ 1) (Binary64.floatOfZ 5))).
Proof. vm_compute. reflexivity. Qed.

Module NumberFacts.
Import Number.
Open Scope Q_scope.

Lemma pow2_pos z : 0 < pow2 z.
Proof. apply Qpower_0_lt. reflexivity. Qed.

Lemma pow2_of_nonneg z : (0 <= z)%Z -> pow2 z == inject_Z (2 ^ z).
Proof. intro Hz. unfold pow2. rewrite Zpower_Qpower by exact Hz. reflexivity. Qed.

Lemma pow2_sub a b : pow2 (a - b) == pow2 a / pow2 b.
Proof.
  unfold pow2, Qdiv, Z.sub.
  rewrite Qpower_plus by discriminate.
  rewrite Qpower_opp. reflexivity.
Qed.

Lemma inject_Z_pos z : (0 < z)%Z -> 0 < inject_Z z.
Proof. intro Hz. unfold Qlt. simpl. lia. Qed.

Lemma rne_ge_floor s : (Qfloor s <= rne s)%Z.
Proof.
  unfold rne. destruct (Qcompare _ _); try destruct (Z.even _); lia.
Qed.

Lemma log_quotient_bound (n : Z) (d : positive) :
  (0 < n)%Z -> pow2 (Z.log2 n - Z.log2 (Zpos d) - 1) <= n # d.
Proof.
  intro Hn.
  replace (Z.log2 n - Z.log2 (Zpos d) - 1)%Z
    with (Z.log2 n - Z.succ (Z.log2 (Zpos d)))%Z by lia.
  rewrite pow2_sub.
  pose proof (Z.log2_nonneg n) as Ha.
  pose proof (Z.log2_nonneg (Zpos d)) as Hb.
  rewrite !pow2_of_nonneg by lia.
  destruct (Z.log2_spec n Hn) as [HA _].
  destruct (Z.log2_spec (Zpos d) eq_refl) as [_ HB].
  assert (HBpos : (0 < 2 ^ Z.succ (Z.log2 (Z.pos d)))%Z) by (apply Z.pow_pos_nonneg; lia).
  rewrite Qmake_Qdiv.
  apply Qle_shift_div_l; [ apply inject_Z_pos; lia | ].
  unfold Qdiv. rewrite <- Qmult_assoc, (Qmult_comm (/ _)), Qmult_assoc.
  apply Qle_shift_div_r; [ apply inject_Z_pos; lia | ].
  rewrite <- !inject_Z_mult, <- Zle_Qle.
  apply Z.mul_le_mono_nonneg; lia.
Qed.

Lemma ilog2_le q : 0 < q -> pow2 (ilog2 q) <= q.
Proof.
  intro Hq. unfold ilog2.
  destruct (Qle_bool _ q) eqn:E.
  - apply Qle_bool_iff. exact E.
  - destruct q as [n d]. simpl Qnum. simpl Qden.
    apply log_quotient_bound.
    unfold Qlt in Hq. simpl in Hq. lia.
Qed.

Lemma fl_pos_positive q : 0 < q -> 0 < fl_pos q.
Proof.
  intro Hq. unfold fl_pos.
  rewrite Qred_correct.
  apply Qmult_lt_0_compat; [ | apply pow2_pos ].
  apply inject_Z_pos.
  apply Z.lt_le_trans with (Qfloor (q * pow2 (52 - ilog2 q))); [ | apply rne_ge_floor ].
  apply Z.lt_le_trans with (Qfloor 1); [ reflexivity | ].
  apply Qfloor_resp_le.
  rewrite pow2_sub.
  unfold Qdiv. rewrite Qmult_assoc.
  apply Qle_shift_div_l; [ apply pow2_pos | ].
  rewrite Qmult_1_l.
  apply Qle_trans with q; [ apply ilog2_le; exact Hq | ].
  rewrite <- (Qmult_1_r q) at 1.
  apply Qmult_le_l; [ exact Hq | ].
  discriminate.
Qed.

Lemma fl_sign q : Qcompare (fl q) 0 = Qcompare q 0.
Proof.
  unfold fl.
  destruct (Qcompare_spec q 0) as [E | L | G].
  - reflexivity.
  - apply Qlt_alt.
    assert (0 < - q) as Hn.
    { apply Qopp_lt_compat in L. exact L. }
    apply fl_pos_positive in Hn.
    apply Qopp_lt_compat in Hn. exact Hn.
  - apply Qgt_alt. apply fl_pos_positive. exact G.
Qed.

Lemma sign_sub x y : sign (sub x y) = Qcompare x y.
Proof.
  unfold sign, sub. rewrite fl_sign.
  destruct (Qcompare_spec x y) as [E | L | G].
  - apply Qeq_alt. rewrite E. ring.
  - apply Qlt_alt. apply Qlt_minus_iff in L. 
    apply Qopp_lt_compat in L.
    setoid_replace (x - y) with (- (y + - x)) by ring. exact L.
  - apply Qgt_alt. apply Qlt_minus_iff in G. exact G.
Qed.

End NumberFacts.

Module RoundingFacts.
Import Number NumberFacts ScoreSpec.
Open Scope Q_scope.

Lemma rne_near s : inject_Z (rne s) - s <= 1 # 2 /\ s - inject_Z (rne s) <= 1 # 2.
Proof.
  unfold rne.
  pose proof (Qfloor_le s) as Hlo. pose proof (Qlt_floor s) as Hhi.
  rewrite inject_Z_plus in Hhi. change (inject_Z 1) with 1 in Hhi.
  destruct (Qcompare_spec (s - inject_Z (Qfloor s)) (1 # 2)) as [E | L | G];
    [ destruct (Z.even (Qfloor s)) | | ];
    rewrite ?inject_Z_plus; change (inject_Z 1) with 1; lra.
Qed.

Lemma pow2_cancel a : pow2 a * pow2 (- a) == 1.
Proof.
  unfold pow2. rewrite <- Qpower_plus by discriminate.
  replace (a + - a)%Z with 0%Z by lia. reflexivity.
Qed.

Lemma pow2_half z : pow2 (z - 52) == pow2 z * (2 * u) .
Proof.
  unfold pow2, Z.sub. rewrite Qpower_plus by discriminate.
  apply Qmult_comp; [ reflexivity | ]. vm_compute. reflexivity.
Qed.

(** On a positive number, rounding moves by at most the fraction [u]. *)
Lemma fl_pos_near q : 0 < q -> fl_pos q - q <= q * u /\ q - fl_pos q <= q * u.
Proof.
  intro Hq. unfold fl_pos. rewrite Qred_correct.
  set (e := ilog2 q).
  set (s := q * pow2 (52 - e)).
  assert (Hs : q == s * pow2 (e - 52)).
  { unfold s. rewrite <- Qmult_assoc.
    replace (e - 52)%Z with (- (52 - e))%Z by lia.
    rewrite pow2_cancel. ring. }
  pose proof (rne_near s) as [H1 H2].
  pose proof (pow2_pos (e - 52)) as Hp.
  pose proof (ilog2_le Hq) as He. fold e in He.
  pose proof (pow2_half e) as Hh.
  assert (Hb : pow2 (e - 52) * (1 # 2) <= q * u).
  { rewrite Hh. setoid_replace (pow2 e * (2 * u) * (1 # 2)) with (pow2 e * u) by ring.
    apply Qmult_le_compat_r; [ exact He | discriminate ]. }
  split.
  - setoid_replace (inject_Z (rne s) * pow2 (e - 52) - q)
      with ((inject_Z (rne s) - s) * pow2 (e - 52)) by (rewrite Hs at 1; ring).
    apply Qle_trans with ((1 # 2) * pow2 (e - 52)); [ | rewrite Qmult_comm; exact Hb ].
    apply Qmult_le_compat_r; [ exact H1 | apply Qlt_le_weak; exact Hp ].
  - setoid_replace (q - inject_Z (rne s) * pow2 (e - 52))
      with ((s - inject_Z (rne s)) * pow2 (e - 52)) by (rewrite Hs at 1; ring).
    apply Qle_trans with ((1 # 2) * pow2 (e - 52)); [ | rewrite Qmult_comm; exact Hb ].
    apply Qmult_le_compat_r; [ exact H2 | apply Qlt_le_weak; exact Hp ].
Qed.

Lemma fl_near_nonneg q : 0 <= q -> fl q - q <= q * u /\ q - fl q <= q * u /\ 0 <= fl q.
Proof.
  intro Hq. unfold fl.
  destruct (Qcompare_spec q 0) as [E | L | G].
  - rewrite E. repeat split; vm_compute; discriminate.
  - lra.
  - pose proof (fl_pos_near G) as [H1 H2]. pose proof (fl_pos_positive G).
    repeat split; lra.
Qed.

Lemma fl_negative q : q < 0 -> fl q < 0.
Proof.
  intro Hq. apply Qlt_alt. rewrite fl_sign. apply Qlt_alt. exact Hq.
Qed.

End RoundingFacts.

Module ScoreFacts.
Import Number NumberFacts RoundingFacts ScoreSpec.
Open Scope Q_scope.

Lemma min_cases x y : (x <= y /\ Number.min x y = x) \/ (y < x /\ Number.min x y = y).
Proof.
  unfold Number.min. destruct (Qle_bool x y) eqn:E.
  - left. split; [ apply Qle_bool_iff; exact E | reflexivity ].
  - right. split; [ | reflexivity ].
    apply Qnot_le_lt. intro Hle. apply Qle_bool_iff in Hle. congruence.
Qed.

Lemma max_cases x y : (x <= y /\ Number.max x y = y) \/ (y < x /\ Number.max x y = x).
Proof.
  unfold Number.max. destruct (Qle_bool x y) eqn:E.
  - left. split; [ apply Qle_bool_iff; exact E | reflexivity ].
  - right. split; [ | reflexivity ].
    apply Qnot_le_lt. intro Hle. apply Qle_bool_iff in Hle. congruence.
Qed.

Lemma add_near x y :
  0 <= x + y ->
  add x y - (x + y) <= (x + y) * u /\ (x + y) - add x y <= (x + y) * u /\ 0 <= add x y.
Proof. intro Hxy. unfold add. apply fl_near_nonneg. exact Hxy. Qed.

Lemma length_part len :
  let exact := Number.min (ofNat len / 50) 3 in
  let rounded := Number.min (div (ofNat len) (ofNat 50)) (ofNat 3) in
  rounded - exact <= 3 * u /\ exact - rounded <= 3 * u /\ 0 <= rounded <= 3.
Proof.
  intros exact rounded. unfold exact, rounded, div.
  change (ofNat 50) with 50. change (ofNat 3) with 3.
  assert (Hx : 0 <= ofNat len / 50).
  { apply Qle_shift_div_l; [ reflexivity | ].
    rewrite Qmult_0_l. unfold ofNat. change 0 with (inject_Z 0).
    rewrite <- Zle_Qle. lia. }
  pose proof (fl_near_nonneg Hx) as [H1 [H2 H3]].
  destruct (min_cases (ofNat len / 50) 3) as [[Ha ->] | [Ha ->]];
    destruct (min_cases (fl (ofNat len / 50)) 3) as [[Hb ->] | [Hb ->]];
    unfold u in *; repeat split; lra.
Qed.

Lemma place_part index :
  let exact := Number.max 0 (ofZ (10 - Z.of_nat index) / 5) in
  let rounded := Number.max (ofNat 0) (div (ofZ (10 - Z.of_nat index)) (ofNat 5)) in
  rounded - exact <= 2 * u /\ exact - rounded <= 2 * u /\ 0 <= rounded <= 2 + 2 * u.
Proof.
  intros exact rounded. unfold exact, rounded, div.
  change (ofNat 5) with 5. change (ofNat 0) with 0.
  set (y := ofZ (10 - Z.of_nat index) / 5).
  assert (Hy : y <= 2).
  { unfold y. apply Qle_shift_div_r; [ reflexivity | ].
    unfold ofZ. change (2 * 5) with (inject_Z 10). rewrite <- Zle_Qle. lia. }
  destruct (Qlt_le_dec y 0) as [Hneg | Hpos].
  - pose proof (fl_negative Hneg) as Hf.
    destruct (max_cases 0 y) as [[Ha ->] | [Ha ->]];
      destruct (max_cases 0 (fl y)) as [[Hb ->] | [Hb ->]];
      unfold u in *; repeat split; lra.
  - pose proof (fl_near_nonneg Hpos) as [H1 [H2 H3]].
    destruct (max_cases 0 y) as [[Ha ->] | [Ha ->]];
      destruct (max_cases 0 (fl y)) as [[Hb ->] | [Hb ->]];
      unfold u in *; repeat split; lra.
Qed.

(** The score in doubles is within [2^-48] of the exact value of the formula. *)
Lemma score_near_formula len keywords definition index :
  let rounded := Binary64.sentenceScore len keywords definition index in
  let exact := exactScore len keywords definition index in
  rounded - exact <= 32 * u /\ exact - rounded <= 32 * u.
Proof.
  intros rounded exact. unfold rounded, exact, Binary64.sentenceScore, exactScore.
  pose proof (length_part len) as [L1 [L2 [L3 L4]]]. cbv zeta in L1, L2, L3, L4.
  pose proof (place_part index) as [P1 [P2 [P3 P4]]]. cbv zeta in P1, P2, P3, P4.
  set (b := Number.min (div (ofNat len) (ofNat 50)) (ofNat 3)) in *.
  set (bx := Number.min (ofNat len / 50) 3) in *.
  set (c := Number.max (ofNat 0) (div (ofZ (10 - Z.of_nat index)) (ofNat 5))) in *.
  set (cx := Number.max 0 (ofZ (10 - Z.of_nat index) / 5)) in *.
  cbv zeta.
  assert (H0 : 0 <= 0 + b) by lra.
  pose proof (@add_near 0 b H0) as [A1 [A2 A3]].
  set (s1 := add 0 b) in *.
  change (ofNat 2) with 2.
  assert (S2 : exists s2, (if keywords then add s1 2 else s1) = s2
                          /\ s2 - (s1 + (if keywords then 2 else 0)) <= 6 * u
                          /\ (s1 + (if keywords then 2 else 0)) - s2 <= 6 * u
                          /\ 0 <= s2).
  { destruct keywords.
    - assert (H2 : 0 <= s1 + 2) by lra.
      pose proof (@add_near s1 2 H2) as [B1 [B2 B3]].
      eexists. split; [ reflexivity | ]. unfold u in *. repeat split; lra.
    - eexists. split; [ reflexivity | ]. unfold u in *. repeat split; lra. }
  destruct S2 as [s2 [-> [B1 [B2 B3]]]].
  assert (S3 : exists s3, (if definition then add s2 2 else s2) = s3
                          /\ s3 - (s2 + (if definition then 2 else 0)) <= 8 * u
                          /\ (s2 + (if definition then 2 else 0)) - s3 <= 8 * u
                          /\ 0 <= s3).
  { destruct definition.
    - assert (H2 : 0 <= s2 + 2) by lra.
      pose proof (@add_near s2 2 H2) as [C1 [C2 C3]].
      eexists. split; [ reflexivity | ].
      destruct keywords; unfold u in *; repeat split; lra.
    - eexists. split; [ reflexivity | ]. unfold u in *. repeat split; lra. }
  destruct S3 as [s3 [-> [C1 [C2 C3]]]].
  assert (H4 : 0 <= s3 + c) by lra.
  pose proof (@add_near s3 c H4) as [D1 [D2 D3]].
  destruct keywords, definition; unfold u in *; split; lra.
Qed.

End ScoreFacts.

(** ** Facts about [sort] and the list helpers *)

Section SortFacts.
Context {A : Type}.
Variable cmp : A -> A -> comparison.

Lemma insert_sorted_perm x l : Permutation (insert_sorted cmp x l) (x :: l).
Proof.
  induction l as [| y t IH]; simpl.
  - apply Permutation_refl.
  - destruct (cmp x y); try apply Permutation_refl.
    apply perm_trans with (y :: x :: t).
    + apply perm_skip. exact IH.
    + apply perm_swap.
Qed.

Lemma sort_perm l : Permutation (sort cmp l) l.
Proof.
  induction l as [| x t IH]; simpl.
  - apply perm_nil.
  - apply perm_trans with (x :: sort cmp t).
    + apply insert_sorted_perm.
    + apply perm_skip. exact IH.
Qed.

Lemma sort_length l : length (sort cmp l) = length l.
Proof. apply Permutation_length, sort_perm. Qed.

Lemma sort_In x l : In x (sort cmp l) <-> In x l.
Proof.
  split; apply Permutation_in.
  - apply sort_perm.
  - apply Permutation_sym, sort_perm.
Qed.

Hypothesis cmp_total : forall a b, cmp a b = Gt -> precedes cmp b a.
Hypothesis cmp_trans : forall a b c, precedes cmp a b -> precedes cmp b c -> precedes cmp a c.

Lemma insert_sorted_sorted x l :
  StronglySorted (precedes cmp) l -> StronglySorted (precedes cmp) (insert_sorted cmp x l).
Proof.
  induction 1 as [| y t Hs IH Hy]; simpl.
  - constructor; constructor.
  - destruct (cmp x y) eqn:E.
    + constructor; [ constructor; assumption | ].
      constructor; [ unfold precedes; congruence | ].
      eapply Forall_impl; [ | exact Hy ].
      intros z Hz. apply cmp_trans with y; [ unfold precedes; congruence | exact Hz ].
    + constructor; [ constructor; assumption | ].
      constructor; [ unfold precedes; congruence | ].
      eapply Forall_impl; [ | exact Hy ].
      intros z Hz. apply cmp_trans with y; [ unfold precedes; congruence | exact Hz ].
    + constructor; [ exact IH | ].
      apply Forall_forall. intros z Hz.
      apply (Permutation_in _ (insert_sorted_perm x t)) in Hz.
      destruct Hz as [<- | Hz].
      * apply cmp_total. exact E.
      * rewrite Forall_forall in Hy. apply Hy. exact Hz.
Qed.

Lemma sort_sorted l : StronglySorted (precedes cmp) (sort cmp l).
Proof.
  induction l as [| x t IH]; simpl.
  - constructor.
  - apply insert_sorted_sorted. exact IH.
Qed.

End SortFacts.

Section ListFacts.
Context {A : Type}.

Lemma In_firstn (x : A) n l : In x (firstn n l) -> In x l.
Proof.
  revert n. induction l as [| y t IH]; intros [| n]; simpl; try tauto.
  intros [-> | Hx]; [ left; reflexivity | right; eapply IH; exact Hx ].
Qed.

Lemma In_skipn (x : A) n l : In x (skipn n l) -> In x l.
Proof.
  revert n. induction l as [| y t IH]; intros [| n]; simpl; try tauto.
  intro Hx. right. eapply IH. exact Hx.
Qed.

Lemma sorted_weaken (R R' : A -> A -> Prop) l :
  (forall a b, R a b -> R' a b) -> StronglySorted R l -> StronglySorted R' l.
Proof.
  intros Himp Hs. induction Hs as [| x t Hs IH Hx]; constructor.
  - exact IH.
  - eapply Forall_impl; [ | exact Hx ]. intros y Hy. apply Himp. exact Hy.
Qed.

(** In a sorted list every element of a prefix stands before every element
    of the rest. *)
Lemma sorted_prefix_before_rest (R : A -> A -> Prop) n l a b :
  StronglySorted R l -> In a (firstn n l) -> In b (skipn n l) -> R a b.
Proof.
  intro Hs. revert n.
  induction Hs as [| x t Hs IH Hx]; intros [| n]; simpl; try tauto.
  intros [<- | Ha] Hb.
  - rewrite Forall_forall in Hx. apply Hx. eapply In_skipn. exact Hb.
  - eapply IH; eassumption.
Qed.

Lemma nth_error_mapi_from {B} (f : A -> nat -> B) l i k :
  nth_error (mapi_from i f l) k = option_map (fun x => f x (i + k)) (nth_error l k).
Proof.
  revert i k. induction l as [| x t IH]; intros i [| k]; simpl; try reflexivity.
  - rewrite Nat.add_0_r. reflexivity.
  - rewrite IH. replace (S i + k) with (i + S k) by lia. reflexivity.
Qed.

Lemma nth_error_mapi {B} (f : A -> nat -> B) l k :
  nth_error (mapi f l) k = option_map (fun x => f x k) (nth_error l k).
Proof. unfold mapi. rewrite nth_error_mapi_from. reflexivity. Qed.

Lemma length_mapi_from {B} (f : A -> nat -> B) l i : length (mapi_from i f l) = length l.
Proof. revert i. induction l as [| x t IH]; intros i; simpl; [ | rewrite IH ]; reflexivity. Qed.

Lemma length_mapi {B} (f : A -> nat -> B) l : length (mapi f l) = length l.
Proof. apply length_mapi_from. Qed.

Lemma In_mapi {B} (f : A -> nat -> B) l y :
  In y (mapi f l) -> exists k x, nth_error l k = Some x /\ y = f x k.
Proof.
  intro Hy. apply In_nth_error in Hy. destruct Hy as [k Hk].
  rewrite nth_error_mapi in Hk.
  destruct (nth_error l k) as [x |] eqn:E; simpl in Hk; [ | discriminate ].
  exists k, x. split; [ exact E | congruence ].
Qed.

End ListFacts.

(** ** Selecting the best [k] and putting them back in order *)

Section TopSelection.
Context {A : Type}.
Variable rank : A -> A -> comparison.
Variable pos : A -> nat.

Hypothesis rank_total : forall a b, rank a b = Gt -> precedes rank b a.
Hypothesis rank_trans :
  forall a b c, precedes rank a b -> precedes rank b c -> precedes rank a c.

Lemma byPosition_precedes a b : precedes (byPosition pos) a b <-> pos a <= pos b.
Proof.
  unfold precedes, byPosition, signZ.
  destruct (Z.compare_spec (Z.of_nat (pos a) - Z.of_nat (pos b)) 0); split; intro;
    try congruence; try lia.
Qed.

Lemma selected_In k l c : In c (selected rank pos k l) -> In c l.
Proof.
  unfold selected, slice0. intro Hc.
  apply sort_In in Hc. apply In_firstn in Hc. apply sort_In in Hc. exact Hc.
Qed.

Lemma selected_length k l : length (selected rank pos k l) = Nat.min k (length l).
Proof.
  unfold selected, slice0. rewrite sort_length, length_firstn, sort_length. reflexivity.
Qed.

Lemma selected_beats_rest k l c r :
  In c (selected rank pos k l) -> In r l -> ~ In r (selected rank pos k l) -> precedes rank c r.
Proof.
  unfold selected, slice0. intros Hc Hr Hnot.
  apply sort_In in Hc.
  apply (sorted_prefix_before_rest k (l := sort rank l)).
  - apply sort_sorted; assumption.
  - exact Hc.
  - apply (sort_In rank) in Hr.
    rewrite <- (firstn_skipn k (sort rank l)) in Hr.
    apply in_app_or in Hr. destruct Hr as [Hr | Hr]; [ | exact Hr ].
    exfalso. apply Hnot. apply sort_In. exact Hr.
Qed.

Lemma selected_in_order k l :
  StronglySorted (fun a b => pos a <= pos b) (selected rank pos k l).
Proof.
  unfold selected.
  apply (sorted_weaken (R := precedes (byPosition pos))).
  - intros a b Hab. apply byPosition_precedes. exact Hab.
  - apply sort_sorted.
    + intros a b E. apply byPosition_precedes.
      unfold byPosition, signZ in E. apply Z.compare_gt_iff in E. lia.
    + intros a b c Hab Hbc. apply byPosition_precedes.
      apply byPosition_precedes in Hab, Hbc. lia.
Qed.

Lemma selected_positions_distinct k l :
  NoDup (map pos l) -> NoDup (map pos (selected rank pos k l)).
Proof.
  unfold selected, slice0. intro Hl.
  apply (Permutation_NoDup (l := map pos (firstn k (sort rank l)))).
  - apply Permutation_map, Permutation_sym, sort_perm.
  - assert (Hs : NoDup (map pos (sort rank l))).
    { apply (Permutation_NoDup (l := map pos l)); [ | exact Hl ].
      apply Permutation_map, Permutation_sym, sort_perm. }
    rewrite <- (firstn_skipn k (sort rank l)), map_app in Hs.
    apply NoDup_app_remove_r in Hs. exact Hs.
Qed.

Lemma selected_strictly_in_order k l :
  NoDup (map pos l) ->
  StronglySorted (fun a b => pos a < pos b) (selected rank pos k l).
Proof.
  intro Hl.
  pose proof (@selected_positions_distinct k l Hl) as Hd.
  pose proof (selected_in_order k l) as Hs.
  induction Hs as [| x t Hs IH Hx]; [ constructor | ].
  simpl in Hd. inversion Hd as [| ? ? Hnotin Hd']; subst.
  constructor; [ apply IH; exact Hd' | ].
  rewrite Forall_forall in *. intros y Hy.
  specialize (Hx y Hy).
  assert (pos x <> pos y).
  { intro E. apply Hnotin. rewrite E. apply in_map. exact Hy. }
  lia.
Qed.

End TopSelection.

(** ** The fallback summary *)

Module SummaryFacts.
Import SummarySpec.
Import AIService.

Ltac order_cases a b :=
  unfold summaryOrder, ranksBefore, signZ;
  destruct (SummaryItem.hasKeywords a), (SummaryItem.hasKeywords b); simpl;
  try (destruct (Nat.eqb_spec (SummaryItem.length a) (SummaryItem.length b)); simpl);
  repeat match goal with
         | |- context [Z.compare ?x ?y] => destruct (Z.compare_spec x y)
         end.

Lemma summaryOrder_Lt a b : summaryOrder a b = Lt <-> ranksBefore a b.
Proof. order_cases a b; split; intro; try congruence; try lia; intuition (try congruence; lia). Qed.

Lemma summaryOrder_Gt a b : summaryOrder a b = Gt <-> ranksBefore b a.
Proof. order_cases a b; split; intro; try congruence; try lia; intuition (try congruence; lia). Qed.

Lemma summaryOrder_Eq a b :
  summaryOrder a b = Eq -> SummaryItem.position a = SummaryItem.position b.
Proof. order_cases a b; intro; try congruence; lia. Qed.

Lemma ranksBefore_trans a b c : ranksBefore a b -> ranksBefore b c -> ranksBefore a c.
Proof.
  unfold ranksBefore.
  destruct (SummaryItem.hasKeywords a), (SummaryItem.hasKeywords b),
    (SummaryItem.hasKeywords c); intuition (try congruence; lia).
Qed.

Lemma summaryOrder_total a b : summaryOrder a b = Gt -> precedes summaryOrder b a.
Proof.
  intros E. apply summaryOrder_Gt in E. unfold precedes.
  apply summaryOrder_Lt in E. congruence.
Qed.

Lemma summaryOrder_trans a b c :
  precedes summaryOrder a b -> precedes summaryOrder b c -> precedes summaryOrder a c.
Proof.
  unfold precedes, summaryOrder, signZ.
  destruct (SummaryItem.hasKeywords a), (SummaryItem.hasKeywords b),
    (SummaryItem.hasKeywords c); simpl; try congruence;
    repeat match goal with
           | |- context [Nat.eqb ?x ?y] => destruct (Nat.eqb_spec x y); simpl
           end;
    repeat match goal with
           | |- context [Z.compare ?x ?y] => destruct (Z.compare_spec x y)
           end;
    intros; try congruence; lia.
Qed.

Lemma summary_candidate_at text k c :
  nth_error (candidates text) k = Some c <->
  exists s, nth_error (summarySentences text) k = Some s
            /\ c = {| SummaryItem.sentence := trim s;
                      SummaryItem.length := length s;
                      SummaryItem.position := k;
                      SummaryItem.hasKeywords := hasImportantKeywords s |}.
Proof.
  unfold candidates, summaryItems. rewrite nth_error_mapi.
  destruct (nth_error (summarySentences text) k) as [s |]; simpl; split.
  - intro E. exists s. split; [ reflexivity | congruence ].
  - intros [s' [E ->]]. congruence.
  - discriminate.
  - intros [s' [E _]]. discriminate.
Qed.

Lemma summary_candidate_position text c :
  In c (candidates text) -> nth_error (candidates text) (SummaryItem.position c) = Some c.
Proof.
  intro Hc. apply In_nth_error in Hc. destruct Hc as [k Hk].
  pose proof Hk as Hk'. apply summary_candidate_at in Hk'. destruct Hk' as [s [_ ->]].
  simpl. exact Hk.
Qed.

Lemma summary_candidates_positions text :
  map SummaryItem.position (candidates text) = seq 0 (length (summarySentences text)).
Proof.
  unfold candidates, summaryItems, mapi.
  generalize 0 as i. induction (summarySentences text) as [| s t IH]; intro i; simpl.
  - reflexivity.
  - rewrite IH. reflexivity.
Qed.

End SummaryFacts.

(** C3. The fallback summary splits the text at runs of [.], [!] and [?],
    keeps the pieces whose trimmed length exceeds 10, ranks them (those with
    an important keyword first, then the longer, then the earlier), takes the
    best four, lists them in their original order, joins them with a period
    and a space, closes with a period and appends the marker. *)
Theorem fallback_summary_pipeline (text : jsstring) :
  let kept := filter (fun s => 10 <? length (trim s)) (splitSentences text) in
  let candidates := SummarySpec.candidates text in
  let chosen := SummarySpec.chosen text in
  AIService.generateSmartSummary text
    = join (AIService.str ". ") (map AIService.SummaryItem.sentence chosen)
      ++ AIService.str "." ++ AIService.str " [AI Enhanced Summary]"
  /\ (forall k c, nth_error candidates k = Some c <->
        exists s, nth_error kept k = Some s
                  /\ c = {| AIService.SummaryItem.sentence := trim s;
                            AIService.SummaryItem.length := length s;
                            AIService.SummaryItem.position := k;
                            AIService.SummaryItem.hasKeywords :=
                              AIService.hasImportantKeywords s |})
  /\ length chosen = Nat.min 4 (length kept)
  /\ (forall c, In c chosen ->
        nth_error candidates (AIService.SummaryItem.position c) = Some c)
  /\ StronglySorted (fun a b => AIService.SummaryItem.position a
                                < AIService.SummaryItem.position b) chosen
  /\ (forall c r, In c chosen -> In r candidates -> ~ In r chosen ->
        SummarySpec.ranksBefore c r).
Proof.
  intros kept candidates chosen.
  split; [ | split; [ | split; [ | split; [ | split ] ] ] ].
  - unfold AIService.generateSmartSummary, AIService.summaryMarker.
    rewrite <- app_assoc. reflexivity.
  - intros k c. apply SummaryFacts.summary_candidate_at.
  - unfold chosen, SummarySpec.chosen. rewrite selected_length.
    unfold SummarySpec.candidates, AIService.summaryItems. rewrite length_mapi.
    reflexivity.
  - intros c Hc. apply SummaryFacts.summary_candidate_position.
    eapply selected_In. exact Hc.
  - apply selected_strictly_in_order.
    unfold candidates. rewrite SummaryFacts.summary_candidates_positions. apply seq_NoDup.
  - intros c r Hc Hr Hnot.
    assert (Hle : precedes AIService.summaryOrder c r).
    { eapply selected_beats_rest; try eassumption.
      - exact SummaryFacts.summaryOrder_total.
      - exact SummaryFacts.summaryOrder_trans. }
    unfold precedes in Hle.
    destruct (AIService.summaryOrder c r) eqn:E; try congruence.
    + exfalso. apply SummaryFacts.summaryOrder_Eq in E.
      pose proof (selected_In _ _ _ _ _ Hc) as Hc'.
      apply SummaryFacts.summary_candidate_position in Hc'.
      apply SummaryFacts.summary_candidate_position in Hr.
      rewrite E in Hc'.
      assert (c = r) by congruence. subst r.
      apply Hnot. exact Hc.
    + apply SummaryFacts.summaryOrder_Lt. exact E.
Qed.

(** ** Key points *)

Section StringFacts.

Lemma In_dropWhile {A} (p : A -> bool) x l : In x (dropWhile p l) -> In x l.
Proof.
  induction l as [| y t IH]; simpl; [ tauto | ].
  destruct (p y); simpl; [ intro; right; apply IH; assumption | tauto ].
Qed.

Lemma In_trim c s : In c (trim s) -> In c s.
Proof.
  unfold trim, trimEnd, trimStart. intro Hc.
  apply in_rev in Hc. apply In_dropWhile in Hc. apply in_rev in Hc.
  apply In_dropWhile in Hc. exact Hc.
Qed.

(** No piece of a split holds a separator. *)
Lemma split_runs_clean sep s :
  Forall (fun piece => forall c, In c piece -> sep c = false) (split_runs sep s).
Proof.
  induction s as [| c rest IH]; simpl.
  - constructor; [ intros c [] | constructor ].
  - destruct (sep c) eqn:E.
    + destruct rest as [| d rest'].
      * constructor; [ intros x [] | exact IH ].
      * destruct (sep d); [ exact IH | constructor; [ intros x [] | exact IH ] ].
    + destruct (split_runs sep rest) as [| piece pieces].
      * constructor; [ | constructor ]. intros x [<- | []]. exact E.
      * inversion IH as [| ? ? Hp Hps]; subst. constructor; [ | exact Hps ].
        intros x [<- | Hx]; [ exact E | apply Hp; exact Hx ].
Qed.

Lemma eqb_str_eq a b : eqb_str a b = true <-> a = b.
Proof.
  revert b. induction a as [| x a IH]; intros [| y b]; simpl; split; intro E;
    try reflexivity; try discriminate.
  - apply andb_true_iff in E. destruct E as [E1 E2].
    apply Ascii.eqb_eq in E1. apply IH in E2. congruence.
  - inversion E; subst. apply andb_true_iff. split.
    + apply Ascii.eqb_refl.
    + apply IH. reflexivity.
Qed.

Lemma startsWith_head s c : startsWith s [c] = true -> In c s.
Proof.
  destruct s as [| y s']; simpl; [ discriminate | ].
  intro E. apply andb_true_iff in E. destruct E as [E _].
  apply Ascii.eqb_eq in E. left. symmetry. exact E.
Qed.

Lemma endsWith_last s c : endsWith s [c] = true -> In c s.
Proof.
  unfold endsWith. simpl. intro E. apply startsWith_head in E.
  apply in_rev in E. exact E.
Qed.

End StringFacts.

Module KeyPointFacts.
Import KeyPointSpec.
Import AIService.
Open Scope Q_scope.

Lemma scoreOrder_compare a b :
  scoreOrder a b = Qcompare (Scored.score b) (Scored.score a).
Proof. unfold scoreOrder. apply NumberFacts.sign_sub. Qed.

Lemma scoreOrder_precedes a b :
  precedes scoreOrder a b <-> Scored.score b <= Scored.score a.
Proof.
  unfold precedes. rewrite scoreOrder_compare. symmetry. apply Qle_alt.
Qed.

Lemma scoreOrder_total a b : scoreOrder a b = Gt -> precedes scoreOrder b a.
Proof.
  rewrite scoreOrder_compare. intro E. apply scoreOrder_precedes.
  apply Qlt_le_weak. apply Qgt_alt. exact E.
Qed.

Lemma scoreOrder_trans a b c :
  precedes scoreOrder a b -> precedes scoreOrder b c -> precedes scoreOrder a c.
Proof.
  rewrite !scoreOrder_precedes. intros Hab Hbc.
  apply Qle_trans with (Scored.score b); assumption.
Qed.

Lemma scored_candidate_at text k c :
  nth_error (candidates text) k = Some c <->
  exists s, nth_error (keyPointSentences text) k = Some s
            /\ c = {| Scored.sentence := trim s;
                      Scored.score := scoreOf s k;
                      Scored.position := k |}.
Proof.
  unfold candidates, scoredSentences. rewrite nth_error_mapi.
  destruct (nth_error (keyPointSentences text) k) as [s |]; simpl; split.
  - intro E. exists s. split; [ reflexivity | congruence ].
  - intros [s' [E ->]]. congruence.
  - discriminate.
  - intros [s' [E _]]. discriminate.
Qed.

Lemma scored_candidate_position text c :
  In c (candidates text) -> nth_error (candidates text) (Scored.position c) = Some c.
Proof.
  intro Hc. apply In_nth_error in Hc. destruct Hc as [k Hk].
  pose proof Hk as Hk'. apply scored_candidate_at in Hk'. destruct Hk' as [s [_ ->]].
  simpl. exact Hk.
Qed.

Lemma scored_candidates_positions text :
  map Scored.position (candidates text) = seq 0 (length (keyPointSentences text)).
Proof.
  unfold candidates, scoredSentences, mapi.
  generalize 0%nat as i. induction (keyPointSentences text) as [| s t IH]; intro i; simpl.
  - reflexivity.
  - rewrite IH. reflexivity.
Qed.

(** A kept sentence holds no full stop, so the point always gets one. *)
Lemma candidate_without_stop text c :
  In c (candidates text) -> endsWith (Scored.sentence c) (str ".") = false.
Proof.
  intro Hc. apply In_nth_error in Hc. destruct Hc as [k Hk].
  apply scored_candidate_at in Hk. destruct Hk as [s [Hs ->]]. simpl.
  apply nth_error_In in Hs. unfold keyPointSentences in Hs.
  apply filter_In in Hs. destruct Hs as [Hs _].
  pose proof (split_runs_clean isTerminator text) as Hclean.
  rewrite Forall_forall in Hclean. specialize (Hclean s Hs).
  apply not_true_is_false. intro E.
  apply endsWith_last in E. apply In_trim in E. apply Hclean in E.
  discriminate.
Qed.

Lemma topSentences_selected text :
  topSentences text = selected scoreOrder Scored.position 5 (candidates text).
Proof. reflexivity. Qed.

Lemma ids_from {A} (f : A -> jsstring) (l : list A) i :
  map KeyPoint.id
      (mapi_from i (fun item index => {| KeyPoint.id := index + 1; KeyPoint.point := f item |}) l)
  = seq (i + 1) (length l).
Proof.
  revert i. induction l as [| x t IH]; intro i; simpl; [ reflexivity | ].
  rewrite IH. reflexivity.
Qed.

Lemma points_from {A} (f : A -> jsstring) (l : list A) i :
  map KeyPoint.point
      (mapi_from i (fun item index => {| KeyPoint.id := index + 1; KeyPoint.point := f item |}) l)
  = map f l.
Proof.
  revert i. induction l as [| x t IH]; intro i; simpl; [ reflexivity | ].
  rewrite IH. reflexivity.
Qed.

End KeyPointFacts.

Section Stability.
Context {A : Type}.
Variable cmp : A -> A -> comparison.
Variable pos : A -> nat.

Lemma insert_sorted_ext (cmp1 cmp2 : A -> A -> comparison) x l :
  (forall y, In y l -> (cmp1 x y = Gt <-> cmp2 x y = Gt)) ->
  insert_sorted cmp1 x l = insert_sorted cmp2 x l.
Proof.
  induction l as [| y t IH]; intro Hsame; simpl; [ reflexivity | ].
  assert (Hy := Hsame y (or_introl eq_refl)).
  destruct (cmp1 x y) eqn:E1; destruct (cmp2 x y) eqn:E2;
    try reflexivity;
    try (destruct Hy as [Hy1 Hy2]; try (specialize (Hy1 eq_refl); discriminate);
         try (specialize (Hy2 eq_refl); discriminate)).
  f_equal. apply IH. intros z Hz. apply Hsame. right. exact Hz.
Qed.

Lemma sort_stable l :
  StronglySorted (fun a b => pos a < pos b) l ->
  sort cmp l = sort (withTies cmp pos) l.
Proof.
  induction 1 as [| x t Hs IH Hx]; simpl; [ reflexivity | ].
  rewrite <- IH. apply insert_sorted_ext.
  intros y Hy. apply sort_In in Hy.
  rewrite Forall_forall in Hx. specialize (Hx y Hy).
  unfold withTies. destruct (cmp x y); split; intro E; try discriminate; try reflexivity.
  apply Nat.compare_gt_iff in E. lia.
Qed.

End Stability.

Lemma seq_increasing a n : StronglySorted lt (seq a n).
Proof.
  revert a. induction n as [| n IH]; intro a; simpl; constructor.
  - apply IH.
  - apply Forall_forall. intros y Hy. apply in_seq in Hy. lia.
Qed.

Lemma sorted_by_image {A} (f : A -> nat) l :
  StronglySorted lt (map f l) -> StronglySorted (fun a b => f a < f b) l.
Proof.
  induction l as [| x t IH]; simpl; intro Hs; constructor;
    apply StronglySorted_inv in Hs; destruct Hs as [Hs Hx].
  - apply IH. exact Hs.
  - rewrite Forall_forall in *. intros y Hy. apply Hx. apply in_map. exact Hy.
Qed.

Module TieFacts.
Import KeyPointSpec.
Import AIService.
Open Scope Q_scope.

Lemma tiedOrder_precedes a b :
  precedes tiedOrder a b <->
  Scored.score b < Scored.score a
  \/ (Scored.score b == Scored.score a /\ (Scored.position a <= Scored.position b)%nat).
Proof.
  unfold precedes, tiedOrder, withTies. rewrite KeyPointFacts.scoreOrder_compare.
  destruct (Qcompare_spec (Scored.score b) (Scored.score a)) as [E | L | G].
  - destruct (Nat.compare_spec (Scored.position a) (Scored.position b)); split; intro Hp;
      try congruence; try (right; split; [ exact E | lia ]).
    destruct Hp as [Hp | [_ Hp]]; [ | lia ].
    rewrite E in Hp. exfalso. apply (Qlt_irrefl _ Hp).
  - split; [ intro; left; exact L | congruence ].
  - split; [ congruence | ].
    intros [Hp | [Hp _]].
    + exfalso. apply (Qlt_irrefl (Scored.score a)). apply Qlt_trans with (Scored.score b); assumption.
    + rewrite Hp in G. exfalso. apply (Qlt_irrefl _ G).
Qed.

Lemma tiedOrder_total a b : tiedOrder a b = Gt -> precedes tiedOrder b a.
Proof.
  intro E. apply tiedOrder_precedes.
  unfold tiedOrder, withTies in E. rewrite KeyPointFacts.scoreOrder_compare in E.
  destruct (Qcompare_spec (Scored.score b) (Scored.score a)) as [Heq | L | G];
    try discriminate.
  - right. split; [ symmetry; exact Heq | ]. apply Nat.compare_gt_iff in E. lia.
  - left. exact G.
Qed.

Lemma tiedOrder_trans a b c :
  precedes tiedOrder a b -> precedes tiedOrder b c -> precedes tiedOrder a c.
Proof.
  rewrite !tiedOrder_precedes.
  intros [Hab | [Hab Pab]] [Hbc | [Hbc Pbc]].
  - left. apply Qlt_trans with (Scored.score b); assumption.
  - left. rewrite Hbc. exact Hab.
  - left. rewrite <- Hab. exact Hbc.
  - right. split; [ rewrite Hbc; exact Hab | lia ].
Qed.

Lemma topSentences_tied text :
  topSentences text = selected tiedOrder Scored.position 5 (KeyPointSpec.candidates text).
Proof.
  rewrite KeyPointFacts.topSentences_selected. unfold selected, tiedOrder.
  rewrite (sort_stable scoreOrder Scored.position); [ reflexivity | ].
  apply sorted_by_image. rewrite KeyPointFacts.scored_candidates_positions.
  apply seq_increasing.
Qed.

(** A sentence that is left out scores less than every chosen one, or as
    much as a chosen one that stands before it. *)
Lemma chosen_beats_rest text c r :
  In c (topSentences text) -> In r (KeyPointSpec.candidates text) ->
  ~ In r (topSentences text) ->
  Scored.score r < Scored.score c
  \/ (Scored.score r == Scored.score c /\ (Scored.position c < Scored.position r)%nat).
Proof.
  intros Hc Hr Hnot.
  assert (Hle : precedes tiedOrder c r).
  { rewrite topSentences_tied in Hc, Hnot.
    eapply selected_beats_rest; try eassumption.
    - exact tiedOrder_total.
    - exact tiedOrder_trans. }
  apply tiedOrder_precedes in Hle.
  destruct Hle as [Hlt | [Heq Hpos]]; [ left; exact Hlt | right ].
  split; [ exact Heq | ].
  destruct (Nat.eq_dec (Scored.position c) (Scored.position r)) as [E | E]; [ | lia ].
  exfalso. apply Hnot.
  rewrite KeyPointFacts.topSentences_selected in Hc.
  pose proof (selected_In _ _ _ _ _ Hc) as Hc'.
  apply KeyPointFacts.scored_candidate_position in Hc'.
  apply KeyPointFacts.scored_candidate_position in Hr.
  rewrite E in Hc'. assert (c = r) by congruence. subst r.
  rewrite KeyPointFacts.topSentences_selected. exact Hc.
Qed.

End TieFacts.

Lemma scoreOf_core sentence index :
  AIService.scoreOf sentence index
  = Binary64.sentenceScore (length sentence) (AIService.hasImportantKeywords sentence)
                           (AIService.isDefinition sentence) index.
Proof. reflexivity. Qed.

(** C4. Key-point extraction keeps the sentences whose trimmed length exceeds
    15, gives the sentence at place [k] the score
    [min(length/50, 3) + 2*keyword + 2*definition + max(0, (10 - k)/5)]
    computed in double arithmetic, hence within [2^-48] of its exact value,
    selects the five with the highest scores (all of them when there are
    fewer), lists them in their original order, numbers them 1, 2, ... and
    closes each with a full stop.  Between two sentences with the same score
    the sort is stable: the earlier one is selected first. *)
Theorem key_points_pipeline (text : jsstring) :
  let kept := filter (fun s => 15 <? length (trim s)) (splitSentences text) in
  let candidates := KeyPointSpec.candidates text in
  let chosen := AIService.topSentences text in
  let points := AIService.extractSmartKeyPoints text in
  (forall k c, nth_error candidates k = Some c <->
     exists s, nth_error kept k = Some s
               /\ c = {| AIService.Scored.sentence := trim s;
                         AIService.Scored.score := AIService.scoreOf s k;
                         AIService.Scored.position := k |})
  /\ (forall s k,
        let exact := ScoreSpec.exactScore (length s) (AIService.hasImportantKeywords s)
                                          (AIService.isDefinition s) k in
        (AIService.scoreOf s k - exact <= 32 * ScoreSpec.u
         /\ exact - AIService.scoreOf s k <= 32 * ScoreSpec.u)%Q)
  /\ length chosen = Nat.min 5 (length kept)
  /\ (forall c, In c chosen ->
        nth_error candidates (AIService.Scored.position c) = Some c)
  /\ (forall c r, In c chosen -> In r candidates -> ~ In r chosen ->
        (AIService.Scored.score r <= AIService.Scored.score c)%Q)
  /\ (forall c r, In c chosen -> In r candidates -> ~ In r chosen ->
        (AIService.Scored.score r == AIService.Scored.score c)%Q ->
        AIService.Scored.position c < AIService.Scored.position r)
  /\ StronglySorted (fun a b => AIService.Scored.position a
                                < AIService.Scored.position b) chosen
  /\ map AIService.KeyPoint.id points = seq 1 (length chosen)
  /\ map AIService.KeyPoint.point points
     = map (fun c => AIService.Scored.sentence c ++ AIService.str ".") chosen.
Proof.
  intros kept candidates chosen points.
  assert (Hin : forall c, In c chosen -> In c candidates).
  { intros c Hc. unfold chosen in Hc. rewrite KeyPointFacts.topSentences_selected in Hc.
    eapply selected_In. exact Hc. }
  split; [ intros k c; apply KeyPointFacts.scored_candidate_at | ].
  split; [ intros s k; rewrite scoreOf_core; apply ScoreFacts.score_near_formula | ].
  split.
  { unfold chosen. rewrite KeyPointFacts.topSentences_selected, selected_length.
    unfold KeyPointSpec.candidates, AIService.scoredSentences. rewrite length_mapi.
    reflexivity. }
  split; [ intros c Hc; apply KeyPointFacts.scored_candidate_position, Hin, Hc | ].
  split.
  { intros c r Hc Hr Hnot. apply KeyPointFacts.scoreOrder_precedes.
    unfold chosen in Hc, Hnot. rewrite KeyPointFacts.topSentences_selected in Hc, Hnot.
    eapply selected_beats_rest; try eassumption.
    - exact KeyPointFacts.scoreOrder_total.
    - exact KeyPointFacts.scoreOrder_trans. }
  split.
  { intros c r Hc Hr Hnot Heq.
    destruct (TieFacts.chosen_beats_rest text c r Hc Hr Hnot) as [Hlt | [_ Hpos]];
      [ | exact Hpos ].
    rewrite Heq in Hlt. exfalso. apply (Qlt_irrefl _ Hlt). }
  split.
  { unfold chosen. rewrite KeyPointFacts.topSentences_selected.
    apply selected_strictly_in_order.
    rewrite KeyPointFacts.scored_candidates_positions. apply seq_NoDup. }
  split.
  { unfold points, AIService.extractSmartKeyPoints, mapi.
    apply (KeyPointFacts.ids_from _ chosen 0). }
  unfold points, AIService.extractSmartKeyPoints, mapi.
  rewrite (KeyPointFacts.points_from _ chosen 0).
  apply map_ext_in. intros c Hc.
  rewrite (KeyPointFacts.candidate_without_stop text c (Hin c Hc)). reflexivity.
Qed.

(** ** Quiz and flashcards *)

Module QuizFacts.
Import QuizSpec.
Import AIService.

Lemma capitalize_length s : length (capitalizeFirstLetter s) = length s.
Proof.
  unfold capitalizeFirstLetter, toUpperCase.
  rewrite length_app, length_map, <- length_app, firstn_skipn. reflexivity.
Qed.

Lemma mainTopic_truthy text : truthy (extractMainTopic text) = true.
Proof.
  unfold extractMainTopic.
  destruct (sort _ _) as [| w ws]; [ reflexivity | ].
  destruct (truthy w) eqn:E; [ | reflexivity ].
  unfold truthy in *. rewrite capitalize_length. exact E.
Qed.

Lemma keyTerms_length text : length (extractKeyTerms text) = 4.
Proof.
  unfold extractKeyTerms, slice0.
  match goal with |- context [4 <=? ?n] => destruct (Nat.leb_spec 4 n) as [Hn | Hn] end.
  - rewrite length_firstn. lia.
  - reflexivity.
Qed.

Lemma topicQuestion_wellFormed t : wellFormed (topicQuestion t).
Proof. split; reflexivity. Qed.

Lemma conceptQuestion_wellFormed t : wellFormed (conceptQuestion t).
Proof. split; reflexivity. Qed.

Lemma processQuestion_wellFormed : wellFormed processQuestion.
Proof. split; reflexivity. Qed.

Lemma genericQuestion_wellFormed : wellFormed genericQuestion.
Proof. split; reflexivity. Qed.

Lemma padQuestions_wellFormed qs :
  Forall wellFormed qs -> Forall wellFormed (padQuestions qs).
Proof.
  funelim (padQuestions qs); intro Hqs.
  - apply H. apply Forall_app. split; [ exact Hqs | ].
    constructor; [ apply genericQuestion_wellFormed | constructor ].
  - exact Hqs.
Qed.

(** The loop leaves at least two questions and adds none to a list that
    already has two. *)
Lemma padQuestions_enough qs : 2 <= length (padQuestions qs).
Proof. funelim (padQuestions qs); [ assumption | lia ]. Qed.

Lemma padQuestions_idle qs : 2 <= length qs -> padQuestions qs = qs.
Proof. funelim (padQuestions qs); intro Hlen; [ lia | reflexivity ]. Qed.

Lemma padQuestions_length qs : length (padQuestions qs) = Nat.max 2 (length qs).
Proof.
  funelim (padQuestions qs).
  - rewrite H, length_app. change (length [genericQuestion]) with 1. lia.
  - lia.
Qed.

Lemma quiz_wellFormed text : Forall wellFormed (generateSmartQuiz text).
Proof.
  unfold generateSmartQuiz, slice0.
  apply Forall_forall. intros q Hq. apply In_firstn in Hq. revert q Hq.
  apply Forall_forall. apply padQuestions_wellFormed.
  assert (H1 : Forall wellFormed
                 (if truthy (extractMainTopic text)
                  then [topicQuestion (extractMainTopic text)] else [])).
  { destruct (truthy _); repeat constructor. }
  assert (H2 : Forall wellFormed
                 (match extractKeyTerms text with
                  | term :: _ =>
                      (if truthy (extractMainTopic text)
                       then [topicQuestion (extractMainTopic text)] else [])
                      ++ [conceptQuestion term]
                  | [] => if truthy (extractMainTopic text)
                          then [topicQuestion (extractMainTopic text)] else []
                  end)).
  { destruct (extractKeyTerms text); [ exact H1 | ].
    apply Forall_app. split; [ exact H1 | repeat constructor ]. }
  destruct (containsProcess text); [ | exact H2 ].
  apply Forall_app. split; [ exact H2 | repeat constructor ].
Qed.

Lemma quiz_length text :
  length (generateSmartQuiz text) = if containsProcess text then 3 else 2.
Proof.
  unfold generateSmartQuiz, slice0.
  rewrite mainTopic_truthy.
  pose proof (keyTerms_length text) as Hk.
  destruct (extractKeyTerms text) as [| term terms]; [ discriminate | ].
  destruct (containsProcess text); rewrite padQuestions_idle by (simpl; lia); reflexivity.
Qed.

Lemma padQuestions_shaped qs : Forall shaped qs -> Forall shaped (padQuestions qs).
Proof.
  funelim (padQuestions qs); intro Hqs.
  - apply H. apply Forall_app. split; [ exact Hqs | ].
    constructor; [ | constructor ].
    exists [], []. simpl. tauto.
  - exact Hqs.
Qed.

Lemma quiz_shapes text : Forall shaped (generateSmartQuiz text).
Proof.
  unfold generateSmartQuiz, slice0.
  apply Forall_forall. intros q Hq. apply In_firstn in Hq. revert q Hq.
  apply Forall_forall. apply padQuestions_shaped.
  assert (Ht : forall t, shaped (topicQuestion t)) by (intro t; exists t, []; simpl; tauto).
  assert (Hc : forall t, shaped (conceptQuestion t)) by (intro t; exists [], t; simpl; tauto).
  assert (Hp : shaped processQuestion) by (exists [], []; simpl; tauto).
  repeat match goal with
         | |- Forall _ (if ?b then _ else _) => destruct b
         | |- Forall _ (match ?l with _ :: _ => _ | [] => _ end) => destruct l
         | |- Forall _ (_ ++ _) => apply Forall_app; split
         | |- Forall _ (_ :: _) => constructor
         | |- Forall _ [] => constructor
         end; auto.
Qed.

End QuizFacts.

Module FlashcardFacts.
Import AIService.

Lemma pushSteps_bounds steps : forall index flashcards,
  length flashcards <= 6 ->
  length flashcards <= length (pushSteps index steps flashcards) <= 6.
Proof.
  induction steps as [| step rest IH]; intros index flashcards Hlen; simpl.
  - lia.
  - destruct (Nat.ltb_spec (length flashcards) 6) as [Hlt | Hge].
    + specialize (IH (S index)
                     (flashcards ++ [ {| Flashcard.front := str "Step " ++ natToString (index + 1);
                                         Flashcard.back := step |} ])).
      rewrite length_app in IH. simpl in IH. lia.
    + specialize (IH (S index) flashcards Hlen). lia.
Qed.

(** Every index that the padding loop can ask for has a default card. *)
Lemma defaultCard_defined text n :
  n < 4 -> nth_error (defaultFlashcards text) n <> None.
Proof.
  intro Hn. destruct n as [|[|[|[| n]]]]; simpl; try discriminate. lia.
Qed.

Lemma padFlashcards_idle defaults flashcards :
  4 <= length flashcards -> padFlashcards defaults flashcards = flashcards.
Proof.
  funelim (padFlashcards defaults flashcards); intro Hlen; try lia; reflexivity.
Qed.

(** With four defaults the loop ends with at least four cards. *)
Lemma padFlashcards_enough text flashcards :
  4 <= length (padFlashcards (defaultFlashcards text) flashcards).
Proof.
  funelim (padFlashcards (defaultFlashcards text) flashcards); try lia; try assumption.
  exfalso. eapply defaultCard_defined; eassumption.
Qed.

Lemma flashcards_length text :
  4 <= length (generateSmartFlashcards text) <= 6.
Proof.
  unfold generateSmartFlashcards, slice0.
  set (cards := map _ (extractKeyTerms text)).
  assert (Hc : length cards = 4).
  { unfold cards. rewrite length_map. apply QuizFacts.keyTerms_length. }
  set (cards' := if containsProcess text then _ else cards).
  assert (Hc' : 4 <= length cards' <= 6).
  { unfold cards'. destruct (containsProcess text); [ | lia ].
    pose proof (pushSteps_bounds (extractProcessSteps text) 0 cards). lia. }
  rewrite padFlashcards_idle by lia.
  rewrite length_firstn. lia.
Qed.

End FlashcardFacts.

Lemma summary_truthy text : truthy (AIService.generateSmartSummary text) = true.
Proof.
  unfold truthy, AIService.generateSmartSummary, AIService.summaryMarker.
  rewrite !length_app. simpl.
  rewrite Nat.add_comm. reflexivity.
Qed.

Lemma keyPoints_length text : length (AIService.extractSmartKeyPoints text) <= 5.
Proof.
  unfold AIService.extractSmartKeyPoints, AIService.topSentences, slice0.
  rewrite length_mapi, sort_length, length_firstn. lia.
Qed.

(** C1. On a text of at least 30 characters the summary is a non-empty
    string, the quiz has two or three questions, each with exactly four
    options and a correct index between 0 and 3, there are between four and six
    flashcards and at most five key points. *)
Theorem artifacts_well_formed (text : jsstring) :
  30 <= length text ->
  truthy (AIService.generateSmartSummary text) = true
  /\ 2 <= length (AIService.generateSmartQuiz text) <= 3
  /\ Forall (fun q => length (AIService.QuizQuestion.options q) = 4
                      /\ 0 <= AIService.QuizQuestion.correct q <= 3)
            (AIService.generateSmartQuiz text)
  /\ 4 <= length (AIService.generateSmartFlashcards text) <= 6
  /\ length (AIService.extractSmartKeyPoints text) <= 5.
Proof.
  intros _.
  split; [ apply summary_truthy | ].
  split; [ rewrite QuizFacts.quiz_length; destruct (AIService.containsProcess text); lia | ].
  split; [ | split; [ apply FlashcardFacts.flashcards_length | apply keyPoints_length ] ].
  eapply Forall_impl; [ | apply QuizFacts.quiz_wellFormed ].
  intros q [Ho Hc]. rewrite Hc. split; [ exact Ho | lia ].
Qed.

Lemma artifacts_well_formed_witness :
  truthy (AIService.generateSmartSummary sampleText) = true
  /\ 2 <= length (AIService.generateSmartQuiz sampleText) <= 3
  /\ Forall (fun q => length (AIService.QuizQuestion.options q) = 4
                      /\ 0 <= AIService.QuizQuestion.correct q <= 3)
            (AIService.generateSmartQuiz sampleText)
  /\ 4 <= length (AIService.generateSmartFlashcards sampleText) <= 6
  /\ length (AIService.extractSmartKeyPoints sampleText) <= 5.
Proof.
  apply (artifacts_well_formed sampleText).
  vm_compute. repeat constructor.
Defined.

(** C2. Every question of the quiz has exactly four options and 0 as its
    correct index, whichever of the four kinds it is: the question on the
    main topic, the one on a key term, the one on a process, or the generic
    one that pads the quiz. *)
Theorem quiz_first_option_correct (text : jsstring) :
  Forall (fun q => length (AIService.QuizQuestion.options q) = 4
                   /\ AIService.QuizQuestion.correct q = 0)
         (AIService.generateSmartQuiz text)
  /\ (forall topic, QuizSpec.wellFormed (AIService.topicQuestion topic))
  /\ (forall term, QuizSpec.wellFormed (AIService.conceptQuestion term))
  /\ QuizSpec.wellFormed AIService.processQuestion
  /\ QuizSpec.wellFormed AIService.genericQuestion
  /\ Forall (fun q => exists topic term,
               In q [AIService.topicQuestion topic; AIService.conceptQuestion term;
                     AIService.processQuestion; AIService.genericQuestion])
            (AIService.generateSmartQuiz text).
Proof.
  split; [ apply QuizFacts.quiz_wellFormed | ].
  split; [ apply QuizFacts.topicQuestion_wellFormed | ].
  split; [ apply QuizFacts.conceptQuestion_wellFormed | ].
  split; [ apply QuizFacts.processQuestion_wellFormed | ].
  split; [ apply QuizFacts.genericQuestion_wellFormed | ].
  apply QuizFacts.quiz_shapes.
Qed.

(** ** Key terms *)

Module KeyTermFacts.
Import KeyTermSpec.
Import AIService.

Lemma arrayIncludes_In l x : arrayIncludes l x = true <-> In x l.
Proof.
  unfold arrayIncludes. rewrite existsb_exists. split.
  - intros [y [Hy E]]. apply eqb_str_eq in E. subst. exact Hy.
  - intro Hx. exists x. split; [ exact Hx | apply eqb_str_eq; reflexivity ].
Qed.

Lemma dedup_acc_In seen l x :
  In x (dedup_acc seen l) <-> In x l /\ ~ In x seen.
Proof.
  revert seen. induction l as [| y t IH]; intro seen; simpl.
  - tauto.
  - destruct (arrayIncludes seen y) eqn:E.
    + apply arrayIncludes_In in E. rewrite IH. split.
      * intros [Hx Hn]. tauto.
      * intros [[-> | Hx] Hn]; tauto.
    + assert (Hy : ~ In y seen).
      { intro Hy. apply arrayIncludes_In in Hy. congruence. }
      simpl. rewrite IH. simpl. split.
      * intros [-> | [Hx Hn]]; [ tauto | ]. split; [ tauto | ]. intro; apply Hn; tauto.
      * intros [[-> | Hx] Hn]; [ tauto | ].
        destruct (eqb_str y x) eqn:Eyx.
        -- apply eqb_str_eq in Eyx. tauto.
        -- right. split; [ exact Hx | ]. intros [-> | Hs]; [ | tauto ].
           assert (eqb_str x x = true) by (apply eqb_str_eq; reflexivity). congruence.
Qed.

Lemma dedup_acc_NoDup seen l : NoDup (dedup_acc seen l).
Proof.
  revert seen. induction l as [| y t IH]; intro seen; simpl.
  - constructor.
  - destruct (arrayIncludes seen y); [ apply IH | ].
    constructor; [ | apply IH ].
    rewrite dedup_acc_In. simpl. tauto.
Qed.

Lemma dedup_acc_ext s1 s2 l :
  (forall z, arrayIncludes s1 z = arrayIncludes s2 z) -> dedup_acc s1 l = dedup_acc s2 l.
Proof.
  revert s1 s2. induction l as [| y t IH]; intros s1 s2 Hs; simpl; [ reflexivity | ].
  rewrite <- Hs. destruct (arrayIncludes s1 y); [ apply IH; exact Hs | ].
  f_equal. apply IH. intro z. unfold arrayIncludes in *. simpl. rewrite Hs. reflexivity.
Qed.

Lemma dedup_acc_seen x seen l :
  dedup_acc (x :: seen) l = dedup_acc seen (filter (fun y => negb (eqb_str y x)) l).
Proof.
  revert seen. induction l as [| y t IH]; intro seen; simpl; [ reflexivity | ].
  unfold arrayIncludes at 1. simpl. fold (arrayIncludes seen y).
  destruct (eqb_str y x) eqn:E; simpl.
  - apply IH.
  - destruct (arrayIncludes seen y); [ apply IH | ].
    f_equal. rewrite <- IH. apply dedup_acc_ext.
    intro z. unfold arrayIncludes. simpl.
    destruct (eqb_str z y), (eqb_str z x); reflexivity.
Qed.

(** [uniqueOf] keeps the first occurrence of every element and drops the
    later ones. *)
Lemma uniqueOf_cons x l :
  uniqueOf (x :: l) = x :: uniqueOf (filter (fun y => negb (eqb_str y x)) l).
Proof. unfold uniqueOf. simpl. f_equal. apply dedup_acc_seen. Qed.

Lemma uniqueOf_In l x : In x (uniqueOf l) <-> In x l.
Proof. unfold uniqueOf. rewrite dedup_acc_In. simpl. tauto. Qed.

Lemma uniqueOf_NoDup l : NoDup (uniqueOf l).
Proof. apply dedup_acc_NoDup. Qed.

End KeyTermFacts.

(** C5, as the code has it.  Key-term extraction takes the tokens longer than
    6 characters in order of first occurrence and without repetitions, looks
    at the first eight of them only, keeps those that are alphabetic and no
    stopword, and returns the first four; when fewer than four of the eight
    qualify it returns [Concept], [Theory], [Application], [Method].  On a
    text with at most eight distinct long tokens this is the extraction that
    the specification describes. *)
Theorem key_terms_from_first_eight (text : jsstring) :
  let distinct := uniqueOf (KeyTermSpec.longTokens text) in
  let qualifying := filter KeyTermSpec.qualifies (firstn 8 distinct) in
  AIService.extractKeyTerms text
    = (if length qualifying <? 4 then KeyTermSpec.genericFour else firstn 4 qualifying)
  /\ uniqueOf [] = []
  /\ (forall x l, uniqueOf (x :: l)
                  = x :: uniqueOf (filter (fun y => negb (eqb_str y x)) l))
  /\ NoDup distinct
  /\ (forall w, In w distinct <-> In w (KeyTermSpec.longTokens text))
  /\ (length distinct <= 8 ->
      AIService.extractKeyTerms text = KeyTermSpec.keyTermsAsSpecified text).
Proof.
  intros distinct qualifying.
  assert (Hcode : AIService.extractKeyTerms text
                  = (if length qualifying <? 4 then KeyTermSpec.genericFour
                     else firstn 4 qualifying)).
  { unfold AIService.extractKeyTerms, slice0.
    fold (KeyTermSpec.longTokens text). fold distinct.
    change (filter _ (firstn 8 distinct)) with qualifying.
    destruct (Nat.leb_spec 4 (length qualifying)) as [H4 | H4];
      destruct (Nat.ltb_spec (length qualifying) 4) as [H4' | H4']; try lia; reflexivity. }
  split; [ exact Hcode | ].
  split; [ reflexivity | ].
  split; [ apply KeyTermFacts.uniqueOf_cons | ].
  split; [ apply KeyTermFacts.uniqueOf_NoDup | ].
  split; [ intro w; apply KeyTermFacts.uniqueOf_In | ].
  intro Hlen. rewrite Hcode. unfold KeyTermSpec.keyTermsAsSpecified, qualifying.
  fold distinct. rewrite firstn_all2 by exact Hlen. reflexivity.
Qed.

(** C5, as the specification states it, fails: four terms qualify in
    [crowdedText], yet the extraction returns the generic set. *)
Lemma key_terms_beyond_first_eight :
  KeyTermSpec.keyTermsAsSpecified crowdedText
    = map AIService.str ["chloroplast"; "organelles"; "through"; "thylakoid"]
  /\ AIService.extractKeyTerms crowdedText
     = map AIService.str ["Concept"; "Theory"; "Application"; "Method"]
  /\ AIService.extractKeyTerms crowdedText <> KeyTermSpec.keyTermsAsSpecified crowdedText.
Proof.
  split; [ vm_compute; reflexivity | ].
  split; [ vm_compute; reflexivity | ].
  vm_compute. discriminate.
Qed.

(** ** Running effectful code *)

Section IoFacts.

Lemma bindIO_inv {A B} (c : io A) (k : A -> io B) w r w' :
  bindIO c k w = (r, w') ->
  (exists a w1, c w = (Normal a, w1) /\ k a w1 = (r, w'))
  \/ (exists e, c w = (Throw e, w') /\ r = Throw e).
Proof.
  unfold bindIO. destruct (c w) as [[a | e] w1]; intro Hrun.
  - left. exists a, w1. split; [ reflexivity | exact Hrun ].
  - right. exists e. inversion Hrun; subst. split; reflexivity.
Qed.

Lemma tryCatchIO_inv {A} (body : io A) (handler : exn -> io A) w r w' :
  tryCatchIO body handler w = (r, w') ->
  (exists a, body w = (Normal a, w') /\ r = Normal a)
  \/ (exists e w1, body w = (Throw e, w1) /\ handler e w1 = (r, w')).
Proof.
  unfold tryCatchIO. destruct (body w) as [[a | e] w1]; intro Hrun.
  - left. exists a. inversion Hrun; subst. split; reflexivity.
  - right. exists e, w1. split; [ reflexivity | exact Hrun ].
Qed.

Lemma nextFault_keeps w f w' :
  nextFault w = (f, w') ->
  usersFile w' = usersFile w /\ sessionsFile w' = sessionsFile w
  /\ inMemoryUsers w' = inMemoryUsers w /\ exists f', f = Normal f'.
Proof.
  unfold nextFault. destruct (faults w); intro Hrun; inversion Hrun; subst; simpl; eauto.
Qed.

Lemma mkdir_keeps w r w' :
  mkdir w = (r, w') -> sessionsFile w' = sessionsFile w.
Proof.
  unfold mkdir. intro Hrun. apply bindIO_inv in Hrun.
  destruct Hrun as [[f [w1 [Hf Hrun]]] | [e [Hf _]]].
  - apply nextFault_keeps in Hf. destruct Hf as [_ [Hs _]].
    destruct f; unfold throw, ret in Hrun; inversion Hrun; subst; exact Hs.
  - apply nextFault_keeps in Hf. destruct Hf as [_ [_ [_ [f' Hf']]]]. discriminate.
Qed.

Lemma readSessionsFile_result w r w' :
  readSessionsFile w = (r, w') ->
  sessionsFile w' = sessionsFile w
  /\ ((exists e, r = Throw e)
      \/ exists t, sessionsFile w = Present t /\ r = Normal t).
Proof.
  unfold readSessionsFile. intro Hrun. apply bindIO_inv in Hrun.
  destruct Hrun as [[f [w1 [Hf Hrun]]] | [e [Hf _]]].
  - apply nextFault_keeps in Hf. destruct Hf as [_ [Hs _]].
    destruct f; unfold throw, readContent in Hrun;
      try (destruct (sessionsFile w1) as [| t] eqn:E; unfold throw, ret in Hrun);
      inversion Hrun; subst; (split; [ congruence | ]);
      try (left; eexists; reflexivity);
      right; exists t; (split; [ congruence | reflexivity ]).
  - apply nextFault_keeps in Hf. destruct Hf as [_ [_ [_ [f' Hf']]]]. discriminate.
Qed.

Lemma writeSessionsFile_result sessions w r w' :
  writeSessionsFile sessions w = (r, w') ->
  ((exists e, r = Throw e /\ sessionsFile w' = sessionsFile w))
  \/ (r = Normal tt /\ sessionsFile w' = Present (Encodes (SArray sessions))).
Proof.
  unfold writeSessionsFile. intro Hrun. apply bindIO_inv in Hrun.
  destruct Hrun as [[f [w1 [Hf Hrun]]] | [e [Hf _]]].
  - apply nextFault_keeps in Hf. destruct Hf as [_ [Hs _]].
    destruct f; unfold throw, setSessionsFile in Hrun; inversion Hrun; subst; simpl; eauto.
  - apply nextFault_keeps in Hf. destruct Hf as [_ [_ [_ [f' Hf']]]]. discriminate.
Qed.

End IoFacts.

(** ** The session store *)

Module SessionFacts.
Import SessionSpec.
Import Study.

(** What [readStudySessions] returns and leaves. *)
Lemma readStudySessions_result w r w' :
  readStudySessions w = (r, w') ->
  sessionsFile w' = sessionsFile w
  /\ (r = Normal (SArray [])
      \/ exists v, sessionsFile w = Present (Encodes v) /\ r = Normal v).
Proof.
  unfold readStudySessions. intro Hrun.
  apply tryCatchIO_inv in Hrun. destruct Hrun as [[a [Hbody ->]] | [e [w1 [Hbody Hh]]]].
  - apply bindIO_inv in Hbody.
    destruct Hbody as [[data [w1 [Hread Hparse]]] | [e [_ Habs]]]; [ | discriminate ].
    unfold lift in Hparse. inversion Hparse; subst.
    apply readSessionsFile_result in Hread. destruct Hread as [Hsame [[e He] | Hdata]];
      [ discriminate | ].
    split; [ exact Hsame | ].
    destruct data as [| | v]; try discriminate.
    right. exists v. inversion H0; subst. split; [ | reflexivity ].
    destruct Hdata as [t [Hf Ht]]. inversion Ht; subst. exact Hf.
  - unfold ret in Hh. inversion Hh; subst.
    split; [ | left; reflexivity ].
    apply bindIO_inv in Hbody.
    destruct Hbody as [[data [w2 [Hread Hparse]]] | [e' [Hread _]]].
    + unfold lift in Hparse. inversion Hparse; subst.
      apply readSessionsFile_result in Hread. tauto.
    + apply readSessionsFile_result in Hread. tauto.
Qed.

(** What [writeStudySessions] returns and leaves. *)
Lemma writeStudySessions_result sessions w r w' :
  writeStudySessions sessions w = (r, w') ->
  (r = Normal false /\ sessionsFile w' = sessionsFile w)
  \/ (r = Normal true /\ sessionsFile w' = Present (Encodes (SArray sessions))).
Proof.
  unfold writeStudySessions. intro Hrun.
  apply tryCatchIO_inv in Hrun. destruct Hrun as [[a [Hbody ->]] | [e [w1 [Hbody Hh]]]].
  - apply bindIO_inv in Hbody.
    destruct Hbody as [[[] [w1 [Hmk Hrest]]] | [e [_ Habs]]]; [ | discriminate ].
    apply bindIO_inv in Hrest.
    destruct Hrest as [[[] [w2 [Hwr Hret]]] | [e [_ Habs]]]; [ | discriminate ].
    unfold ret in Hret. inversion Hret; subst.
    right. split; [ reflexivity | ].
    apply writeSessionsFile_result in Hwr. destruct Hwr as [[e [He _]] | [_ Hset]];
      [ discriminate | exact Hset ].
  - unfold ret in Hh. inversion Hh; subst.
    left. split; [ reflexivity | ].
    apply bindIO_inv in Hbody.
    destruct Hbody as [[[] [w2 [Hmk Hrest]]] | [e' [Hmk _]]].
    + apply mkdir_keeps in Hmk.
      apply bindIO_inv in Hrest.
      destruct Hrest as [[[] [w3 [Hwr Hret]]] | [e' [Hwr _]]].
      * unfold ret in Hret. inversion Hret.
      * apply writeSessionsFile_result in Hwr.
        destruct Hwr as [[e2 [_ Hsame]] | [Habs _]]; [ | discriminate ].
        congruence.
    + apply mkdir_keeps in Hmk. exact Hmk.
Qed.

(** One append either leaves the file as it was or writes the new session in
    front of the sessions it read, cut after 50. *)
Lemma append_step userId text features results inputType fileName w outcome w' :
  createStudySession userId text features results inputType fileName w = (outcome, w') ->
  sessionsFile w' = sessionsFile w
  \/ exists session old,
       outcome = Normal session
       /\ (old = persisted w \/ old = [])
       /\ sessionsFile w' = Present (Encodes (SArray (firstn 50 (session :: old)))).
Proof.
  unfold createStudySession. intro Hrun.
  apply bindIO_inv in Hrun.
  destruct Hrun as [[id [w1 [Hnow Hrun]]] | [e [Habs _]]]; [ | discriminate ].
  unfold dateNow in Hnow. inversion Hnow; subst w1; clear Hnow.
  apply bindIO_inv in Hrun.
  destruct Hrun as [[timestamp [w1 [Hnow Hrun]]] | [e [Habs _]]]; [ | discriminate ].
  unfold dateNow in Hnow. inversion Hnow; subst w1; clear Hnow.
  apply bindIO_inv in Hrun.
  destruct Hrun as [[sessions [w2 [Hread Hrun]]] | [e [Hread ->]]].
  2:{ left. apply readStudySessions_result in Hread. apply Hread. }
  apply readStudySessions_result in Hread. destruct Hread as [Hsame Hwhat].
  change (sessionsFile (advance (advance w))) with (sessionsFile w) in Hsame, Hwhat.
  apply bindIO_inv in Hrun.
  destruct Hrun as [[sessions' [w3 [Hun Hrun]]] | [e [Hun ->]]].
  2:{ left. unfold lift in Hun. injection Hun as _ <-. exact Hsame. }
  unfold lift in Hun. injection Hun as Hunshift <-.
  apply bindIO_inv in Hrun.
  destruct Hrun as [[saved [w4 [Hwr Hret]]] | [e [Hwr ->]]].
  2:{ apply writeStudySessions_result in Hwr.
      destruct Hwr as [[Habs _] | [Habs _]]; discriminate. }
  unfold ret in Hret. injection Hret as <- <-.
  apply writeStudySessions_result in Hwr.
  destruct Hwr as [[_ Hkeep] | [_ Hset]]; [ left; congruence | ].
  right.
  destruct sessions as [old |]; [ | discriminate ].
  simpl in Hunshift. injection Hunshift as <-.
  eexists _, old. split; [ reflexivity | ]. split; [ | exact Hset ].
  destruct Hwhat as [E | [v [Hf E]]]; inversion E; subst.
  - right. reflexivity.
  - left. unfold persisted. rewrite Hf. reflexivity.
Qed.

Lemma append_bounded userId text features results inputType fileName w outcome w' :
  length (persisted w) <= 50 ->
  createStudySession userId text features results inputType fileName w = (outcome, w') ->
  length (persisted w') <= 50.
Proof.
  intros Hlen Hrun. apply append_step in Hrun.
  destruct Hrun as [Hsame | [session [old [_ [_ Hset]]]]].
  - unfold persisted in *. rewrite Hsame. exact Hlen.
  - unfold persisted. rewrite Hset. apply firstn_le_length.
Qed.

Lemma appends_bounded w0 w :
  length (persisted w0) <= 50 -> appends w0 w -> length (persisted w) <= 50.
Proof.
  intros Hlen Hreach. induction Hreach as [| w w1 w1' w2 ? ? ? ? ? ? ? Hreach IH Hsame Hrun].
  - exact Hlen.
  - eapply append_bounded; [ | exact Hrun ].
    unfold persisted in *. rewrite Hsame. apply IH. exact Hlen.
Qed.

(** Without a fault an append on a readable file completes, and the file
    then holds the new session followed by the former ones, 50 at most. *)
Lemma append_without_fault userId text features results inputType fileName w :
  faults w = [] -> readable w ->
  exists session w',
    createStudySession userId text features results inputType fileName w
      = (Normal session, w')
    /\ Session.userId session = userId
    /\ persisted w' = firstn 50 (session :: persisted w).
Proof.
  destruct w as [uf sf mem clk lat ent rem fs]. simpl. intros -> Hread.
  unfold readable in Hread. simpl in Hread.
  destruct sf as [| [| | [old |]]]; try contradiction;
    eexists; eexists;
    (split;
     [ cbv [createStudySession bindIO tryCatchIO dateNow advance readStudySessions
            readSessionsFile nextFault faults sessionsFile readContent throw ret lift
            parse unshift writeStudySessions mkdir writeSessionsFile setSessionsFile
            clock later usersFile inMemoryUsers entropy remote];
       reflexivity
     | split; reflexivity ]).
Qed.

Lemma appends_many n w : appends w (appendMany n w).
Proof.
  induction n as [| n IH]; simpl.
  - apply appends_none.
  - eapply appends_more with (w1 := appendMany n w) (w1' := tick (appendMany n w)).
    + exact IH.
    + reflexivity.
    + apply surjective_pairing.
Qed.

End SessionFacts.

(** C6. From a store of at most 50 sessions, an empty one for instance, no
    run of appends leaves more than 50 sessions in the file, whatever faults
    occur; and in every world so reached an append either leaves the file as
    it was (the write failed, or the file is no array) or stores the new
    session in front of the sessions it read, cut after the 50th: the cap
    counts the sessions of all users together and the entries at the end of
    the list, the oldest, are the ones dropped. *)
Theorem session_store_capped (w0 w : World) :
  length (SessionSpec.persisted w0) <= 50 ->
  SessionSpec.appends w0 w ->
  length (SessionSpec.persisted w) <= 50
  /\ (forall userId text features results inputType fileName outcome w',
        Study.createStudySession userId text features results inputType fileName w
          = (outcome, w') ->
        sessionsFile w' = sessionsFile w
        \/ exists session old,
             outcome = Normal session
             /\ (old = SessionSpec.persisted w \/ old = [])
             /\ sessionsFile w'
                = Present (Encodes (SArray (firstn 50 (session :: old)))))
  /\ (forall userId text features results inputType fileName,
        faults w = [] -> SessionSpec.readable w ->
        exists session w',
          Study.createStudySession userId text features results inputType fileName w
            = (Normal session, w')
          /\ Session.userId session = userId
          /\ SessionSpec.persisted w'
             = firstn 50 (session :: SessionSpec.persisted w)).
Proof.
  intros Hlen Hreach.
  split; [ eapply SessionFacts.appends_bounded; eassumption | ].
  split.
  - intros. eapply SessionFacts.append_step. eassumption.
  - intros. apply SessionFacts.append_without_fault; assumption.
Qed.

Lemma session_store_capped_witness :
  length (SessionSpec.persisted (SessionSpec.appendMany 60 SessionSpec.freshWorld)) = 50
  /\ length (SessionSpec.persisted (SessionSpec.appendMany 60 SessionSpec.freshWorld)) <= 50.
Proof.
  split; [ vm_compute; reflexivity | ].
  apply (session_store_capped (w0 := SessionSpec.freshWorld)
                              (w := SessionSpec.appendMany 60 SessionSpec.freshWorld)).
  - simpl. lia.
  - apply SessionFacts.appends_many.
Defined.

(** ** The account store *)

Section IoSpecs.


Lemma ensures_throw {A} e (Q : A -> World -> Prop) : ensures (throw e) Q.
Proof. intros w a w' Hrun. discriminate. Qed.

Lemma ensures_bind {A B} (c : io A) (k : A -> io B) (Q : B -> World -> Prop) :
  (forall a, ensures (k a) Q) -> ensures (bindIO c k) Q.
Proof.
  intros Hk w b w' Hrun. apply bindIO_inv in Hrun.
  destruct Hrun as [[a [w1 [_ Hrun]]] | [e [_ Habs]]]; [ | discriminate ].
  eapply Hk. exact Hrun.
Qed.

Lemma ensures_try {A} (body : io A) handler (Q : A -> World -> Prop) :
  ensures body Q -> (forall e, ensures (handler e) Q) -> ensures (tryCatchIO body handler) Q.
Proof.
  intros Hb Hh w a w' Hrun. apply tryCatchIO_inv in Hrun.
  destruct Hrun as [[a' [Hrun E]] | [e [w1 [_ Hrun]]]].
  - injection E as <-. eapply Hb. exact Hrun.
  - eapply Hh. exact Hrun.
Qed.

Lemma neverThrows_try {A} (body : io A) handler :
  (forall e, neverThrows (handler e)) -> neverThrows (tryCatchIO body handler).
Proof.
  intros Hh w. unfold tryCatchIO. destruct (body w) as [[a | e] w1].
  - exists a, w1. reflexivity.
  - apply Hh.
Qed.

Lemma neverThrows_ret {A} (a : A) : neverThrows (ret a).
Proof. intro w. exists a, w. reflexivity. Qed.

Lemma neverThrows_bind {A B} (c : io A) (k : A -> io B) :
  neverThrows c -> (forall a, neverThrows (k a)) -> neverThrows (bindIO c k).
Proof.
  intros Hc Hk w. unfold bindIO. destruct (Hc w) as [a [w1 E]]. rewrite E. apply Hk.
Qed.

End IoSpecs.

Section TimelessFacts.

Lemma timeless_ret {A} (a : A) : timeless (ret a).
Proof. intros w r w' Hrun. unfold ret in Hrun. injection Hrun as _ <-. auto. Qed.

Lemma timeless_throw {A} e : timeless (@throw A e).
Proof. intros w r w' Hrun. unfold throw in Hrun. injection Hrun as _ <-. auto. Qed.

Lemma timeless_lift {A} (c : completion A) : timeless (lift c).
Proof. intros w r w' Hrun. unfold lift in Hrun. injection Hrun as _ <-. auto. Qed.

Lemma timeless_bind {A B} (c : io A) (k : A -> io B) :
  timeless c -> (forall a, timeless (k a)) -> timeless (bindIO c k).
Proof.
  intros Hc Hk w r w' Hrun. apply bindIO_inv in Hrun.
  destruct Hrun as [[a [w1 [Hca Hka]]] | [e [Hce _]]].
  - destruct (Hc _ _ _ Hca) as [E1 [E2 E3]]. destruct (Hk a _ _ _ Hka) as [F1 [F2 F3]].
    repeat split; congruence.
  - exact (Hc _ _ _ Hce).
Qed.

Lemma timeless_try {A} (body : io A) handler :
  timeless body -> (forall e, timeless (handler e)) -> timeless (tryCatchIO body handler).
Proof.
  intros Hb Hh w r w' Hrun. apply tryCatchIO_inv in Hrun.
  destruct Hrun as [[a [Hba _]] | [e [w1 [Hbe Hhe]]]].
  - exact (Hb _ _ _ Hba).
  - destruct (Hb _ _ _ Hbe) as [E1 [E2 E3]]. destruct (Hh e _ _ _ Hhe) as [F1 [F2 F3]].
    repeat split; congruence.
Qed.

Lemma timeless_nextFault : timeless nextFault.
Proof.
  intros w r w' Hrun. unfold nextFault in Hrun.
  destruct (faults w); injection Hrun as _ <-; auto.
Qed.

Lemma timeless_setUsersFile f : timeless (setUsersFile f).
Proof. intros w r w' Hrun. unfold setUsersFile in Hrun. injection Hrun as _ <-. auto. Qed.

Lemma timeless_setSessionsFile f : timeless (setSessionsFile f).
Proof. intros w r w' Hrun. unfold setSessionsFile in Hrun. injection Hrun as _ <-. auto. Qed.

Lemma timeless_setInMemoryUsers u : timeless (setInMemoryUsers u).
Proof. intros w r w' Hrun. unfold setInMemoryUsers in Hrun. injection Hrun as _ <-. auto. Qed.

Lemma timeless_getInMemoryUsers : timeless getInMemoryUsers.
Proof. intros w r w' Hrun. unfold getInMemoryUsers in Hrun. injection Hrun as _ <-. auto. Qed.

Lemma timeless_readContent {V} (f : file V) : timeless (readContent f).
Proof. destruct f; [ apply timeless_throw | apply timeless_ret ]. Qed.

Lemma timeless_current {A} (c : World -> io A) :
  (forall w0, timeless (c w0)) -> timeless (fun w => c w w).
Proof. intros Hc w r w' Hrun. exact (Hc w _ _ _ Hrun). Qed.

End TimelessFacts.

(** Effects that are composed of steps that leave the clock alone. *)
Ltac steady :=
  repeat first
    [ apply timeless_ret | apply timeless_throw | apply timeless_lift
    | apply timeless_nextFault | apply timeless_setUsersFile
    | apply timeless_setSessionsFile | apply timeless_setInMemoryUsers
    | apply timeless_getInMemoryUsers | apply timeless_readContent
    | apply timeless_bind; [ | intro ]
    | apply timeless_try; [ | intro ]
    | match goal with
      | |- timeless (if ?b then _ else _) => destruct b
      | |- timeless (match ?x with _ => _ end) => destruct x
      | |- timeless (fun w => readContent (_ w) w) =>
          apply (timeless_current (fun w0 => readContent (_ w0))); intro
      end ].

Module AccountFacts.
Import AccountSpec.
Section WithCrypto.
Context `{Crypto}.
Import Auth.

(** The last step of every path of [writeUsers]. *)
Lemma mirror_then_true users :
  neverThrows (_ <~ setInMemoryUsers users ;; ret true)
  /\ ensures (_ <~ setInMemoryUsers users ;; ret true)
             (fun saved w' => saved = true /\ inMemoryUsers w' = users).
Proof.
  split.
  - intro w. eexists. eexists. reflexivity.
  - intros w a w' Hrun. unfold bindIO, setInMemoryUsers, ret in Hrun.
    injection Hrun as <- <-. split; reflexivity.
Qed.

(** [writeUsers] returns [true] on every path, and on every path it leaves
    the users it was given in the in-memory mirror. *)
Lemma writeUsers_true users w :
  exists w', writeUsers users w = (Normal true, w') /\ inMemoryUsers w' = users.
Proof.
  assert (Hens : ensures (writeUsers users)
                         (fun saved w' => saved = true /\ inMemoryUsers w' = users)).
  { unfold writeUsers.
    apply ensures_try; [ | intro e; apply mirror_then_true ].
    apply ensures_bind; intros _.
    apply ensures_bind; intros _.
    apply ensures_bind; intros backupData.
    apply ensures_bind; intros _.
    apply ensures_try.
    - apply ensures_bind; intros verifyData.
      apply ensures_bind; intros verifiedUsers.
      apply ensures_bind; intros same.
      destruct same; [ apply mirror_then_true | apply ensures_throw ].
    - intro verifyError.
      apply ensures_bind; intros restore.
      apply ensures_bind; intros _.
      apply mirror_then_true. }
  assert (Hnt : neverThrows (writeUsers users)).
  { unfold writeUsers. apply neverThrows_try. intro e. apply mirror_then_true. }
  destruct (Hnt w) as [saved [w' Hrun]].
  destruct (Hens w saved w' Hrun) as [-> Hmem].
  exists w'. split; assumption.
Qed.

Lemma writeUsers_neverThrows users : neverThrows (writeUsers users).
Proof. intro w. destruct (writeUsers_true users w) as [w' [E _]]. eauto. Qed.

Lemma timeless_mkdir : timeless mkdir.
Proof. unfold mkdir. steady. Qed.

Lemma timeless_readUsersFile : timeless readUsersFile.
Proof. unfold readUsersFile. steady. Qed.

Lemma timeless_writeUsersFile users : timeless (writeUsersFile users).
Proof. unfold writeUsersFile. steady. Qed.

(** Neither [writeUsers] nor [readUsers] reads the clock. *)
Lemma timeless_writeUsers users : timeless (writeUsers users).
Proof.
  unfold writeUsers, readBackup.
  repeat first [ apply timeless_mkdir | apply timeless_readUsersFile
               | apply timeless_writeUsersFile | progress steady ].
Qed.

Lemma timeless_readUsers : timeless readUsers.
Proof.
  unfold readUsers.
  repeat first [ apply timeless_mkdir | apply timeless_readUsersFile
               | apply timeless_writeUsers | progress steady ].
Qed.

Lemma mkdir_mirror w r w' :
  mkdir w = (r, w') -> inMemoryUsers w' = inMemoryUsers w.
Proof.
  unfold mkdir. intro Hrun. apply bindIO_inv in Hrun.
  destruct Hrun as [[f [w1 [Hf Hrun]]] | [e [Hf _]]].
  - apply nextFault_keeps in Hf. destruct Hf as [_ [_ [Hm _]]].
    destruct f; unfold throw, ret in Hrun; inversion Hrun; subst; exact Hm.
  - apply nextFault_keeps in Hf. destruct Hf as [_ [_ [_ [f' Hf']]]]. discriminate.
Qed.

Lemma readUsersFile_mirror w r w' :
  readUsersFile w = (r, w') -> inMemoryUsers w' = inMemoryUsers w.
Proof.
  unfold readUsersFile. intro Hrun. apply bindIO_inv in Hrun.
  destruct Hrun as [[f [w1 [Hf Hrun]]] | [e [Hf _]]].
  - apply nextFault_keeps in Hf. destruct Hf as [_ [_ [Hm _]]].
    destruct f as [| | | other].
    + unfold readContent in Hrun.
      destruct (usersFile w1); unfold throw, ret in Hrun; inversion Hrun; subst; exact Hm.
    + unfold throw in Hrun. inversion Hrun; subst; exact Hm.
    + unfold throw in Hrun. inversion Hrun; subst; exact Hm.
    + unfold bindIO, setUsersFile, readContent in Hrun.
      destruct other; unfold throw, ret in Hrun; inversion Hrun; subst; exact Hm.
  - apply nextFault_keeps in Hf. destruct Hf as [_ [_ [_ [f' Hf']]]]. discriminate.
Qed.

(** With a mirror that is not [null], [readUsers] does not throw. *)
Lemma readUsers_returns w :
  inMemoryUsers w <> UNull -> exists users w', readUsers w = (Normal users, w').
Proof.
  intro Hmirror. unfold readUsers, tryCatchIO.
  destruct (bindIO mkdir _ w) as [[users | e] w1] eqn:Hbody; [ eauto | ].
  destruct (isENOENT e).
  - destruct (writeUsers_true (UArray []) w1) as [w2 [E _]].
    unfold bindIO. rewrite E. eexists. eexists. reflexivity.
  - assert (Hsame : inMemoryUsers w1 = inMemoryUsers w).
    { apply bindIO_inv in Hbody.
      destruct Hbody as [[[] [w2 [Hmk Hbody]]] | [e' [Hmk _]]];
        [ | exact (mkdir_mirror _ Hmk) ].
      apply mkdir_mirror in Hmk. rewrite <- Hmk.
      apply bindIO_inv in Hbody.
      destruct Hbody as [[data [w3 [Hrd Hbody]]] | [e' [Hrd _]]];
        [ | exact (readUsersFile_mirror _ Hrd) ].
      apply readUsersFile_mirror in Hrd. rewrite <- Hrd.
      destruct (isBlank data); [ discriminate | ].
      apply bindIO_inv in Hbody.
      destruct Hbody as [[users [w4 [Hp Hbody]]] | [e' [Hp _]]];
        unfold lift in Hp; injection Hp as _ <-; [ | reflexivity ].
      apply bindIO_inv in Hbody.
      destruct Hbody as [[n [w5 [Hl Hbody]]] | [e' [Hl _]]];
        unfold lift in Hl; injection Hl as _ <-; [ | reflexivity ].
      discriminate. }
    unfold bindIO, getInMemoryUsers, lift, ret. rewrite Hsame.
    destruct (inMemoryUsers w) as [l | | n]; [ | contradiction | ]; simpl; eauto.
Qed.

(** What the input checks see in fields that are strings. *)
Lemma password_length password :
  (n <- getLength (JString password) ;; lessThan n 6%Q) = Normal (length password <? 6).
Proof.
  simpl. f_equal. unfold Number.ofNat.
  destruct (length password <? 6) eqn:E.
  - apply Nat.ltb_lt in E. apply negb_true_iff.
    destruct (Qle_bool 6 (inject_Z (Z.of_nat (length password)))) eqn:Hq; [ | reflexivity ].
    apply Qle_bool_iff in Hq. unfold Qle in Hq. simpl in Hq. lia.
  - apply Nat.ltb_ge in E. apply negb_false_iff.
    apply Qle_bool_iff. unfold Qle. simpl. lia.
Qed.

Lemma truthy_nonempty (s : jsstring) : truthy s = true <-> s <> [].
Proof.
  destruct s; simpl; split; intro E; try discriminate; try reflexivity.
  contradiction.
Qed.

Lemma includes_nonempty (s sub : jsstring) : sub <> [] -> includes s sub = true -> s <> [].
Proof. intros Hsub Hin ->. destruct sub; [ congruence | discriminate ]. Qed.

Lemma valid_passes email password name :
  validRegistration email password name -> passesChecks (registration email password name).
Proof.
  intros [Hlen [Hat Hname]]. unfold passesChecks, registration, falsy, given; cbn [RegisterBody.email RegisterBody.password RegisterBody.name truthyJson].
  repeat split.
  - apply negb_false_iff, truthy_nonempty. eapply includes_nonempty; [ | exact Hat ]. discriminate.
  - apply negb_false_iff, truthy_nonempty. destruct password; simpl in Hlen; [ lia | discriminate ].
  - apply negb_false_iff, truthy_nonempty. exact Hname.
  - rewrite password_length. f_equal. apply Nat.ltb_ge. exact Hlen.
  - simpl. f_equal. exact Hat.
Qed.

(** [find] with the callback of the routes, for an address that is a string. *)
Lemma findByEmail_string users email :
  findByEmail (UArray users) (JString email) = Normal (accountOf users email).
Proof.
  unfold findByEmail, accountOf.
  induction users as [| u t IH]; simpl; [ reflexivity | ].
  destruct (eqb_str (User.email u) (toLowerCase email)); [ reflexivity | exact IH ].
Qed.

Lemma bindIO_normal {A B} (c : io A) (k : A -> io B) w a w1 :
  c w = (Normal a, w1) -> bindIO c k w = k a w1.
Proof. intro E. unfold bindIO. rewrite E. reflexivity. Qed.

Lemma bindIO_lift {A B} (a : A) (k : A -> io B) w :
  bindIO (lift (Normal a)) k w = k a w.
Proof. reflexivity. Qed.

Lemma register_existing req email w users w1 account :
  passesChecks req ->
  RegisterBody.email req = Some (JString email) ->
  readUsers w = (Normal (UArray users), w1) ->
  accountOf users email = Some account ->
  register req w = (conflict, w1).
Proof.
  intros [He [Hp [Hn [Hlen Hat]]]] Hemail Hread Hfind.
  unfold register, answer, registerBody.
  rewrite He, Hp, Hn. cbn [orb].
  rewrite Hlen, bindIO_lift, Hat, bindIO_lift. cbn [negb].
  rewrite bindIO_normal with (1 := Hread). cbn [lengthOf]. rewrite bindIO_lift.
  rewrite Hemail. cbn [given]. rewrite findByEmail_string, Hfind, bindIO_lift.
  reflexivity.
Qed.

Lemma login_wrong_password email password w users w1 account :
  email <> [] -> password <> [] ->
  readUsers w = (Normal (UArray users), w1) ->
  accountOf users email = Some account ->
  bcryptCompare password (User.password account) = false ->
  login (credentials email password) w = (unauthorized, w1).
Proof.
  intros He Hp Hread Hfind Hwrong.
  apply truthy_nonempty in He, Hp.
  unfold login, answer, loginBody, credentials, falsy.
  cbn [LoginBody.email LoginBody.password truthyJson given]. rewrite He, Hp. cbn [negb orb].
  rewrite bindIO_normal with (1 := Hread). cbn [lengthOf]. rewrite bindIO_lift.
  rewrite findByEmail_string, Hfind, bindIO_lift.
  cbn [compare]. rewrite Hwrong, bindIO_lift. reflexivity.
Qed.

Lemma login_unknown_email req email w users w1 :
  completeLogin req ->
  LoginBody.email req = Some (JString email) ->
  readUsers w = (Normal (UArray users), w1) ->
  accountOf users email = None ->
  login req w = (unauthorized, w1).
Proof.
  intros [He Hp] Hemail Hread Hfind.
  unfold login, answer, loginBody.
  rewrite He, Hp. cbn [orb].
  rewrite bindIO_normal with (1 := Hread). cbn [lengthOf]. rewrite bindIO_lift.
  rewrite Hemail. cbn [given]. rewrite findByEmail_string, Hfind, bindIO_lift.
  reflexivity.
Qed.

(** When the directory can be made and the file read, [readUsers] returns
    the array that the file holds. *)
Lemma readUsers_reads w users :
  readable w -> usersFile w = Present (Encodes (UArray users)) ->
  exists w1, readUsers w = (Normal (UArray users), w1).
Proof.
  destruct w as [uf sf mem clk lat ent rem fs]. unfold readable. simpl.
  intros Hcalm ->.
  destruct fs as [| f1 [| f2 rest]]; simpl in Hcalm.
  - eexists. reflexivity.
  - inversion Hcalm; subst. eexists. reflexivity.
  - inversion Hcalm as [| ? ? E1 Hrest]; subst. inversion Hrest; subst.
    eexists. reflexivity.
Qed.

End WithCrypto.
End AccountFacts.

(** C7, as the code has it.  A registration that passes the input checks
    (three fields that are truthy, a password whose [length] is not below 6,
    an address with an [@]) and whose address is a string with its lower-case
    form among the users that [readUsers] returned is answered with 409 and
    nothing else; a login with a string for the address and a string for the
    password, neither empty, for an address among the users that [readUsers]
    returned and a password that [bcrypt.compare] does not accept is
    answered with 401 and the very body that an unknown address gets.  What
    [readUsers] returns is the array of the file whenever the directory can
    be made and the file read. *)
Theorem duplicate_email_conflict_wrong_password_unauthorized `{Crypto} :
  (forall req email w users w1 account,
     AccountSpec.passesChecks req ->
     Auth.RegisterBody.email req = Some (JString email) ->
     Auth.readUsers w = (Normal (UArray users), w1) ->
     AccountSpec.accountOf users email = Some account ->
     Auth.register req w
       = ({| status := 409;
             body := Failure (Auth.str "User with this email already exists") |}, w1))
  /\ (forall email password w users w1 account,
        email <> [] -> password <> [] ->
        Auth.readUsers w = (Normal (UArray users), w1) ->
        AccountSpec.accountOf users email = Some account ->
        bcryptCompare password (User.password account) = false ->
        Auth.login (AccountSpec.credentials email password) w
          = ({| status := 401; body := Failure (Auth.str "Invalid email or password") |}, w1))
  /\ (forall req email w users w1,
        AccountSpec.completeLogin req ->
        Auth.LoginBody.email req = Some (JString email) ->
        Auth.readUsers w = (Normal (UArray users), w1) ->
        AccountSpec.accountOf users email = None ->
        Auth.login req w
          = ({| status := 401; body := Failure (Auth.str "Invalid email or password") |}, w1))
  /\ (forall email password name,
        AccountSpec.validRegistration email password name ->
        AccountSpec.passesChecks (AccountSpec.registration email password name))
  /\ (forall w users,
        AccountSpec.readable w ->
        usersFile w = Present (Encodes (UArray users)) ->
        exists w1, Auth.readUsers w = (Normal (UArray users), w1)).
Proof.
  split; [ | split; [ | split; [ | split ] ] ].
  - intros. eapply AccountFacts.register_existing; eassumption.
  - intros. eapply AccountFacts.login_wrong_password; eassumption.
  - intros. eapply AccountFacts.login_unknown_email; eassumption.
  - intros. apply AccountFacts.valid_passes. assumption.
  - intros. apply AccountFacts.readUsers_reads; assumption.
Qed.

Lemma duplicate_email_conflict_witness :
  status (fst (Auth.register AccountExamples.aliceAgain AccountExamples.withAlice)) = 409
  /\ status (fst (Auth.login AccountExamples.aliceWrongPassword AccountExamples.withAlice)) = 401.
Proof.
  destruct (duplicate_email_conflict_wrong_password_unauthorized
              (H := AccountExamples.plainCrypto)) as [Hregister [Hlogin _]].
  split.
  - rewrite (Hregister AccountExamples.aliceAgain
                       (list_ascii_of_string "Alice@Example.com")
                       AccountExamples.withAlice
                       [AccountExamples.alice] AccountExamples.withAlice
                       AccountExamples.alice).
    + reflexivity.
    + repeat split; vm_compute; reflexivity.
    + reflexivity.
    + vm_compute. reflexivity.
    + vm_compute. reflexivity.
  - unfold AccountExamples.aliceWrongPassword.
    rewrite (Hlogin (list_ascii_of_string "alice@example.com")
                    (list_ascii_of_string "wrong horse")
                    AccountExamples.withAlice
                    [AccountExamples.alice] AccountExamples.withAlice
                    AccountExamples.alice).
    + reflexivity.
    + discriminate.
    + discriminate.
    + vm_compute. reflexivity.
    + vm_compute. reflexivity.
    + vm_compute. reflexivity.
Defined.

(** C7, as the specification states it, fails in three ways.  Alice's
    address is in the store, yet a registration for it with a password of
    five characters is answered with 400, and a login for it with an empty
    password, which is not her password, is answered with 400 as well.  A
    login for it with the number 1234567 as the password, which is not her
    password either, is answered with 500.  And in a process that has just
    started and fails to read the file that holds Alice, a registration for
    her address is answered with 201, and the file then holds the new record
    in place of hers. *)
Lemma existing_email_without_conflict :
  AccountSpec.accountOf [AccountExamples.alice] (list_ascii_of_string "alice@example.com")
    = Some AccountExamples.alice
  /\ fst (Auth.register AccountExamples.aliceShortPassword AccountExamples.withAlice)
     = {| status := 400;
          body := Failure (Auth.str "Password must be at least 6 characters long") |}
  /\ status (fst (Auth.register AccountExamples.aliceShortPassword AccountExamples.withAlice))
     <> 409
  /\ bcryptCompare [] (User.password AccountExamples.alice) = false
  /\ fst (Auth.login AccountExamples.aliceEmptyPassword AccountExamples.withAlice)
     = {| status := 400; body := Failure (Auth.str "Email and password are required") |}
  /\ status (fst (Auth.login AccountExamples.aliceEmptyPassword AccountExamples.withAlice))
     <> 401
  /\ fst (Auth.login AccountExamples.aliceNumericPassword AccountExamples.withAlice)
     = AccountSpec.serverError "Internal server error during login"
  /\ usersFile AccountExamples.unreadable = Present (Encodes (UArray [AccountExamples.alice]))
  /\ status (fst (Auth.register AccountExamples.aliceAgain AccountExamples.unreadable)) = 201
  /\ usersFile (snd (Auth.register AccountExamples.aliceAgain AccountExamples.unreadable))
     = Present (Encodes (UArray
         [ AccountSpec.newUserOf (list_ascii_of_string "Alice@Example.com")
                                 (list_ascii_of_string "another password")
                                 (list_ascii_of_string "Alice")
                                 AccountExamples.unreadable ])).
Proof.
  repeat split; try (vm_compute; reflexivity); vm_compute; discriminate.
Qed.

Module RegistrationFacts.
Import AccountSpec.
Section WithCrypto.
Context `{Crypto}.
Import Auth.





(** A registration of three strings that pass the checks, for an address
    that [readUsers] did not return: the record is built from three readings
    of the clock, written, and the token is issued at the fourth. *)
Lemma register_new email password name w users w1 :
  validRegistration email password name ->
  readUsers w = (Normal (UArray users), w1) ->
  accountOf users email = None ->
  exists w2,
    writeUsers (UArray (users ++ [newUserOf email password name w1]))
               (Nat.iter 3 advance w1) = (Normal true, w2)
    /\ register (registration email password name) w
       = ({| status := 201;
             body := Success (str "User registered successfully")
                             (jwtSign (timeToString (reading 0 w1)) (toLowerCase email)
                                      (reading 3 w1))
                             (publicUser (newUserOf email password name w1) false) |},
          advance w2)
    /\ inMemoryUsers w2 = UArray (users ++ [newUserOf email password name w1]).
Proof.
  intros Hvalid Hread Hfind.
  destruct (AccountFacts.valid_passes Hvalid) as [He [Hp [Hn [Hlen Hat]]]].
  destruct (AccountFacts.writeUsers_true
              (UArray (users ++ [newUserOf email password name w1]))
              (Nat.iter 3 advance w1)) as [w2 [Hwrite Hmem]].
  exists w2. split; [ exact Hwrite | ]. split; [ | exact Hmem ].
  destruct (AccountFacts.timeless_writeUsers _ _ Hwrite) as [Hclock _].
  unfold register, answer, registerBody.
  rewrite He, Hp, Hn. cbn [orb].
  rewrite Hlen, AccountFacts.bindIO_lift, Hat, AccountFacts.bindIO_lift. cbn [negb].
  rewrite AccountFacts.bindIO_normal with (1 := Hread). cbn [lengthOf].
  rewrite AccountFacts.bindIO_lift.
  unfold registration. cbn [RegisterBody.email RegisterBody.password RegisterBody.name given].
  rewrite AccountFacts.findByEmail_string, Hfind, AccountFacts.bindIO_lift.
  cbn [hash toLowerCaseOf trimOf push].
  unfold bindIO at 1. unfold bindIO at 1. cbn [drawSalt ret].
  unfold bindIO at 1. cbn [dateNow].
  rewrite !AccountFacts.bindIO_lift.
  unfold bindIO at 1. unfold bindIO at 1. cbn [dateNow].
  rewrite AccountFacts.bindIO_lift.
  change (advance (advance (advance w1))) with (Nat.iter 3 advance w1).
  match goal with
  | |- context [writeUsers (UArray (users ++ [?u]))] =>
      change u with (newUserOf email password name w1)
  end.
  unfold bindIO at 1. rewrite Hwrite. cbn [negb].
  unfold bindIO, dateNow, reply, ret. rewrite Hclock. reflexivity.
Qed.

End WithCrypto.
End RegistrationFacts.




(** ** The remote summary and its fallback *)

Module RemoteFacts.
Import RemoteSpec.
Import AIService.

Ltac split_matches :=
  repeat match goal with
         | |- context [match ?x with _ => _ end] => destruct x eqn:?; simpl
         end.

(** The summary of a decoded success response, step by step. *)
Lemma generateSummary_decoded text status result :
  responseOk status = true ->
  generateSummary text (FetchResponse status (Some result))
  = match getNamed result (str "error") with
    | Throw _ => fallback text
    | Normal error =>
        match throwIfSet error with
        | Throw _ => fallback text
        | Normal _ =>
            match summaryText result with
            | Some summary => Normal summary
            | None => fallback text
            end
        end
    end.
Proof.
  intro Hok.
  unfold generateSummary, tryCatch, remoteSummary, fallback, summaryText, bind.
  rewrite Hok. cbn [negb].
  destruct (getNamed result (str "error")) as [error |]; [ | reflexivity ].
  destruct (throwIfSet error); [ | reflexivity ].
  destruct (getFirst result) as [first |]; [ | reflexivity ].
  destruct (getNamedOptional first (str "summary_text")) as [v |]; [ | reflexivity ].
  destruct (truthyJson v); reflexivity.
Qed.

Lemma generateSummary_falls_back text reply :
  remoteFailure reply -> generateSummary text reply = fallback text.
Proof.
  intro Hfail. destruct Hfail as [e | status body Hbad | status | status result e He Ht
                                 | status result Hnone].
  - reflexivity.
  - unfold generateSummary, remoteSummary. rewrite Hbad. reflexivity.
  - unfold generateSummary, remoteSummary. destruct (responseOk status); reflexivity.
  - destruct (responseOk status) eqn:Hok.
    + rewrite generateSummary_decoded by exact Hok.
      rewrite He. simpl. rewrite Ht. reflexivity.
    + unfold generateSummary, remoteSummary. rewrite Hok. reflexivity.
  - destruct (responseOk status) eqn:Hok.
    + rewrite generateSummary_decoded by exact Hok.
      rewrite Hnone. split_matches; reflexivity.
    + unfold generateSummary, remoteSummary. rewrite Hok. reflexivity.
Qed.

(** No exception leaves [generateSummary], whatever the remote call does. *)
Lemma generateSummary_completes text reply :
  exists summary, generateSummary text reply = Normal summary.
Proof.
  unfold generateSummary, tryCatch.
  destruct (remoteSummary text reply) as [summary | e]; eexists; reflexivity.
Qed.

End RemoteFacts.

(** C8. When the remote call fails (a rejected [fetch], a status outside
    200..299 such as 503, a body that does not decode, a decoded payload whose
    [error] property is set, or one without a text at
    [result[0].summary_text]), [generateSummary] completes normally with the
    rule-based summary of the text, which is a non-empty string; and it
    completes normally whatever the remote call does. *)
Theorem remote_failure_falls_back (text : jsstring) (reply : fetched) :
  RemoteSpec.remoteFailure reply ->
  AIService.generateSummary text reply
    = Normal (JString (AIService.generateSmartSummary text))
  /\ truthy (AIService.generateSmartSummary text) = true
  /\ (forall body,
        AIService.generateSummary text (FetchResponse 503 body)
          = Normal (JString (AIService.generateSmartSummary text)))
  /\ (forall anyReply,
        exists summary, AIService.generateSummary text anyReply = Normal summary).
Proof.
  intro Hfail.
  split; [ apply RemoteFacts.generateSummary_falls_back; exact Hfail | ].
  split; [ apply summary_truthy | ].
  split.
  - intro body. apply RemoteFacts.generateSummary_falls_back.
    apply RemoteSpec.status_not_ok. reflexivity.
  - intro anyReply. apply RemoteFacts.generateSummary_completes.
Qed.

Lemma remote_failure_falls_back_witness :
  AIService.generateSummary sampleText RemoteSpec.modelLoading
    = Normal (JString (AIService.generateSmartSummary sampleText))
  /\ truthy (AIService.generateSmartSummary sampleText) = true.
Proof.
  destruct (remote_failure_falls_back sampleText (reply := RemoteSpec.modelLoading)) as [Hsum [Hne _]].
  - apply RemoteSpec.status_not_ok. reflexivity.
  - split; [ exact Hsum | exact Hne ].
Defined.

(** ** Determinism of the quiz *)

Module DeterminismFacts.
Import DeterminismSpec.
Import Study.

Lemma feature_pure {A} features name (a fallback : A) w :
  feature features name (ret a) fallback w
  = (Normal (if wants features name then Some a else None), w).
Proof. unfold feature. destruct (wants features name); reflexivity. Qed.

Lemma feature_summary text features fallback w :
  exists summary,
    feature features "summary"
      (reply <~ awaitFetch ;; lift (AIService.generateSummary text reply)) fallback w
    = (Normal summary, w).
Proof.
  unfold feature. destruct (wants features "summary"); [ | eexists; reflexivity ].
  unfold bindIO, tryCatchIO, awaitFetch, lift, ret.
  destruct (RemoteFacts.generateSummary_completes text (remote w)) as [summary ->].
  eexists. reflexivity.
Qed.

(** The results always arrive, and their quiz is that of the rule-based
    generator: a function of the text alone. *)
Lemma generateAIResults_quiz text features w :
  exists results,
    generateAIResults text features w = (Normal results, w)
    /\ Results.quiz results
       = if wants features "quiz" then Some (AIService.generateSmartQuiz text) else None.
Proof.
  unfold generateAIResults.
  destruct (feature_summary text features
              (JString (str "AI summary generation is temporarily unavailable. Please try again later."))
              w) as [summary Hs].
  unfold bindIO at 1. rewrite Hs.
  unfold bindIO at 1. rewrite feature_pure.
  unfold bindIO at 1. rewrite feature_pure.
  unfold bindIO at 1. rewrite feature_pure.
  eexists. split; reflexivity.
Qed.

Lemma quizIn_text text features w :
  quizIn text features w
  = if wants features "quiz" then Some (AIService.generateSmartQuiz text) else None.
Proof.
  unfold quizIn. destruct (generateAIResults_quiz text features w) as [results [-> Hq]].
  exact Hq.
Qed.

End DeterminismFacts.

Module RouteFacts.
Import Study DeterminismSpec.

(** The quiz among the results that are sent. *)
Lemma quiz_property results :
  getNamedOptional (Some (resultsJSON results)) (str "quiz")
  = option_map (fun quiz => JArray (map questionJSON quiz)) (Results.quiz results).
Proof. destruct results as [[s |] [q |] [f |] [k |]]; reflexivity. Qed.

Lemma process_quiz userId text features w :
  studyStatus (fst (process userId text features w)) = 200 ->
  exists t names,
    text = Some (JString t)
    /\ selected features = Some names
    /\ answeredQuiz (fst (process userId text features w))
       = if wants names "quiz"
         then Some (JArray (map questionJSON (AIService.generateSmartQuiz (trim t))))
         else None.
Proof.
  destruct (process userId text features w) as [r w1] eqn:Hrun. simpl. intro Hok.
  unfold process in Hrun.
  destruct (processBody userId text features w) as [[r' | e] w2] eqn:Hbody;
    injection Hrun as <- <-; [ | discriminate ].
  unfold processBody in Hbody.
  destruct text as [text |];
    [ | unfold ret in Hbody; injection Hbody as <- <-; discriminate ].
  destruct (truthyJson text); cbn [negb] in Hbody;
    [ | unfold ret in Hbody; injection Hbody as <- <-; discriminate ].
  apply bindIO_inv in Hbody.
  destruct Hbody as [[trimmed [w3 [Htrim Hbody]]] | [e [_ Habs]]]; [ | discriminate ].
  unfold lift in Htrim. injection Htrim as Htrim <-.
  destruct text as [| b | q | t | items | props]; try discriminate.
  cbn [trimOf] in Htrim, Hbody. injection Htrim as <-.
  destruct (length (trim t) <? 30);
    [ unfold ret in Hbody; injection Hbody as <- <-; discriminate | ].
  destruct (selected features) as [names |];
    [ | unfold ret in Hbody; injection Hbody as <- <-; discriminate ].
  apply bindIO_inv in Hbody.
  destruct Hbody as [[cleanText [w4 [Hclean Hbody]]] | [e [_ Habs]]]; [ | discriminate ].
  unfold lift in Hclean. injection Hclean as <- <-.
  apply bindIO_inv in Hbody.
  destruct Hbody as [[results [w3 [Hres Hrest]]] | [e [_ Habs]]]; [ | discriminate ].
  destruct (DeterminismFacts.generateAIResults_quiz (trim t) names w)
    as [results' [Hr Hquiz]].
  rewrite Hr in Hres. injection Hres as <- <-.
  apply bindIO_inv in Hrest.
  destruct Hrest as [[session [w4 [_ Hret]]] | [e [_ Habs]]]; [ | discriminate ].
  unfold ret in Hret. injection Hret as <- <-.
  exists t, names. split; [ reflexivity | ]. split; [ reflexivity | ].
  unfold answeredQuiz. cbn [studyBody]. rewrite quiz_property, Hquiz.
  destruct (wants names "quiz"); reflexivity.
Qed.

End RouteFacts.

(** C9. Quiz generation is a function of the text: the quiz that a request
    receives does not depend on the world in which it is served (clock, salt,
    files, pending faults, the answer of the inference service), so two runs
    on the same text return the same questions with the same options in the
    same order, the same correct indices and the same explanations; so do
    two answers of the [/process] route to the same text, whoever asks.  The
    summary of the same request, in contrast, does depend on the world. *)
Theorem quiz_deterministic (text : jsstring) (features : list jsstring) (w1 w2 : World) :
  DeterminismSpec.quizIn text features w1 = DeterminismSpec.quizIn text features w2
  /\ DeterminismSpec.quizIn text features w1
     = (if Study.wants features "quiz"
        then Some (AIService.generateSmartQuiz text) else None)
  /\ AIService.generateQuiz text = AIService.generateSmartQuiz text
  /\ (forall user1 user2 body requested,
        studyStatus (fst (Study.process user1 body requested w1)) = 200 ->
        studyStatus (fst (Study.process user2 body requested w2)) = 200 ->
        DeterminismSpec.answeredQuiz (fst (Study.process user1 body requested w1))
        = DeterminismSpec.answeredQuiz (fst (Study.process user2 body requested w2)))
  /\ DeterminismSpec.summaryIn sampleText Study.allFeatures DeterminismSpec.offline
     <> DeterminismSpec.summaryIn sampleText Study.allFeatures DeterminismSpec.online.
Proof.
  split; [ rewrite !DeterminismFacts.quizIn_text; reflexivity | ].
  split; [ apply DeterminismFacts.quizIn_text | ].
  split; [ reflexivity | ].
  split.
  - intros user1 user2 body requested H1 H2.
    destruct (RouteFacts.process_quiz user1 body requested w1 H1)
      as [t1 [names1 [E1 [F1 ->]]]].
    destruct (RouteFacts.process_quiz user2 body requested w2 H2)
      as [t2 [names2 [E2 [F2 ->]]]].
    assert (t1 = t2) by congruence. assert (names1 = names2) by congruence.
    subst t2 names2. reflexivity.
  - vm_compute. discriminate.
Qed.

(** On a grid of lengths and places the rounded rationals of [Number] are
    the doubles of the kernel. *)
Example scores_agree_with_doubles :
  forallb (fun len => forallb (Binary64.scoresAgree len) [0; 1; 2; 3; 5; 7; 9; 10; 11; 14])
          (seq 16 50 ++ [0; 7; 100; 149; 150; 151; 200])
  = true.
Proof. vm_compute. reflexivity. Qed.

(** And the sign of [b.score - a.score] is the one that the kernel computes,
    on a grid that holds scores that are equal as fractions and differ as
    doubles. *)
Example comparator_agrees_with_doubles :
  let scores := Binary64.bothScores
                  (Binary64.grid [20; 30; 40; 50; 120; 150] [0; 8; 9; 10]) in
  forallb (fun a => forallb (Binary64.signsAgree a) scores) scores = true.
Proof. vm_compute. reflexivity. Qed.

(** Rounding matters: 30/50 and 20/50 + 1/5 are the same fraction, and the
    sentence of length 20 at place 9 still scores more than the sentence of
    length 30 at place 10. *)
Example rounding_breaks_a_tie :
  (30 # 50 == (20 # 50) + (1 # 5))%Q
  /\ (Binary64.sentenceScore 30 false false 10 < Binary64.sentenceScore 20 false false 9)%Q.
Proof. split; vm_compute; reflexivity. Qed.

(** The scenario of the specification. *)
Example specification_scenario :
  AIService.extractMainTopic sampleText = AIService.str "Machine"
  /\ AIService.extractKeyTerms sampleText
     = map AIService.str ["Concept"; "Theory"; "Application"; "Method"]
  /\ AIService.generateSmartSummary sampleText
     = AIService.str
         "Machine learning is important. It uses algorithms. Neural networks are key. [AI Enhanced Summary]"
  /\ map AIService.SummaryItem.position
         (sort AIService.summaryOrder (SummarySpec.candidates sampleText))
     = [0; 2; 1].
Proof. repeat split; vm_compute; reflexivity. Qed.

(* ================================================================== *)
(** * Further properties of the code                                    *)
(* ================================================================== *)

(** ** Lists and sorting *)

Section MoreListFacts.
Context {A : Type}.

Lemma NoDup_firstn_of (n : nat) (l : list A) : NoDup l -> NoDup (firstn n l).
Proof.
  intro H. rewrite <- (firstn_skipn n l) in H. apply NoDup_app_remove_r in H. exact H.
Qed.

(** Two lists in strictly increasing order that hold the same elements are
    the same list. *)
Lemma increasing_perm_eq (f : A -> nat) (l1 : list A) : forall l2,
  StronglySorted (fun a b => f a < f b) l1 ->
  StronglySorted (fun a b => f a < f b) l2 ->
  Permutation l1 l2 -> l1 = l2.
Proof.
  induction l1 as [| x t1 IH]; intros l2 H1 H2 Hp.
  - apply Permutation_nil in Hp. congruence.
  - destruct l2 as [| y t2].
    + apply Permutation_sym, Permutation_nil in Hp. discriminate.
    + apply StronglySorted_inv in H1. destruct H1 as [H1 Hx].
      apply StronglySorted_inv in H2. destruct H2 as [H2 Hy].
      rewrite Forall_forall in Hx, Hy.
      assert (E : x = y).
      { assert (Hxin : In x (y :: t2)) by (eapply Permutation_in; [ exact Hp | left; reflexivity ]).
        assert (Hyin : In y (x :: t1))
          by (eapply Permutation_in; [ apply Permutation_sym; exact Hp | left; reflexivity ]).
        destruct Hxin as [E | Hxin]; [ congruence | ].
        destruct Hyin as [E | Hyin]; [ congruence | ].
        specialize (Hx y Hyin). specialize (Hy x Hxin). lia. }
      subst y. f_equal. apply IH; try assumption.
      eapply Permutation_cons_inv. exact Hp.
Qed.

(** When everything fits, selecting the best [k] and putting them back in
    order gives the list back. *)
Lemma selected_all (rank : A -> A -> comparison) (pos : A -> nat) k l :
  StronglySorted lt (map pos l) -> length l <= k -> selected rank pos k l = l.
Proof.
  intros Hs Hk.
  apply (increasing_perm_eq pos).
  - apply selected_strictly_in_order.
    clear Hk. induction l as [| x t IH]; simpl in *; constructor.
    + apply StronglySorted_inv in Hs. destruct Hs as [Hs Hx].
      rewrite Forall_forall in Hx. intro Hin. specialize (Hx _ Hin). lia.
    + apply IH. apply StronglySorted_inv in Hs. tauto.
  - apply sorted_by_image. exact Hs.
  - unfold selected, slice0.
    rewrite firstn_all2 by (rewrite sort_length; exact Hk).
    eapply perm_trans; apply sort_perm.
Qed.

End MoreListFacts.

Section SortExt.
Context {A : Type}.

Lemma sort_ext (cmp1 cmp2 : A -> A -> comparison) l :
  (forall x y, In x l -> In y l -> (cmp1 x y = Gt <-> cmp2 x y = Gt)) ->
  sort cmp1 l = sort cmp2 l.
Proof.
  induction l as [| x t IH]; intro Hsame; simpl; [ reflexivity | ].
  rewrite <- IH by (intros; apply Hsame; simpl; tauto).
  apply insert_sorted_ext. intros y Hy. apply sort_In in Hy.
  apply Hsame; simpl; tauto.
Qed.

(** What a sort by a consistent comparator puts first does not have to follow
    any other element. *)
Lemma sort_head (cmp : A -> A -> comparison) l h rest :
  (forall a b, cmp a b = Gt -> precedes cmp b a) ->
  (forall a b c, precedes cmp a b -> precedes cmp b c -> precedes cmp a c) ->
  sort cmp l = h :: rest ->
  In h l /\ forall x, In x l -> x = h \/ precedes cmp h x.
Proof.
  intros Htot Htrans E.
  pose proof (sort_sorted Htot Htrans l) as Hs. rewrite E in Hs.
  apply StronglySorted_inv in Hs. destruct Hs as [_ Hh]. rewrite Forall_forall in Hh.
  split.
  - apply (sort_In cmp). rewrite E. left. reflexivity.
  - intros x Hx. apply (sort_In cmp) in Hx. rewrite E in Hx.
    destruct Hx as [-> | Hx]; [ left; reflexivity | right; apply Hh; exact Hx ].
Qed.

End SortExt.

(** ** The shape of the quiz and of the flashcards *)

Module QuizShape.
Import AIService.

Lemma quiz_exact text :
  exists term terms,
    extractKeyTerms text = term :: terms
    /\ generateSmartQuiz text
       = topicQuestion (extractMainTopic text) :: conceptQuestion term
         :: (if containsProcess text then [processQuestion] else []).
Proof.
  pose proof (QuizFacts.keyTerms_length text) as Hk.
  unfold generateSmartQuiz, slice0.
  rewrite QuizFacts.mainTopic_truthy.
  destruct (extractKeyTerms text) as [| term terms]; [ discriminate | ].
  exists term, terms. split; [ reflexivity | ].
  destruct (containsProcess text); rewrite QuizFacts.padQuestions_idle by (simpl; lia);
    reflexivity.
Qed.

Lemma generic_not_topic t : genericQuestion <> topicQuestion t.
Proof. intro E. apply (f_equal QuizQuestion.question) in E. vm_compute in E. discriminate. Qed.

Lemma generic_not_concept t : genericQuestion <> conceptQuestion t.
Proof. intro E. apply (f_equal QuizQuestion.question) in E. vm_compute in E. discriminate. Qed.

Lemma generic_not_process : genericQuestion <> processQuestion.
Proof. intro E. apply (f_equal QuizQuestion.question) in E. vm_compute in E. discriminate. Qed.

End QuizShape.

(** X1. The quiz always opens with the question on the main topic and the one on
    the first key term, and ends with the question on the process when the
    text names one: the loop that pads the quiz never runs and the generic
    question never appears.  The two middle options of the first question
    are the same distractor. *)
Theorem quiz_never_padded (text : jsstring) :
  (exists term terms,
     AIService.extractKeyTerms text = term :: terms
     /\ AIService.generateSmartQuiz text
        = AIService.topicQuestion (AIService.extractMainTopic text)
          :: AIService.conceptQuestion term
          :: (if AIService.containsProcess text then [AIService.processQuestion] else []))
  /\ ~ In AIService.genericQuestion (AIService.generateSmartQuiz text)
  /\ (forall q, nth_error (AIService.generateSmartQuiz text) 0 = Some q ->
        nth_error (AIService.QuizQuestion.options q) 1
        = nth_error (AIService.QuizQuestion.options q) 2).
Proof.
  destruct (QuizShape.quiz_exact text) as [term [terms [Hk Hq]]].
  split; [ exists term, terms; split; assumption | ].
  rewrite Hq. split.
  - intros [E | [E | E]].
    + symmetry in E. revert E. apply QuizShape.generic_not_topic.
    + symmetry in E. revert E. apply QuizShape.generic_not_concept.
    + destruct (AIService.containsProcess text); simpl in E; [ | exact E ].
      destruct E as [E | []]. symmetry in E. revert E. apply QuizShape.generic_not_process.
  - intros q E. simpl in E. inversion E; subst. reflexivity.
Qed.

Module FlashcardShape.
Import AIService CardSpec.

Lemma pushSteps_prefix steps : forall index flashcards,
  pushSteps index steps flashcards
  = flashcards ++ firstn (6 - length flashcards) (mapi_from index stepCard steps).
Proof.
  induction steps as [| step rest IH]; intros index flashcards; cbn [pushSteps mapi_from].
  - rewrite firstn_nil, app_nil_r. reflexivity.
  - rewrite IH. destruct (Nat.ltb_spec (length flashcards) 6) as [Hlt | Hge].
    + rewrite length_app. cbn [length].
      assert (E : 6 - length flashcards = S (6 - (length flashcards + 1))) by lia.
      rewrite E. cbn [firstn]. rewrite <- app_assoc. reflexivity.
    + assert (E : 6 - length flashcards = 0) by lia.
      rewrite E. reflexivity.
Qed.

Lemma flashcards_exact text :
  generateSmartFlashcards text
  = map (termCard text (contextSentences text)) (extractKeyTerms text)
    ++ (if containsProcess text
        then firstn 2 (mapi stepCard (extractProcessSteps text)) else []).
Proof.
  unfold generateSmartFlashcards, slice0. fold (contextSentences text).
  set (cards := map _ (extractKeyTerms text)).
  assert (Hc : length cards = 4).
  { unfold cards. rewrite length_map. apply QuizFacts.keyTerms_length. }
  destruct (containsProcess text).
  - rewrite pushSteps_prefix, Hc. change (6 - 4) with 2. fold (mapi stepCard (extractProcessSteps text)).
    rewrite FlashcardFacts.padFlashcards_idle
      by (rewrite length_app; lia).
    apply firstn_all2. rewrite length_app, length_firstn. lia.
  - rewrite FlashcardFacts.padFlashcards_idle by lia.
    rewrite app_nil_r. apply firstn_all2. lia.
Qed.

Lemma processSteps_length text : length (extractProcessSteps text) <= 3.
Proof. unfold extractProcessSteps, slice0. rewrite length_map, length_firstn. lia. Qed.

End FlashcardShape.

(** X2. The flashcards are one card for each of the four key terms, in their
    order, followed, when the text names a process, by the cards of its first
    two steps: the default cards are never used and a third step is never
    shown. *)
Theorem flashcards_are_terms_then_steps (text : jsstring) :
  AIService.generateSmartFlashcards text
  = map (AIService.termCard text (CardSpec.contextSentences text))
        (AIService.extractKeyTerms text)
    ++ (if AIService.containsProcess text
        then firstn 2 (mapi CardSpec.stepCard (AIService.extractProcessSteps text))
        else [])
  /\ map AIService.Flashcard.front (firstn 4 (AIService.generateSmartFlashcards text))
     = AIService.extractKeyTerms text
  /\ length (AIService.generateSmartFlashcards text)
     = 4 + (if AIService.containsProcess text
            then Nat.min 2 (length (AIService.extractProcessSteps text)) else 0).
Proof.
  pose proof (FlashcardShape.flashcards_exact text) as E.
  pose proof (QuizFacts.keyTerms_length text) as Hk.
  split; [ exact E | ].
  split.
  - rewrite E. rewrite firstn_app, length_map, Hk. simpl (4 - 4).
    rewrite firstn_O, app_nil_r, firstn_all2 by (rewrite length_map; lia).
    rewrite map_map. simpl. apply map_id.
  - rewrite E, length_app, length_map, Hk.
    destruct (AIService.containsProcess text); [ | reflexivity ].
    rewrite length_firstn, length_mapi. reflexivity.
Qed.

(** ** Key terms and the main topic *)

Module KeyTermShape.
Import AIService.

Lemma keyTerms_cases text :
  extractKeyTerms text = KeyTermSpec.genericFour
  \/ (NoDup (extractKeyTerms text)
      /\ Forall (fun term => In term (splitWords text)
                             /\ 6 < length term
                             /\ isAlphabetic term = true
                             /\ arrayIncludes commonTermWords (toLowerCase term) = false)
                (extractKeyTerms text)).
Proof.
  unfold extractKeyTerms, slice0.
  match goal with |- context [4 <=? ?n] => destruct (4 <=? n) end; [ right | left; reflexivity ].
  split.
  - apply NoDup_firstn_of, NoDup_filter, NoDup_firstn_of, KeyTermFacts.uniqueOf_NoDup.
  - apply Forall_forall. intros term Ht.
    apply In_firstn in Ht. apply filter_In in Ht. destruct Ht as [Ht Hq].
    apply In_firstn in Ht. rewrite KeyTermFacts.uniqueOf_In in Ht.
    apply filter_In in Ht. destruct Ht as [Ht Hlen].
    apply andb_true_iff in Hq. destruct Hq as [Hstop Halpha].
    apply Nat.ltb_lt in Hlen. apply negb_true_iff in Hstop. tauto.
Qed.

End KeyTermShape.

(** X3. Key-term extraction always returns four terms, no two of them equal:
    the generic four, or four tokens of the text, each longer than 6
    characters, made of letters only and no stopword. *)
Theorem key_terms_four_distinct (text : jsstring) :
  length (AIService.extractKeyTerms text) = 4
  /\ NoDup (AIService.extractKeyTerms text)
  /\ (AIService.extractKeyTerms text = KeyTermSpec.genericFour
      \/ Forall (fun term => In term (splitWords text)
                             /\ 6 < length term
                             /\ isAlphabetic term = true
                             /\ arrayIncludes AIService.commonTermWords (toLowerCase term) = false)
                (AIService.extractKeyTerms text)).
Proof.
  split; [ apply QuizFacts.keyTerms_length | ].
  destruct (KeyTermShape.keyTerms_cases text) as [E | [Hd Hf]].
  - split; [ | left; exact E ]. rewrite E.
    repeat constructor; simpl; intuition discriminate.
  - split; [ exact Hd | right; exact Hf ].
Qed.

Module TallyFacts.
Import AIService TopicSpec.

Lemma eqb_str_refl a : eqb_str a a = true.
Proof. apply eqb_str_eq. reflexivity. Qed.

Lemma eqb_str_sym a b : eqb_str a b = eqb_str b a.
Proof.
  destruct (eqb_str a b) eqn:E1, (eqb_str b a) eqn:E2; try reflexivity.
  - apply eqb_str_eq in E1. subst. rewrite eqb_str_refl in E2. discriminate.
  - apply eqb_str_eq in E2. subst. rewrite eqb_str_refl in E1. discriminate.
Qed.

Lemma eqb_str_neq a b : eqb_str a b = false <-> a <> b.
Proof.
  split.
  - intros E ->. rewrite eqb_str_refl in E. discriminate.
  - intro N. destruct (eqb_str a b) eqn:E; [ | reflexivity ].
    apply eqb_str_eq in E. contradiction.
Qed.

Lemma assoc_setProp {V} k k' (v : V) own :
  assoc k (setProp k' v own) = if eqb_str k k' then Some v else assoc k own.
Proof.
  induction own as [| [k0 v0] t IH]; simpl.
  - reflexivity.
  - destruct (eqb_str k' k0) eqn:E0; simpl.
    + apply eqb_str_eq in E0. subst k0. destruct (eqb_str k k'); reflexivity.
    + destruct (eqb_str k k0) eqn:E1.
      * apply eqb_str_eq in E1. subst k0.
        rewrite eqb_str_sym, E0. reflexivity.
      * exact IH.
Qed.

Lemma assoc_keys {V} k (own : list (jsstring * V)) :
  In k (map fst own) <-> assoc k own <> None.
Proof.
  induction own as [| [k0 v0] t IH]; simpl.
  - split; [ intros [] | congruence ].
  - destruct (eqb_str k k0) eqn:E.
    + apply eqb_str_eq in E. subst. split; [ discriminate | tauto ].
    + apply eqb_str_neq in E. rewrite <- IH. split; [ intros [-> | H]; tauto | tauto ].
Qed.

Lemma objectKeys_In {V} k (own : list (jsstring * V)) :
  In k (objectKeys own) <-> In k (map fst own).
Proof.
  unfold objectKeys. rewrite in_app_iff, sort_In, !filter_In.
  destruct (isArrayIndex k); simpl; intuition discriminate.
Qed.

Lemma occurrences_app w l1 l2 :
  occurrences w (l1 ++ l2) = occurrences w l1 + occurrences w l2.
Proof. unfold occurrences. rewrite filter_app, length_app. reflexivity. Qed.

Lemma occurrences_single w k : occurrences w [k] = if eqb_str w k then 1 else 0.
Proof. unfold occurrences. simpl. destruct (eqb_str w k); reflexivity. Qed.

Lemma occurrences_pos w l : 0 < occurrences w l <-> In w l.
Proof.
  unfold occurrences. induction l as [| x t IH]; simpl.
  - split; [ lia | tauto ].
  - destruct (eqb_str w x) eqn:E; simpl.
    + apply eqb_str_eq in E. subst. split; [ tauto | lia ].
    + apply eqb_str_neq in E. rewrite IH. split; [ tauto | intros [-> | H]; tauto ].
Qed.

(** [own] holds the count of every word of [seen] and nothing else. *)
Definition tallied (own : list (jsstring * freq)) (seen : list jsstring) : Prop :=
  forall k, assoc k own
            = if occurrences k seen =? 0 then None else Some (Count (occurrences k seen)).

Section Tally.
Variable bumpOf : list (jsstring * freq) -> jsstring -> freq.
Variable plain : jsstring -> Prop.
Hypothesis bump_count : forall own k n,
  plain k -> assoc k own = Some (Count n) -> bumpOf own k = Count (n + 1).
Hypothesis bump_first : forall own k,
  plain k -> assoc k own = None -> bumpOf own k = Count 1.

Definition tallyStep (own : list (jsstring * freq)) (k : jsstring) :=
  setProp k (bumpOf own k) own.

Lemma tally_step own seen k :
  plain k -> tallied own seen -> tallied (tallyStep own k) (seen ++ [k]).
Proof.
  intros Hk Hown k'. unfold tallyStep.
  rewrite assoc_setProp, occurrences_app, occurrences_single.
  destruct (eqb_str k' k) eqn:E.
  - apply eqb_str_eq in E. subst k'.
    specialize (Hown k).
    destruct (Nat.eqb_spec (occurrences k seen + 1) 0) as [| _]; [ lia | ].
    destruct (Nat.eqb_spec (occurrences k seen) 0) as [Hz | Hnz].
    + rewrite (bump_first _ Hk Hown), Hz. reflexivity.
    + rewrite (bump_count _ Hk Hown). reflexivity.
  - rewrite Nat.add_0_r. apply Hown.
Qed.

Lemma tally_fold l : forall own seen,
  Forall plain l -> tallied own seen -> tallied (fold_left tallyStep l own) (seen ++ l).
Proof.
  induction l as [| k t IH]; intros own seen Hl Hown; simpl.
  - rewrite app_nil_r. exact Hown.
  - apply Forall_cons_iff in Hl. destruct Hl as [Hk Ht].
    replace (seen ++ k :: t) with ((seen ++ [k]) ++ t) by (rewrite <- app_assoc; reflexivity).
    apply IH; [ exact Ht | ]. apply tally_step; assumption.
Qed.

Lemma tally_all l : Forall plain l -> tallied (fold_left tallyStep l []) l.
Proof.
  intro Hl. apply (tally_fold (own := []) (seen := []) Hl).
  intro k. reflexivity.
Qed.

End Tally.

Lemma tallied_keys own seen k : tallied own seen -> In k (map fst own) <-> In k seen.
Proof.
  intro H. rewrite assoc_keys, H, <- occurrences_pos.
  destruct (Nat.eqb_spec (occurrences k seen) 0); split; intro; try lia; congruence.
Qed.

(** The comparator [count b - count a]. *)
Definition byCount (seen : list jsstring) (a b : jsstring) : comparison :=
  signZ (Z.of_nat (occurrences b seen) - Z.of_nat (occurrences a seen)).

Lemma byCount_precedes seen a b :
  precedes (byCount seen) a b <-> occurrences b seen <= occurrences a seen.
Proof.
  unfold precedes, byCount, signZ.
  destruct (Z.compare_spec (Z.of_nat (occurrences b seen) - Z.of_nat (occurrences a seen)) 0);
    split; intro; try congruence; try lia.
Qed.

Lemma byCount_total seen a b : byCount seen a b = Gt -> precedes (byCount seen) b a.
Proof.
  intro E. apply byCount_precedes. unfold byCount, signZ in E.
  apply Z.compare_gt_iff in E. lia.
Qed.

Lemma byCount_trans seen a b c :
  precedes (byCount seen) a b -> precedes (byCount seen) b c -> precedes (byCount seen) a c.
Proof. rewrite !byCount_precedes. lia. Qed.

Lemma freqCompare_byCount own seen a b :
  tallied own seen -> In a seen -> In b seen -> freqCompare own a b = byCount seen a b.
Proof.
  intros H Ha Hb. unfold freqCompare. rewrite (H a), (H b).
  apply occurrences_pos in Ha, Hb.
  destruct (Nat.eqb_spec (occurrences a seen) 0); [ lia | ].
  destruct (Nat.eqb_spec (occurrences b seen) 0); [ lia | ].
  reflexivity.
Qed.

End TallyFacts.

Module TopicFacts.
Import AIService TopicSpec TallyFacts.

Definition plainWord (k : jsstring) : Prop := k <> str "constructor".

Lemma bump_counts own k n :
  plainWord k -> assoc k own = Some (Count n) -> bump own k = Count (n + 1).
Proof. intros _ E. unfold bump. rewrite E. reflexivity. Qed.

Lemma bump_starts own k : plainWord k -> assoc k own = None -> bump own k = Count 1.
Proof.
  intros Hk E. unfold bump. rewrite E.
  destruct (eqb_str k (str "constructor")) eqn:Ec; [ | reflexivity ].
  apply eqb_str_eq in Ec. contradiction.
Qed.

Lemma wordFreq_fold words : forall own,
  fold_left countWord words own
  = fold_left (tallyStep bump) (filter qualifies (map stripNonAlnum words)) own.
Proof.
  induction words as [| w t IH]; intro own; simpl; [ reflexivity | ].
  rewrite IH. unfold countWord, qualifies.
  destruct ((4 <? length (stripNonAlnum w))
            && negb (arrayIncludes commonTopicWords (stripNonAlnum w))); reflexivity.
Qed.

Lemma mainTopic_default text :
  topicWords text = [] -> extractMainTopic text = str "Learning Concepts".
Proof.
  intro E. unfold extractMainTopic. rewrite wordFreq_fold. fold (topicWords text).
  rewrite E. reflexivity.
Qed.

Lemma qualifies_truthy w : qualifies w = true -> truthy w = true.
Proof.
  unfold qualifies, truthy. intro H. apply andb_true_iff in H. destruct H as [H _].
  apply Nat.ltb_lt in H. destruct w; simpl in *; [ lia | reflexivity ].
Qed.

Lemma mainTopic_most_frequent text :
  ~ In (str "constructor") (topicWords text) ->
  topicWords text <> [] ->
  exists w,
    In w (topicWords text)
    /\ extractMainTopic text = capitalizeFirstLetter w
    /\ forall v, In v (topicWords text)
                 -> occurrences v (topicWords text) <= occurrences w (topicWords text).
Proof.
  intros Hplain Hne. unfold extractMainTopic. rewrite wordFreq_fold.
  fold (topicWords text). set (seen := topicWords text) in *.
  assert (Ht : tallied (fold_left (tallyStep bump) seen []) seen).
  { apply (@tally_all bump plainWord bump_counts bump_starts).
    apply Forall_forall. intros k Hk E. apply Hplain. rewrite <- E. exact Hk. }
  set (wordFreq := fold_left (tallyStep bump) seen []) in *.
  assert (Hkeys : forall k, In k (objectKeys wordFreq) <-> In k seen).
  { intro k. rewrite objectKeys_In. apply tallied_keys. exact Ht. }
  rewrite (sort_ext (freqCompare wordFreq) (byCount seen)).
  2:{ intros x y Hx Hy. rewrite (@freqCompare_byCount _ _ x y Ht); [ tauto | | ]; apply Hkeys; assumption. }
  destruct (sort (byCount seen) (objectKeys wordFreq)) as [| h rest] eqn:Es.
  - exfalso. destruct seen as [| k ks] eqn:Eseen; [ congruence | ].
    assert (Hk : In k (objectKeys wordFreq)) by (apply Hkeys; left; reflexivity).
    apply (sort_In (byCount (k :: ks))) in Hk. rewrite Es in Hk. exact Hk.
  - destruct (@sort_head _ (byCount seen) (objectKeys wordFreq) h rest
                         (@byCount_total seen) (@byCount_trans seen) Es) as [Hh Hbest].
    apply Hkeys in Hh. exists h. split; [ exact Hh | ]. split.
    + assert (Hq : qualifies h = true).
      { unfold seen, topicWords in Hh. apply filter_In in Hh. tauto. }
      rewrite (qualifies_truthy _ Hq). reflexivity.
    + intros v Hv. apply Hkeys in Hv. destruct (Hbest v Hv) as [-> | Hp]; [ lia | ].
      apply byCount_precedes in Hp. exact Hp.
Qed.

End TopicFacts.

(** X4. On a text without the word [constructor], the main topic is the
    capitalised form of a counted word that no counted word outnumbers; it is
    [Learning Concepts] when no word counts. *)
Theorem main_topic_is_a_most_frequent_word (text : jsstring) :
  ~ In (AIService.str "constructor") (TopicSpec.topicWords text) ->
  match TopicSpec.topicWords text with
  | [] => AIService.extractMainTopic text = AIService.str "Learning Concepts"
  | _ :: _ =>
      exists w,
        In w (TopicSpec.topicWords text)
        /\ AIService.extractMainTopic text = AIService.capitalizeFirstLetter w
        /\ forall v, In v (TopicSpec.topicWords text)
                     -> TopicSpec.occurrences v (TopicSpec.topicWords text)
                        <= TopicSpec.occurrences w (TopicSpec.topicWords text)
  end.
Proof.
  intro Hplain.
  destruct (TopicSpec.topicWords text) as [| k ks] eqn:E.
  - apply TopicFacts.mainTopic_default. exact E.
  - rewrite <- E in *. apply TopicFacts.mainTopic_most_frequent; [ exact Hplain | ].
    rewrite E. discriminate.
Qed.

Lemma main_topic_is_a_most_frequent_word_witness :
  exists w,
    In w (TopicSpec.topicWords sampleText)
    /\ AIService.extractMainTopic sampleText = AIService.capitalizeFirstLetter w
    /\ forall v, In v (TopicSpec.topicWords sampleText)
                 -> TopicSpec.occurrences v (TopicSpec.topicWords sampleText)
                    <= TopicSpec.occurrences w (TopicSpec.topicWords sampleText).
Proof.
  apply (main_topic_is_a_most_frequent_word sampleText).
  vm_compute. intuition discriminate.
Defined.

(** ** Short texts *)

Module ShortTexts.
Import AIService CardSpec.

Lemma summaryItems_sentences l : map SummaryItem.sentence (summaryItems l) = map trim l.
Proof.
  unfold summaryItems, mapi. generalize 0. induction l as [| s t IH]; intro i; simpl.
  - reflexivity.
  - rewrite IH. reflexivity.
Qed.

Lemma short_summary text :
  length (summarySentences text) <= 4 ->
  generateSmartSummary text
  = join (str ". ") (map trim (summarySentences text)) ++ str "." ++ summaryMarker.
Proof.
  intro Hlen. unfold generateSmartSummary.
  change (sort summaryPositionOrder (slice0 4 (sort summaryOrder (summaryItems (summarySentences text)))))
    with (selected summaryOrder SummaryItem.position 4 (SummarySpec.candidates text)).
  rewrite selected_all.
  - unfold SummarySpec.candidates. rewrite summaryItems_sentences, <- app_assoc. reflexivity.
  - rewrite SummaryFacts.summary_candidates_positions. apply seq_increasing.
  - unfold SummarySpec.candidates, summaryItems. rewrite length_mapi. exact Hlen.
Qed.

Lemma points_of_clean l : forall i j,
  Forall (fun s => forall c, In c s -> isTerminator c = false) l ->
  mapi_from i (fun item index =>
                 {| KeyPoint.id := index + 1;
                    KeyPoint.point :=
                      Scored.sentence item
                      ++ (if endsWith (Scored.sentence item) (str ".") then [] else str ".") |})
            (mapi_from j (fun sentence index =>
                            {| Scored.sentence := trim sentence;
                               Scored.score := scoreOf sentence index;
                               Scored.position := index |}) l)
  = mapi_from i pointOf l.
Proof.
  induction l as [| s t IH]; intros i j Hc; cbn [mapi_from]; [ reflexivity | ].
  apply Forall_cons_iff in Hc. destruct Hc as [Hs Ht].
  rewrite IH by exact Ht. f_equal. unfold pointOf. cbn [Scored.sentence]. f_equal.
  destruct (endsWith (trim s) (str ".")) eqn:E; [ | reflexivity ].
  apply endsWith_last in E. apply In_trim in E. apply Hs in E. discriminate.
Qed.

Lemma few_keyPoints text :
  length (keyPointSentences text) <= 5 ->
  extractSmartKeyPoints text = mapi pointOf (keyPointSentences text).
Proof.
  intro Hlen. unfold extractSmartKeyPoints.
  rewrite KeyPointFacts.topSentences_selected, selected_all.
  - unfold KeyPointSpec.candidates, scoredSentences, mapi.
    apply points_of_clean.
    pose proof (split_runs_clean isTerminator text) as Hclean.
    rewrite Forall_forall in *. intros s Hs. apply Hclean.
    unfold keyPointSentences in Hs. apply filter_In in Hs. tauto.
  - rewrite KeyPointFacts.scored_candidates_positions. apply seq_increasing.
  - unfold KeyPointSpec.candidates, scoredSentences. rewrite length_mapi. exact Hlen.
Qed.

Lemma keyPoints_count text :
  length (extractSmartKeyPoints text) = Nat.min 5 (length (keyPointSentences text)).
Proof.
  unfold extractSmartKeyPoints. rewrite length_mapi, KeyPointFacts.topSentences_selected.
  rewrite selected_length. unfold KeyPointSpec.candidates, scoredSentences.
  rewrite length_mapi. reflexivity.
Qed.

End ShortTexts.

(** X5. A text with at most four sentences of more than 10 characters is its
    own summary: the sentences, trimmed, in their order, joined by a full stop
    and a space, closed by a full stop and the marker. *)
Theorem short_text_is_its_own_summary (text : jsstring) :
  length (AIService.summarySentences text) <= 4 ->
  AIService.generateSmartSummary text
  = join (AIService.str ". ") (map trim (AIService.summarySentences text))
    ++ AIService.str "." ++ AIService.summaryMarker.
Proof. apply ShortTexts.short_summary. Qed.

Lemma short_text_is_its_own_summary_witness :
  AIService.generateSmartSummary sampleText
  = AIService.str ("Machine learning is important. It uses algorithms. "
                   ++ "Neural networks are key. [AI Enhanced Summary]").
Proof.
  rewrite (short_text_is_its_own_summary sampleText).
  - vm_compute. reflexivity.
  - vm_compute. repeat constructor.
Defined.

(** X6. There are as many key points as sentences of more than 15 characters, up
    to five; when there are at most five such sentences the key points are
    exactly these sentences, trimmed and closed by a full stop, in their
    order. *)
Theorem key_points_of_few_sentences (text : jsstring) :
  length (AIService.extractSmartKeyPoints text)
  = Nat.min 5 (length (AIService.keyPointSentences text))
  /\ (length (AIService.keyPointSentences text) <= 5 ->
      AIService.extractSmartKeyPoints text
      = mapi CardSpec.pointOf (AIService.keyPointSentences text)).
Proof.
  split; [ apply ShortTexts.keyPoints_count | apply ShortTexts.few_keyPoints ].
Qed.

(** ** The text of the remote model *)

Module RemoteSuccess.
Import AIService RemoteSpec.

Lemma summaryText_truthy result v : summaryText result = Some v -> truthyJson v = true.
Proof.
  unfold summaryText. destruct (getFirst result) as [first |]; [ | discriminate ].
  destruct (getNamedOptional first (str "summary_text")) as [x |]; [ | discriminate ].
  destruct (truthyJson x) eqn:E; [ | discriminate ].
  intro H. inversion H; subst. exact E.
Qed.

Lemma summaryText_not_null result v : summaryText result = Some v -> result <> JNull.
Proof. intros H E. subst. discriminate. Qed.

Lemma generateSummary_remote text status result v :
  responseOk status = true ->
  (forall e, getNamed result (str "error") = Normal (Some e) -> truthyJson e = false) ->
  summaryText result = Some v ->
  generateSummary text (FetchResponse status (Some result)) = Normal v.
Proof.
  intros Hok Herr Hv. rewrite RemoteFacts.generateSummary_decoded by exact Hok.
  destruct (getNamed result (str "error")) as [error |] eqn:E.
  - destruct error as [e |]; simpl.
    + rewrite (Herr e eq_refl). rewrite Hv. reflexivity.
    + rewrite Hv. reflexivity.
  - destruct result; try discriminate.
Qed.

(** What comes back is the rule-based summary or the text of the remote
    model. *)
Lemma generateSummary_cases text reply :
  generateSummary text reply = fallback text
  \/ exists status result v,
       reply = FetchResponse status (Some result)
       /\ responseOk status = true
       /\ summaryText result = Some v
       /\ generateSummary text reply = Normal v.
Proof.
  destruct reply as [e | status [result |]].
  - left. reflexivity.
  - destruct (responseOk status) eqn:Hok.
    + rewrite RemoteFacts.generateSummary_decoded by exact Hok.
      destruct (getNamed result (str "error")) as [error |]; [ | left; reflexivity ].
      destruct (throwIfSet error); [ | left; reflexivity ].
      destruct (summaryText result) as [v |] eqn:Hv; [ | left; reflexivity ].
      right. exists status, result, v. repeat split; try assumption; reflexivity.
    + left. apply RemoteFacts.generateSummary_falls_back. apply status_not_ok. exact Hok.
  - left. apply RemoteFacts.generateSummary_falls_back. apply body_not_json.
Qed.

End RemoteSuccess.

(** X7. When the inference API answers with a success status and a payload
    that has no [error] set and a truthy value at [result[0].summary_text],
    [generateSummary] returns that value as it is; and whatever the API does,
    the result is either such a value or the rule-based summary. *)
Theorem remote_summary_is_returned (text : jsstring) (status : nat) (result v : json) :
  responseOk status = true ->
  (forall e, getNamed result (AIService.str "error") = Normal (Some e) -> truthyJson e = false) ->
  RemoteSpec.summaryText result = Some v ->
  AIService.generateSummary text (FetchResponse status (Some result)) = Normal v
  /\ truthyJson v = true
  /\ (forall reply,
        AIService.generateSummary text reply = RemoteSpec.fallback text
        \/ exists status' result' v',
             reply = FetchResponse status' (Some result')
             /\ responseOk status' = true
             /\ RemoteSpec.summaryText result' = Some v'
             /\ AIService.generateSummary text reply = Normal v').
Proof.
  intros Hok Herr Hv.
  split; [ apply RemoteSuccess.generateSummary_remote; assumption | ].
  split; [ eapply RemoteSuccess.summaryText_truthy; exact Hv | ].
  intro reply. apply RemoteSuccess.generateSummary_cases.
Qed.

Lemma remote_summary_is_returned_witness :
  AIService.generateSummary sampleText (remote DeterminismSpec.online)
  = Normal (JString (AIService.str "Machines learn.")).
Proof.
  apply (@remote_summary_is_returned sampleText 200
           (JArray [ JObject [ (AIService.str "summary_text",
                                JString (AIService.str "Machines learn.")) ] ])
           (JString (AIService.str "Machines learn."))).
  - reflexivity.
  - intros e E. discriminate.
  - reflexivity.
Defined.

(** ** Keywords and indicators *)

Module IndicatorFacts.
Import IndicatorSpec.

Lemma startsWith_spec (s p : jsstring) :
  startsWith s p = true <-> exists rest, s = p ++ rest.
Proof.
  revert s. induction p as [| c p IH]; intro s; simpl.
  - split; [ intros _; exists s; reflexivity | intros _; destruct s; reflexivity ].
  - destruct s as [| d s']; simpl;
      [ split; [ discriminate | intros [rest E]; discriminate ] | ].
    rewrite andb_true_iff, IH. unfold eqb_char. rewrite Ascii.eqb_eq. split.
    + intros [-> [rest ->]]. exists rest. reflexivity.
    + intros [rest E]. injection E as -> ->. split; [ reflexivity | exists rest; reflexivity ].
Qed.

Lemma includes_spec (s sub : jsstring) : includes s sub = true <-> occursIn sub s.
Proof.
  unfold occursIn. induction s as [| c t IH]; cbn [includes].
  - rewrite orb_false_r, startsWith_spec. split.
    + intros [rest E]. exists [], rest. exact E.
    + intros [before [after E]]. destruct before; [ exists after; exact E | discriminate ].
  - rewrite orb_true_iff, startsWith_spec, IH. split.
    + intros [[rest E] | [before [after E]]].
      * exists [], rest. exact E.
      * exists (c :: before), after. rewrite E. reflexivity.
    + intros [[| b before] [after E]].
      * left. exists after. exact E.
      * right. injection E as -> ->. exists before, after. reflexivity.
Qed.

Lemma indicator_spec (indicators : list jsstring) (s : jsstring) :
  existsb (fun indicator => includes (toLowerCase s) indicator) indicators = true
  <-> exists indicator, In indicator indicators /\ occursIn indicator (toLowerCase s).
Proof.
  rewrite existsb_exists. split; intros [k [Hk Ho]]; exists k; (split; [ exact Hk | ]);
    apply includes_spec; exact Ho.
Qed.

End IndicatorFacts.

(** X8. A sentence has an important keyword exactly when its lower-case form
    contains one of the eight keywords, inside a longer word too; the tests
    for a definition and for a process read their indicators in the same
    way.  So a keyword counts in whatever case it is written. *)
Theorem indicators_are_substrings (s : jsstring) :
  (AIService.hasImportantKeywords s = true
   <-> exists k, In k IndicatorSpec.importantKeywords /\ IndicatorSpec.occursIn k (toLowerCase s))
  /\ (AIService.isDefinition s = true
      <-> exists k, In k IndicatorSpec.definitionIndicators
                    /\ IndicatorSpec.occursIn k (toLowerCase s))
  /\ (AIService.containsProcess s = true
      <-> exists k, In k IndicatorSpec.processIndicators /\ IndicatorSpec.occursIn k (toLowerCase s))
  /\ (forall before keyword after,
        In (toLowerCase keyword) IndicatorSpec.importantKeywords ->
        AIService.hasImportantKeywords (before ++ keyword ++ after) = true).
Proof.
  split; [ apply IndicatorFacts.indicator_spec | ].
  split; [ apply IndicatorFacts.indicator_spec | ].
  split; [ apply IndicatorFacts.indicator_spec | ].
  intros before keyword after Hk.
  apply (IndicatorFacts.indicator_spec IndicatorSpec.importantKeywords).
  exists (toLowerCase keyword). split; [ exact Hk | ].
  exists (toLowerCase before), (toLowerCase after).
  unfold toLowerCase. rewrite !map_app. reflexivity.
Qed.

(** ** The account store: reading, writing and signing in *)

Module StoreFacts.
Import StoreSpec.
Import Auth.

Ltac run_io :=
  cbv [writeUsers readUsers readBackup bindIO tryCatchIO mkdir nextFault readUsersFile
       writeUsersFile readContent setUsersFile setInMemoryUsers getInMemoryUsers
       throw ret lift parse isBlank isArray sameLength hasEntries lengthOf bind
       faults usersFile sessionsFile inMemoryUsers clock later entropy remote stored].

Lemma isENOENT_codes :
  isENOENT (SystemError (list_ascii_of_string "ENOENT")) = true
  /\ isENOENT (SystemError (list_ascii_of_string "EACCES")) = false
  /\ isENOENT (SystemError (list_ascii_of_string "EIO")) = false
  /\ isENOENT SyntaxError = false
  /\ isENOENT TypeError = false.
Proof. repeat split; reflexivity. Qed.

Ltac codes :=
  destruct isENOENT_codes as [Hnotfound [Haccess [Hio [Hsyntax Htype]]]];
  rewrite ?Hnotfound, ?Haccess, ?Hio, ?Hsyntax, ?Htype.

Lemma writeUsers_without_fault l w :
  faults w = [] ->
  writeUsers (UArray l) w = (Normal true, stored w (Present (Encodes (UArray l))) (UArray l)).
Proof.
  destruct w as [uf sf mem clk lat ent rem fs]. simpl. intros ->.
  destruct uf as [| [| | v]]; run_io; rewrite ?Nat.eqb_refl; reflexivity.
Qed.

Lemma readUsers_present l w :
  faults w = [] -> usersFile w = Present (Encodes (UArray l)) ->
  readUsers w = (Normal (UArray l), stored w (usersFile w) (UArray l)).
Proof.
  destruct w as [uf sf mem clk lat ent rem fs]. simpl. intros -> ->.
  run_io. reflexivity.
Qed.

(** What [readUsers] does for every state of the file, on a disk without
    faults. *)
Lemma readUsers_without_fault w :
  faults w = [] -> inMemoryUsers w <> UNull ->
  readUsers w
  = match usersFile w with
    | Absent => (Normal (UArray []), stored w (Present (Encodes (UArray []))) (UArray []))
    | Present Blank => (Normal (UArray []), w)
    | Present Malformed => (Normal (inMemoryUsers w), w)
    | Present (Encodes UNull) => (Normal (inMemoryUsers w), w)
    | Present (Encodes users) => (Normal users, stored w (usersFile w) users)
    end.
Proof.
  destruct w as [uf sf mem clk lat ent rem fs]. simpl. intros -> Hmirror.
  destruct uf as [| [| | [l | | n]]]; run_io; codes; run_io;
    try reflexivity;
    destruct mem as [l' | | n']; try contradiction; reflexivity.
Qed.

(** When the directory cannot be made or the file cannot be read, for another
    reason than a path that is not found, the mirror answers. *)
Lemma readUsers_io_error w rest :
  faults w = IOError :: rest \/ faults w = NoFault :: IOError :: rest ->
  inMemoryUsers w <> UNull ->
  fst (readUsers w) = Normal (inMemoryUsers w)
  /\ usersFile (snd (readUsers w)) = usersFile w
  /\ inMemoryUsers (snd (readUsers w)) = inMemoryUsers w.
Proof.
  destruct w as [uf sf mem clk lat ent rem fs]. simpl.
  intros [-> | ->] Hmirror; run_io; codes; run_io;
    destruct mem as [l' | | n']; try contradiction; simpl; auto.
Qed.

(** With a mirror that is [null], the handler of such an error throws when
    it reads the length of the mirror. *)
Lemma readUsers_null_mirror w rest :
  faults w = IOError :: rest \/ faults w = NoFault :: IOError :: rest ->
  inMemoryUsers w = UNull ->
  fst (readUsers w) = Throw TypeError.
Proof.
  destruct w as [uf sf mem clk lat ent rem fs]. simpl.
  intros [-> | ->] ->; run_io; codes; run_io; reflexivity.
Qed.

(** When the directory or the file is reported as not found, [readUsers]
    writes the empty array, whatever the file holds. *)
Lemma readUsers_not_found w rest :
  faults w = NotFound :: rest \/ faults w = NoFault :: NotFound :: rest ->
  exists w',
    readUsers w = (Normal (UArray []), w')
    /\ inMemoryUsers w' = UArray []
    /\ (rest = [] -> usersFile w' = Present (Encodes (UArray []))).
Proof.
  destruct w as [uf sf mem clk lat ent rem fs]. simpl.
  set (w1 := {| usersFile := uf; sessionsFile := sf; inMemoryUsers := mem; clock := clk;
                later := lat; entropy := ent; remote := rem; faults := rest |}).
  destruct (AccountFacts.writeUsers_true (UArray []) w1) as [w' [Hwrite Hmem]].
  intros [-> | ->]; exists w';
    (split; [ | split; [ exact Hmem | ] ]).
  - cbv [readUsers bindIO tryCatchIO mkdir nextFault throw faults usersFile sessionsFile
         inMemoryUsers clock later entropy remote]. codes.
    fold w1. unfold bindIO. rewrite Hwrite. reflexivity.
  - intros ->. rewrite (@writeUsers_without_fault [] w1 eq_refl) in Hwrite.
    injection Hwrite as <-. reflexivity.
  - cbv [readUsers bindIO tryCatchIO mkdir nextFault readUsersFile throw ret faults
         usersFile sessionsFile inMemoryUsers clock later entropy remote]. codes.
    fold w1. unfold bindIO. rewrite Hwrite. reflexivity.
  - intros ->. rewrite (@writeUsers_without_fault [] w1 eq_refl) in Hwrite.
    injection Hwrite as <-. reflexivity.
Qed.

(** [readUsers] leaves a mirror that is not [null] when it finds one. *)
Lemma readUsers_mirror w r w' :
  readUsers w = (r, w') -> inMemoryUsers w <> UNull -> inMemoryUsers w' <> UNull.
Proof.
  intros Hrun Hmirror. unfold readUsers in Hrun. apply tryCatchIO_inv in Hrun.
  destruct Hrun as [[a [Hbody ->]] | [e [w1 [Hbody Hh]]]].
  - apply bindIO_inv in Hbody.
    destruct Hbody as [[[] [w2 [Hmk Hbody]]] | [e' [_ Habs]]]; [ | discriminate ].
    apply AccountFacts.mkdir_mirror in Hmk. rewrite <- Hmk in Hmirror.
    apply bindIO_inv in Hbody.
    destruct Hbody as [[data [w3 [Hrd Hbody]]] | [e' [_ Habs]]]; [ | discriminate ].
    apply AccountFacts.readUsersFile_mirror in Hrd. rewrite <- Hrd in Hmirror.
    destruct (isBlank data).
    + unfold ret in Hbody. injection Hbody as _ <-. exact Hmirror.
    + apply bindIO_inv in Hbody.
      destruct Hbody as [[users [w4 [Hp Hbody]]] | [e' [_ Habs]]]; [ | discriminate ].
      apply bindIO_inv in Hbody.
      destruct Hbody as [[n [w5 [Hl Hbody]]] | [e' [_ Habs]]]; [ | discriminate ].
      unfold lift in Hl. injection Hl as Hl _.
      unfold bindIO, setInMemoryUsers, ret in Hbody. injection Hbody as _ <-. simpl.
      intros ->. discriminate.
  - assert (Hsame : inMemoryUsers w1 = inMemoryUsers w).
    { apply bindIO_inv in Hbody.
      destruct Hbody as [[[] [w2 [Hmk Hbody]]] | [e' [Hmk _]]];
        [ | exact (AccountFacts.mkdir_mirror _ Hmk) ].
      apply AccountFacts.mkdir_mirror in Hmk. rewrite <- Hmk.
      apply bindIO_inv in Hbody.
      destruct Hbody as [[data [w3 [Hrd Hbody]]] | [e' [Hrd _]]];
        [ | exact (AccountFacts.readUsersFile_mirror _ Hrd) ].
      apply AccountFacts.readUsersFile_mirror in Hrd. rewrite <- Hrd.
      destruct (isBlank data); [ discriminate | ].
      apply bindIO_inv in Hbody.
      destruct Hbody as [[users [w4 [Hp Hbody]]] | [e' [Hp _]]];
        unfold lift in Hp; injection Hp as _ <-; [ | reflexivity ].
      apply bindIO_inv in Hbody.
      destruct Hbody as [[n [w5 [Hl Hbody]]] | [e' [Hl _]]];
        unfold lift in Hl; injection Hl as _ <-; [ | reflexivity ].
      discriminate. }
    destruct (isENOENT e).
    + apply bindIO_inv in Hh.
      destruct Hh as [[saved [w2 [Hwrite Hret]]] | [e' [Hwrite _]]].
      * destruct (AccountFacts.writeUsers_true (UArray []) w1) as [w3 [E Hm]].
        rewrite E in Hwrite. injection Hwrite as _ <-.
        unfold ret in Hret. injection Hret as _ <-. rewrite Hm. discriminate.
      * destruct (AccountFacts.writeUsers_true (UArray []) w1) as [w3 [E Hm]].
        rewrite E in Hwrite. discriminate.
    + unfold bindIO, getInMemoryUsers, lift, ret in Hh.
      destruct (lengthOf (inMemoryUsers w1)); injection Hh as _ <-; congruence.
Qed.

End StoreFacts.

(** X9. Users written on a disk without faults are the users read back: the file
    then holds the array that was written, and so does the mirror. *)
Theorem users_written_are_read_back (users : list User.t) (w : World) :
  faults w = [] ->
  let w1 := StoreSpec.stored w (Present (Encodes (UArray users))) (UArray users) in
  Auth.writeUsers (UArray users) w = (Normal true, w1)
  /\ Auth.readUsers w1 = (Normal (UArray users), w1).
Proof.
  intros Hf w1. split.
  - apply StoreFacts.writeUsers_without_fault. exact Hf.
  - rewrite (@StoreFacts.readUsers_present users w1) by (destruct w; simpl in *; auto).
    destruct w; reflexivity.
Qed.

Lemma users_written_are_read_back_witness :
  fst (Auth.readUsers (snd (Auth.writeUsers (UArray [AccountExamples.alice])
                                             SessionSpec.freshWorld)))
  = Normal (UArray [AccountExamples.alice]).
Proof.
  destruct (@users_written_are_read_back
              [AccountExamples.alice] SessionSpec.freshWorld eq_refl) as [Hw Hr].
  rewrite Hw. simpl snd. rewrite Hr. reflexivity.
Defined.

(** X10. With a mirror that is not [null], as the one of a process that
    starts, [readUsers] does not throw and leaves a mirror that is not
    [null].  On a disk without faults it returns the array of the file and
    copies it to the mirror; it returns the empty array for an empty file,
    and for a missing file, which it creates; it returns the mirror when the
    file does not decode or holds [null].  When the directory cannot be made
    or the file cannot be read, it returns the mirror and leaves the file
    alone if the error has another code than [ENOENT]; with the code
    [ENOENT] it returns the empty array, empties the mirror and, when the
    disk then works, overwrites the file with the empty array, whatever the
    file held.  With a mirror that is [null] the first of these two cases
    throws. *)
Theorem readUsers_falls_back_on_the_mirror (w : World) :
  (inMemoryUsers w <> UNull ->
   exists users w', Auth.readUsers w = (Normal users, w') /\ inMemoryUsers w' <> UNull)
  /\ (faults w = [] -> inMemoryUsers w <> UNull ->
      Auth.readUsers w
      = match usersFile w with
        | Absent => (Normal (UArray []),
                     StoreSpec.stored w (Present (Encodes (UArray []))) (UArray []))
        | Present Blank => (Normal (UArray []), w)
        | Present Malformed => (Normal (inMemoryUsers w), w)
        | Present (Encodes UNull) => (Normal (inMemoryUsers w), w)
        | Present (Encodes users) => (Normal users, StoreSpec.stored w (usersFile w) users)
        end)
  /\ (forall rest,
        faults w = IOError :: rest \/ faults w = NoFault :: IOError :: rest ->
        (inMemoryUsers w <> UNull ->
         fst (Auth.readUsers w) = Normal (inMemoryUsers w)
         /\ usersFile (snd (Auth.readUsers w)) = usersFile w
         /\ inMemoryUsers (snd (Auth.readUsers w)) = inMemoryUsers w)
        /\ (inMemoryUsers w = UNull -> fst (Auth.readUsers w) = Throw TypeError))
  /\ (forall rest,
        faults w = NotFound :: rest \/ faults w = NoFault :: NotFound :: rest ->
        exists w',
          Auth.readUsers w = (Normal (UArray []), w')
          /\ inMemoryUsers w' = UArray []
          /\ (rest = [] -> usersFile w' = Present (Encodes (UArray [])))).
Proof.
  split; [ | split; [ | split ] ].
  - intro Hmirror.
    destruct (AccountFacts.readUsers_returns w Hmirror) as [users [w' Hrun]].
    exists users, w'. split; [ exact Hrun | ].
    eapply StoreFacts.readUsers_mirror; eassumption.
  - apply StoreFacts.readUsers_without_fault.
  - intros rest Hfault. split.
    + eapply StoreFacts.readUsers_io_error. exact Hfault.
    + eapply StoreFacts.readUsers_null_mirror. exact Hfault.
  - intros rest Hfault. eapply StoreFacts.readUsers_not_found. exact Hfault.
Qed.

Module SignInFacts.
Import AccountSpec StoreSpec.
Section WithCrypto.
Context `{Crypto}.
Import Auth.

(** A field that is not falsy and shows as a string is that string. *)
Lemma given_string (x : input) s :
  falsy x = false -> given x = JString s -> x = Some (JString s) /\ s <> [].
Proof.
  destruct x as [v |]; [ | discriminate ]. simpl. intros Hf ->.
  split; [ reflexivity | ]. apply AccountFacts.truthy_nonempty.
  apply negb_false_iff in Hf. exact Hf.
Qed.

(** One step of a handler that completed. *)
Ltac step H x w' Hx :=
  apply bindIO_inv in H;
  destruct H as [[x [w' [Hx H]]] | [?e [_ ?Habs]]]; [ | discriminate ].

Ltac answered H Hs :=
  unfold reply, ret in H; injection H as <- <-; simpl in Hs; discriminate.

(** A registration is answered with 201 only on the path that stores the
    account: the three fields are strings that pass the checks. *)
Lemma register_201 req w :
  status (fst (register req w)) = 201 ->
  exists email password name users w1,
    req = registration email password name
    /\ validRegistration email password name
    /\ readUsers w = (Normal (UArray users), w1)
    /\ accountOf users email = None
    /\ inMemoryUsers (snd (register req w))
       = UArray (users ++ [newUserOf email password name w1]).
Proof.
  intro Hs. unfold register, answer in Hs.
  destruct (registerBody req w) as [[r | e] w'] eqn:Hrun; [ | discriminate ].
  simpl in Hs. pose proof Hrun as Hwhole. unfold registerBody in Hrun.
  destruct (falsy (RegisterBody.email req)) eqn:He; [ answered Hrun Hs | ].
  destruct (falsy (RegisterBody.password req)) eqn:Hp; [ answered Hrun Hs | ].
  destruct (falsy (RegisterBody.name req)) eqn:Hn; [ answered Hrun Hs | ].
  cbn [orb] in Hrun.
  step Hrun short w0 Hshort. unfold lift in Hshort. injection Hshort as Hshort <-.
  destruct short; [ answered Hrun Hs | ].
  step Hrun valid w0 Hvalid. unfold lift in Hvalid. injection Hvalid as Hvalid <-.
  destruct valid; cbn [negb] in Hrun; [ | answered Hrun Hs ].
  step Hrun users w1 Hread.
  step Hrun n w0 Hlen. unfold lift in Hlen. injection Hlen as Hlen <-.
  step Hrun existing w0 Hfind. unfold lift in Hfind. injection Hfind as Hfind <-.
  destruct existing as [account |]; [ answered Hrun Hs | ].
  step Hrun hashed w2 Hhash.
  destruct (given (RegisterBody.password req)) as [| b | q | password | items | props] eqn:Epassword;
    try discriminate.
  cbn [hash] in Hhash. unfold bindIO, drawSalt, ret in Hhash. injection Hhash as <- <-.
  step Hrun ident w2 Hid. unfold dateNow in Hid. injection Hid as <- <-.
  step Hrun lowerEmail w2 Hlower. unfold lift in Hlower. injection Hlower as Hlower <-.
  destruct (given (RegisterBody.email req)) as [| b | q | email | items | props] eqn:Eemail;
    try discriminate.
  cbn [toLowerCaseOf] in Hlower. injection Hlower as <-.
  step Hrun trimmedName w2 Htrim. unfold lift in Htrim. injection Htrim as Htrim <-.
  destruct (given (RegisterBody.name req)) as [| b | q | name | items | props] eqn:Ename;
    try discriminate.
  cbn [trimOf] in Htrim. injection Htrim as <-.
  step Hrun createdAt w2 Hcreated. unfold dateNow in Hcreated. injection Hcreated as <- <-.
  step Hrun lastLogin w2 Hlast. unfold dateNow in Hlast. injection Hlast as <- <-.
  step Hrun users' w2 Hpush. unfold lift in Hpush. injection Hpush as Hpush <-.
  destruct users as [l | | k]; try discriminate.
  cbn [push] in Hpush. injection Hpush as <-.
  step Hrun saved w3 Hwrite.
  destruct (AccountFacts.writeUsers_true
              (UArray (l ++ [newUserOf email password name w1]))
              (advance (advance (advance w1)))) as [w4 [E Hmem]].
  pose proof (eq_trans (eq_sym E) Hwrite) as Hsaved.
  injection Hsaved as <- <-. cbn [negb] in Hrun.
  step Hrun issuedAt w5 Hissued. unfold dateNow in Hissued. injection Hissued as <- <-.
  unfold reply, ret in Hrun. injection Hrun as <- <-.
  destruct (given_string _ He Eemail) as [Eemail' Hemail].
  destruct (given_string _ Hp Epassword) as [Epassword' Hpassword].
  destruct (given_string _ Hn Ename) as [Ename' Hname].
  exists email, password, name, l, w1.
  split; [ destruct req; simpl in *; unfold registration; congruence | ].
  split.
  { rewrite AccountFacts.password_length in Hshort. injection Hshort as Hshort.
    apply Nat.ltb_ge in Hshort.
    cbn [includesAt] in Hvalid. injection Hvalid as Hvalid.
    repeat split; assumption. }
  split; [ exact Hread | ].
  split; [ rewrite AccountFacts.findByEmail_string in Hfind; congruence | ].
  unfold register, answer. rewrite Hwhole. exact Hmem.
Qed.

Lemma find_none_not_in (users : list User.t) wanted :
  find (fun user => eqb_str (User.email user) wanted) users = None ->
  ~ In wanted (map User.email users).
Proof.
  intros Hfind Hin. apply in_map_iff in Hin. destruct Hin as [u [E Hu]].
  apply (find_none _ _ Hfind) in Hu. rewrite E in Hu.
  assert (eqb_str wanted wanted = true) by (apply eqb_str_eq; reflexivity). congruence.
Qed.

Lemma unique_after_registration email password name w users :
  accountOf users email = None ->
  uniqueEmails users -> uniqueEmails (users ++ [newUserOf email password name w]).
Proof.
  unfold uniqueEmails, accountOf. intros Hfind Hu.
  rewrite map_app. simpl.
  apply NoDup_app; [ exact Hu | repeat constructor; intros [] | ].
  intros a Ha [<- | []]. revert Ha. apply find_none_not_in. exact Hfind.
Qed.

(** [touch] changes the last login of one account and nothing else. *)
Lemma touch_kept wanted now users : map kept (touch wanted now users) = map kept users.
Proof.
  induction users as [| u t IH]; simpl; [ reflexivity | ].
  destruct (eqb_str (User.email u) wanted); simpl; [ reflexivity | ].
  rewrite IH. reflexivity.
Qed.

Lemma accountOf_email users email account :
  accountOf users email = Some account -> User.email account = toLowerCase email.
Proof.
  unfold accountOf. intro Hfind. apply find_some in Hfind. destruct Hfind as [_ E].
  apply eqb_str_eq. exact E.
Qed.

Lemma login_accepted email password w users w1 account :
  email <> [] -> password <> [] ->
  readUsers w = (Normal (UArray users), w1) ->
  accountOf users email = Some account ->
  bcryptCompare password (User.password account) = true ->
  exists w2,
    login (credentials email password) w
    = ({| status := 200;
          body := Success (str "Login successful")
                          (jwtSign (User.id account) (User.email account) (reading 1 w1))
                          {| PublicUser.id := User.id account;
                             PublicUser.email := User.email account;
                             PublicUser.name := User.name account;
                             PublicUser.createdAt := User.createdAt account;
                             PublicUser.lastLogin := Some (clock w1) |} |}, advance w2)
    /\ writeUsers (UArray (touch (toLowerCase email) (clock w1) users)) (advance w1)
       = (Normal true, w2)
    /\ inMemoryUsers w2 = UArray (touch (toLowerCase email) (clock w1) users).
Proof.
  intros He Hp Hread Hfind Hok.
  apply AccountFacts.truthy_nonempty in He, Hp.
  destruct (AccountFacts.writeUsers_true
              (UArray (touch (toLowerCase email) (clock w1) users)) (advance w1))
    as [w2 [Hwrite Hmem]].
  exists w2. split; [ | split; assumption ].
  destruct (AccountFacts.timeless_writeUsers _ _ Hwrite) as [Hclock _].
  unfold login, answer, loginBody, credentials, falsy.
  cbn [LoginBody.email LoginBody.password truthyJson given]. rewrite He, Hp. cbn [negb orb].
  rewrite AccountFacts.bindIO_normal with (1 := Hread). cbn [lengthOf].
  rewrite AccountFacts.bindIO_lift.
  rewrite AccountFacts.findByEmail_string, Hfind, AccountFacts.bindIO_lift.
  cbn [compare]. rewrite Hok, AccountFacts.bindIO_lift. cbn [negb].
  unfold bindIO at 1. cbn [dateNow]. cbn [touched].
  rewrite (accountOf_email _ _ Hfind).
  unfold bindIO at 1. rewrite Hwrite.
  unfold bindIO, dateNow, reply, ret. rewrite Hclock. reflexivity.
Qed.

(** A login is answered with 200 only on the path on which [bcrypt.compare]
    accepted the password for the account of that address: both fields are
    strings. *)
Lemma login_200 req w :
  status (fst (login req w)) = 200 ->
  exists email password users w1 account,
    req = credentials email password
    /\ email <> [] /\ password <> []
    /\ readUsers w = (Normal (UArray users), w1)
    /\ accountOf users email = Some account
    /\ bcryptCompare password (User.password account) = true.
Proof.
  intro Hs. unfold login, answer in Hs.
  destruct (loginBody req w) as [[r | e] w'] eqn:Hrun; [ | discriminate ].
  simpl in Hs. unfold loginBody in Hrun.
  destruct (falsy (LoginBody.email req)) eqn:He; [ answered Hrun Hs | ].
  destruct (falsy (LoginBody.password req)) eqn:Hp; [ answered Hrun Hs | ].
  cbn [orb] in Hrun.
  step Hrun users w1 Hread.
  step Hrun n w0 Hlen. unfold lift in Hlen. injection Hlen as Hlen <-.
  step Hrun found w0 Hfind. unfold lift in Hfind. injection Hfind as Hfind <-.
  destruct found as [account |]; [ | answered Hrun Hs ].
  step Hrun ok w0 Hok. unfold lift in Hok. injection Hok as Hok <-.
  destruct ok; cbn [negb] in Hrun; [ | answered Hrun Hs ].
  destruct (given (LoginBody.password req)) as [| b | q | password | items | props] eqn:Epassword;
    try discriminate.
  cbn [compare] in Hok. injection Hok as Hok.
  destruct users as [l | | k]; try discriminate.
  assert (Hstring : exists email, given (LoginBody.email req) = JString email).
  { destruct l as [| u t]; [ discriminate | ].
    cbn [findByEmail findFirst] in Hfind.
    destruct (given (LoginBody.email req)); try discriminate. eauto. }
  destruct Hstring as [email Eemail]. rewrite Eemail in Hfind.
  rewrite AccountFacts.findByEmail_string in Hfind. injection Hfind as Hfind.
  destruct (given_string _ He Eemail) as [Eemail' Hemail].
  destruct (given_string _ Hp Epassword) as [Epassword' Hpassword].
  exists email, password, l, w1, account.
  split; [ destruct req; simpl in *; unfold credentials; congruence | ].
  repeat (split; [ assumption | ]). exact Hok.
Qed.

End WithCrypto.
End SignInFacts.

Module RoundTripFacts.
Import AccountSpec StoreSpec.
Section WithCrypto.
Context `{Crypto}.
Import Auth.

(** Reading and writing the users leaves the clock as it is. *)
Lemma newUserOf_stored email password name w f mirror :
  newUserOf email password name (stored w f mirror) = newUserOf email password name w.
Proof. destruct w. reflexivity. Qed.

Lemma register_without_fault email password name w users :
  validRegistration email password name ->
  faults w = [] ->
  usersFile w = Present (Encodes (UArray users)) ->
  accountOf users email = None ->
  let account := newUserOf email password name w in
  register (registration email password name) w
  = ({| status := 201;
        body := Success (str "User registered successfully")
                        (jwtSign (User.id account) (User.email account) (reading 3 w))
                        (publicUser account false) |},
     Nat.iter 4 advance
       (stored w (Present (Encodes (UArray (users ++ [account]))))
               (UArray (users ++ [account])))).
Proof.
  intros Hv Hf Hfile Hfind account.
  pose proof (@StoreFacts.readUsers_present users w Hf Hfile) as Hread.
  destruct (@RegistrationFacts.register_new _ email password name w users _ Hv Hread Hfind)
    as [w2 [Hwrite [E _]]].
  rewrite StoreFacts.writeUsers_without_fault in Hwrite by (destruct w; exact Hf).
  injection Hwrite as <-. rewrite E.
  rewrite newUserOf_stored. destruct w; reflexivity.
Qed.

Lemma login_without_fault email password w users account :
  email <> [] -> password <> [] ->
  faults w = [] ->
  usersFile w = Present (Encodes (UArray users)) ->
  accountOf users email = Some account ->
  bcryptCompare password (User.password account) = true ->
  fst (login (credentials email password) w)
  = {| status := 200;
       body := Success (str "Login successful")
                       (jwtSign (User.id account) (User.email account) (reading 1 w))
                       {| PublicUser.id := User.id account;
                          PublicUser.email := User.email account;
                          PublicUser.name := User.name account;
                          PublicUser.createdAt := User.createdAt account;
                          PublicUser.lastLogin := Some (clock w) |} |}.
Proof.
  intros He Hp Hf Hfile Hfind Hok.
  pose proof (@StoreFacts.readUsers_present users w Hf Hfile) as Hread.
  destruct (@SignInFacts.login_accepted _ email password w users _ account
              He Hp Hread Hfind Hok) as [w2 [E _]].
  rewrite E. destruct w; reflexivity.
Qed.

Lemma accountOf_new email attempt account users :
  accountOf users email = None ->
  toLowerCase attempt = toLowerCase email ->
  User.email account = toLowerCase email ->
  accountOf (users ++ [account]) attempt = Some account.
Proof.
  unfold accountOf. intros Hnone Hsame Hmail. rewrite Hsame.
  induction users as [| u t IH]; simpl in *.
  - rewrite Hmail.
    assert (E : eqb_str (toLowerCase email) (toLowerCase email) = true)
      by (apply eqb_str_eq; reflexivity).
    rewrite E. reflexivity.
  - destruct (eqb_str (User.email u) (toLowerCase email)); [ discriminate | ].
    apply IH. exact Hnone.
Qed.

Lemma register_then_login email password name attempt w users :
  hashesVerify ->
  validRegistration email password name ->
  faults w = [] ->
  usersFile w = Present (Encodes (UArray users)) ->
  accountOf users email = None ->
  toLowerCase attempt = toLowerCase email ->
  let account := newUserOf email password name w in
  forall w2,
    usersFile w2 = usersFile (snd (register (registration email password name) w)) ->
    faults w2 = [] ->
    fst (login (credentials attempt password) w2)
    = {| status := 200;
         body := Success (str "Login successful")
                         (jwtSign (User.id account) (User.email account) (reading 1 w2))
                         {| PublicUser.id := User.id account;
                            PublicUser.email := User.email account;
                            PublicUser.name := User.name account;
                            PublicUser.createdAt := User.createdAt account;
                            PublicUser.lastLogin := Some (clock w2) |} |}.
Proof.
  intros Hhash Hv Hf Hfile Hnone Hmail account w2 Hfile2 Hf2.
  rewrite (@register_without_fault email password name w users Hv Hf Hfile Hnone) in Hfile2.
  cbn [snd Nat.iter advance usersFile stored] in Hfile2.
  destruct Hv as [Hlen [Hat Hname]].
  apply (@login_without_fault attempt password w2 (users ++ [account]) account).
  - intros ->. apply (f_equal (@length ascii)) in Hmail. unfold toLowerCase in Hmail.
    rewrite !length_map in Hmail. simpl in Hmail.
    apply (AccountFacts.includes_nonempty (s := email) (sub := str "@")); try assumption;
      [ discriminate | destruct email; [ reflexivity | discriminate ] ].
  - intros ->. simpl in Hlen. lia.
  - exact Hf2.
  - exact Hfile2.
  - apply accountOf_new with (email := email); try assumption. reflexivity.
  - apply Hhash.
Qed.

End WithCrypto.
End RoundTripFacts.

(** X11. A registration is answered with 201 only when its three fields are
    strings that pass the input checks and the users that [readUsers]
    returned, an array, hold no account with the lower-case address; the
    array it leaves in the mirror is the one it read followed by the new
    account, whose identifier and dates come from three readings of the
    clock, and addresses that were pairwise distinct stay so. *)
Theorem registration_keeps_addresses_unique `{Crypto}
  (req : Auth.RegisterBody.t) (w : World) :
  status (fst (Auth.register req w)) = 201 ->
  exists email password name users w1,
    req = AccountSpec.registration email password name
    /\ AccountSpec.validRegistration email password name
    /\ Auth.readUsers w = (Normal (UArray users), w1)
    /\ AccountSpec.accountOf users email = None
    /\ inMemoryUsers (snd (Auth.register req w))
       = UArray (users ++ [AccountSpec.newUserOf email password name w1])
    /\ (StoreSpec.uniqueEmails users ->
        StoreSpec.uniqueEmails (users ++ [AccountSpec.newUserOf email password name w1])).
Proof.
  intro Hs.
  destruct (SignInFacts.register_201 req w Hs)
    as [email [password [name [users [w1 [Hreq [Hv [Hr [Hn Hm]]]]]]]]].
  exists email, password, name, users, w1.
  repeat (split; [ assumption | ]).
  apply SignInFacts.unique_after_registration. exact Hn.
Qed.

Lemma registration_keeps_addresses_unique_witness :
  StoreSpec.uniqueEmails
    [AccountExamples.alice;
     AccountSpec.newUserOf (AIService.str "Bob@Example.com") (AIService.str "bobs password")
                           (AIService.str "Bob") AccountExamples.withAlice].
Proof.
  destruct (@registration_keeps_addresses_unique AccountExamples.plainCrypto
              AccountExamples.bob AccountExamples.withAlice)
    as [email [password [name [users [w1 [Hreq [_ [Hr [_ [_ Hu]]]]]]]]]].
  - vm_compute. reflexivity.
  - vm_compute in Hr. injection Hr as <- <-.
    injection Hreq as <- <- <-. apply Hu.
    repeat constructor; simpl; intuition discriminate.
Defined.

(** X12. A login is answered with 200 only when both fields are strings and
    [bcrypt.compare] accepts the password for the account that the users
    that [readUsers] returned hold under the lower-case address.  The answer
    then carries that account, the time of the login and a token issued at
    the next reading of the clock, and the array left in the mirror differs
    from the one that was read in nothing but last logins. *)
Theorem login_needs_the_password `{Crypto} (req : Auth.LoginBody.t) (w : World) :
  status (fst (Auth.login req w)) = 200 ->
  exists email password users w1 account,
    req = AccountSpec.credentials email password
    /\ email <> [] /\ password <> []
    /\ Auth.readUsers w = (Normal (UArray users), w1)
    /\ AccountSpec.accountOf users email = Some account
    /\ bcryptCompare password (User.password account) = true
    /\ body (fst (Auth.login req w))
       = Success (Auth.str "Login successful")
                 (jwtSign (User.id account) (User.email account) (reading 1 w1))
                 {| PublicUser.id := User.id account;
                    PublicUser.email := User.email account;
                    PublicUser.name := User.name account;
                    PublicUser.createdAt := User.createdAt account;
                    PublicUser.lastLogin := Some (clock w1) |}
    /\ exists users',
         inMemoryUsers (snd (Auth.login req w)) = UArray users'
         /\ map StoreSpec.kept users' = map StoreSpec.kept users.
Proof.
  intro Hs.
  destruct (SignInFacts.login_200 req w Hs)
    as [email [password [users [w1 [account [Hreq [He [Hp [Hr [Hf Hok]]]]]]]]]].
  exists email, password, users, w1, account.
  repeat (split; [ assumption | ]).
  destruct (@SignInFacts.login_accepted _ email password w users w1 account He Hp Hr Hf Hok)
    as [w2 [E [_ Hm]]].
  subst req. rewrite E. split; [ reflexivity | ].
  eexists. split; [ exact Hm | apply SignInFacts.touch_kept ].
Qed.

Lemma login_needs_the_password_witness :
  bcryptCompare (AIService.str "correct horse") (User.password AccountExamples.alice) = true.
Proof.
  destruct (@login_needs_the_password AccountExamples.plainCrypto
              (AccountSpec.credentials (AIService.str "ALICE@example.com")
                                       (AIService.str "correct horse"))
              AccountExamples.withAlice)
    as [email [password [users [w1 [account [Hreq [_ [_ [Hr [Hf [Hok _]]]]]]]]]]].
  - vm_compute. reflexivity.
  - injection Hreq as <- <-.
    vm_compute in Hr. injection Hr as <- <-.
    vm_compute in Hf. injection Hf as <-. exact Hok.
Defined.

Module PlainCryptoFacts.

Lemma startsWith_app (p rest : jsstring) : startsWith (p ++ rest) p = true.
Proof.
  induction p as [| c p IH]; simpl; [ destruct rest; reflexivity | ].
  rewrite IH. unfold eqb_char. rewrite Ascii.eqb_refl. reflexivity.
Qed.

Lemma plain_hashes_verify : @StoreSpec.hashesVerify AccountExamples.plainCrypto.
Proof.
  intros password rounds salt.
  cbn [bcryptCompare bcryptHash AccountExamples.plainCrypto]. unfold endsWith.
  set (tail := list_ascii_of_string "$" ++ rev password).
  rewrite !app_assoc.
  rewrite rev_app_distr. apply startsWith_app.
Qed.

End PlainCryptoFacts.

(** X13. On a disk without faults, with a library that accepts the passwords it
    hashed, who registers with three strings can log in: a registration that
    passes the input checks for a new address is answered with 201 and
    stored in the file, with the identifier and the dates of three readings
    of the clock, and a later login with the same password and the same
    address, in whatever case, is answered with 200 and the account that was
    registered. *)
Theorem registered_user_can_log_in `{Crypto}
  (email password name attempt : jsstring) (w : World) (users : list User.t) :
  StoreSpec.hashesVerify ->
  AccountSpec.validRegistration email password name ->
  faults w = [] ->
  usersFile w = Present (Encodes (UArray users)) ->
  AccountSpec.accountOf users email = None ->
  toLowerCase attempt = toLowerCase email ->
  let request := AccountSpec.registration email password name in
  let account := AccountSpec.newUserOf email password name w in
  status (fst (Auth.register request w)) = 201
  /\ usersFile (snd (Auth.register request w))
     = Present (Encodes (UArray (users ++ [account])))
  /\ forall w2,
       usersFile w2 = usersFile (snd (Auth.register request w)) -> faults w2 = [] ->
       fst (Auth.login (AccountSpec.credentials attempt password) w2)
       = {| status := 200;
            body := Success (Auth.str "Login successful")
                      (jwtSign (User.id account) (User.email account) (reading 1 w2))
                      {| PublicUser.id := timeToString (clock w);
                         PublicUser.email := toLowerCase email;
                         PublicUser.name := trim name;
                         PublicUser.createdAt := reading 1 w;
                         PublicUser.lastLogin := Some (clock w2) |} |}.
Proof.
  intros Hhash Hv Hf Hfile Hnone Hmail request account.
  unfold request.
  rewrite (@RoundTripFacts.register_without_fault _ email password name w users
             Hv Hf Hfile Hnone).
  split; [ reflexivity | ]. split; [ reflexivity | ].
  intros w2 Hfile2 Hf2.
  apply (@RoundTripFacts.register_then_login _ email password name attempt w users);
    try assumption.
  rewrite (@RoundTripFacts.register_without_fault _ email password name w users
             Hv Hf Hfile Hnone).
  exact Hfile2.
Qed.

Lemma registered_user_can_log_in_witness :
  status (fst (Auth.register AccountExamples.bob AccountExamples.withAlice)) = 201
  /\ status (fst (Auth.login
                    (AccountSpec.credentials (AIService.str "bob@EXAMPLE.com")
                                             (AIService.str "bobs password"))
                    (SessionSpec.tick
                       (snd (Auth.register AccountExamples.bob AccountExamples.withAlice)))))
     = 200.
Proof.
  destruct (@registered_user_can_log_in AccountExamples.plainCrypto
              (AIService.str "Bob@Example.com") (AIService.str "bobs password")
              (AIService.str "Bob") (AIService.str "bob@EXAMPLE.com")
              AccountExamples.withAlice [AccountExamples.alice])
    as [H201 [_ Hlogin]].
  - apply PlainCryptoFacts.plain_hashes_verify.
  - repeat split; vm_compute; try reflexivity; try lia; discriminate.
  - reflexivity.
  - reflexivity.
  - vm_compute. reflexivity.
  - vm_compute. reflexivity.
  - split; [ exact H201 | ].
    rewrite Hlogin; [ reflexivity | reflexivity | vm_compute; reflexivity ].
Defined.

(** ** The maintenance routes and the token check *)

Module GateFacts.
Import StoreSpec.
Import Auth Gate.

Lemma clearUsers_reports_success w :
  exists w', clearUsers w = (Cleared (str "All users cleared"), w')
             /\ inMemoryUsers w' = UArray [].
Proof.
  unfold clearUsers, report, bindIO, setInMemoryUsers.
  match goal with |- context [writeUsers ?u ?w0] =>
    destruct (AccountFacts.writeUsers_true u w0) as [w' [E Hm]] end.
  rewrite E. exists w'. split; [ reflexivity | exact Hm ].
Qed.

Lemma clearUsers_without_fault w :
  faults w = [] ->
  clearUsers w = (Cleared (str "All users cleared"),
                  stored w (Present (Encodes (UArray []))) (UArray [])).
Proof.
  intro Hf. unfold clearUsers, report, bindIO, setInMemoryUsers.
  rewrite StoreFacts.writeUsers_without_fault by exact Hf. reflexivity.
Qed.

Lemma clearUsers_on_failing_disk w rest :
  faults w = IOError :: rest ->
  fst (clearUsers w) = Cleared (str "All users cleared")
  /\ usersFile (snd (clearUsers w)) = usersFile w.
Proof.
  destruct w as [uf sf mem clk lat ent rem fs]. simpl. intros ->.
  split; reflexivity.
Qed.

Lemma forceSave_reports_success w :
  inMemoryUsers w <> UNull ->
  exists saved w',
    forceSave w = (Saved (str "Force save completed") saved, w')
    /\ lengthOf (inMemoryUsers w) = Normal saved
    /\ inMemoryUsers w' = inMemoryUsers w.
Proof.
  intro Hn. unfold forceSave, report, bindIO, getInMemoryUsers.
  destruct (AccountFacts.writeUsers_true (inMemoryUsers w) w) as [w' [E Hm]].
  rewrite E, Hm. unfold lift.
  destruct (inMemoryUsers w) as [l | | n]; [ | contradiction | ];
    eexists; exists w'; (split; [ reflexivity | split; [ reflexivity | exact Hm ] ]).
Qed.

(** The pieces of a split. *)
Lemma splitOn_piece sep a : ~ In sep a -> splitOn sep a = [a].
Proof.
  induction a as [| c t IH]; intro Hn; simpl; [ reflexivity | ].
  destruct (eqb_char c sep) eqn:E.
  - apply Ascii.eqb_eq in E. subst. exfalso. apply Hn. left. reflexivity.
  - rewrite IH by (intro; apply Hn; right; assumption). reflexivity.
Qed.

Lemma splitOn_cut sep a rest :
  ~ In sep a -> splitOn sep (a ++ sep :: rest) = a :: splitOn sep rest.
Proof.
  induction a as [| c t IH]; intro Hn; simpl.
  - unfold eqb_char. rewrite Ascii.eqb_refl. reflexivity.
  - destruct (eqb_char c sep) eqn:E.
    + apply Ascii.eqb_eq in E. subst. exfalso. apply Hn. left. reflexivity.
    + rewrite IH by (intro; apply Hn; right; assumption). reflexivity.
Qed.

Lemma bearerToken_second_word scheme token tail :
  ~ In " "%char scheme -> ~ In " "%char token ->
  tail = [] \/ (exists t, tail = " "%char :: t) ->
  bearerToken (Some (scheme ++ " "%char :: token ++ tail)) = Some token.
Proof.
  intros Hs Ht Htail. unfold bearerToken.
  assert (Htruthy : truthy (scheme ++ " "%char :: token ++ tail) = true).
  { unfold truthy. rewrite length_app. simpl. rewrite Nat.add_succ_r. reflexivity. }
  rewrite Htruthy, splitOn_cut by exact Hs. simpl.
  destruct Htail as [-> | [t ->]].
  - rewrite app_nil_r, splitOn_piece by exact Ht. reflexivity.
  - rewrite splitOn_cut by exact Ht. reflexivity.
Qed.

Lemma bearerToken_one_word header :
  ~ In " "%char header -> missing (bearerToken (Some header)) = true.
Proof.
  intro Hn. unfold bearerToken. destruct (truthy header) eqn:E.
  - rewrite splitOn_piece by exact Hn. reflexivity.
  - simpl. rewrite E. reflexivity.
Qed.

End GateFacts.

(** X14. The maintenance routes never report a failure.  [clear-users] always
    answers that all users were cleared and leaves the mirror empty, also when
    the disk fails at once and the file keeps its users; on a disk without
    faults the file then holds the empty array.  [force-save], with a mirror
    that is not [null], always answers [Force save completed]. *)
Theorem maintenance_routes_report_success (w : World) :
  (exists w', Gate.clearUsers w = (Cleared (Auth.str "All users cleared"), w')
              /\ inMemoryUsers w' = UArray [])
  /\ (faults w = [] ->
      Gate.clearUsers w
      = (Cleared (Auth.str "All users cleared"),
         StoreSpec.stored w (Present (Encodes (UArray []))) (UArray [])))
  /\ (forall rest, faults w = IOError :: rest ->
        fst (Gate.clearUsers w) = Cleared (Auth.str "All users cleared")
        /\ usersFile (snd (Gate.clearUsers w)) = usersFile w)
  /\ (inMemoryUsers w <> UNull ->
      exists saved w',
        Gate.forceSave w = (Saved (Auth.str "Force save completed") saved, w')
        /\ Auth.lengthOf (inMemoryUsers w) = Normal saved
        /\ inMemoryUsers w' = inMemoryUsers w).
Proof.
  split; [ apply GateFacts.clearUsers_reports_success | ].
  split; [ apply GateFacts.clearUsers_without_fault | ].
  split; [ intro rest; apply GateFacts.clearUsers_on_failing_disk | ].
  apply GateFacts.forceSave_reports_success.
Qed.

(** X15. The token check reads the second of the words that single spaces
    separate in the [Authorization] header and never looks at the first: a
    request without the header, or with a header of one word, is answered with
    401; otherwise the second word, when it is empty, gives 401, when
    [jwt.verify] rejects it, 403, and else lets the request pass with the
    payload of the token.  The clock is read when there is a token to verify,
    and only then. *)
Theorem token_is_the_second_word `{Jwt} (w : World) :
  Gate.authenticateToken None w
    = (Normal (inl {| status := 401; body := Failure (Auth.str "Access token required") |}), w)
  /\ (forall header, ~ In " "%char header ->
        Gate.authenticateToken (Some header) w
        = (Normal (inl {| status := 401;
                          body := Failure (Auth.str "Access token required") |}), w))
  /\ (forall scheme token tail,
        ~ In " "%char scheme -> ~ In " "%char token ->
        tail = [] \/ (exists t, tail = " "%char :: t) ->
        Gate.authenticateToken (Some (scheme ++ " "%char :: token ++ tail)) w
        = (Normal (match token with
                   | [] => inl {| status := 401;
                                  body := Failure (Auth.str "Access token required") |}
                   | _ :: _ =>
                       match jwtVerify token (clock w) with
                       | None => inl {| status := 403;
                                        body := Failure (Auth.str "Invalid or expired token") |}
                       | Some user => inr user
                       end
                   end),
           match token with
           | [] => w
           | _ :: _ => advance w
           end)).
Proof.
  split; [ reflexivity | ]. split.
  - intros header Hn. unfold Gate.authenticateToken.
    rewrite GateFacts.bearerToken_one_word by exact Hn. reflexivity.
  - intros scheme token tail Hs Ht Htail. unfold Gate.authenticateToken.
    rewrite GateFacts.bearerToken_second_word by assumption.
    destruct token as [| c t]; [ reflexivity | ].
    unfold bindIO, dateNow. simpl.
    destruct (jwtVerify (c :: t) (clock w)); reflexivity.
Qed.

Lemma token_is_the_second_word_witness :
  Gate.authenticateToken (Some (Auth.str "Basic jwt.1700000000000.alice@example.com"))
                         AccountExamples.withAlice
  = (Normal (inr {| Identity.userId := Auth.str "1700000000000";
                    Identity.email := Auth.str "alice@example.com" |}),
     advance AccountExamples.withAlice).
Proof.
  destruct (@token_is_the_second_word GateSpec.plainJwt AccountExamples.withAlice)
    as [_ [_ Hword]].
  apply (Hword (Auth.str "Basic") GateSpec.aliceToken []).
  - vm_compute. intuition discriminate.
  - vm_compute. intuition discriminate.
  - left. reflexivity.
Defined.

Module VerifyFacts.
Import Auth Gate.
Section WithJwt.
Context `{Jwt}.

Lemma verify_missing token w :
  missing token = true ->
  verify token w
  = ({| verifyStatus := 400; verifyResult := VerifyFailure (str "Token is required") |}, w).
Proof. intro Hm. unfold verify, verifyBody. rewrite Hm. reflexivity. Qed.

Lemma verify_rejected token w :
  missing token = false -> jwtVerify (value token) (clock w) = None ->
  verify token w
  = ({| verifyStatus := 401;
        verifyResult := VerifyFailure (str "Invalid or expired token") |}, advance w).
Proof.
  intros Hm Hv. unfold verify, verifyBody, verifyToken, bindIO, dateNow.
  rewrite Hm, Hv. reflexivity.
Qed.

Lemma verify_decoded token decoded users w w1 :
  missing token = false -> jwtVerify (value token) (clock w) = Some decoded ->
  readUsers (advance w) = (Normal users, w1) ->
  verify token w
  = (match users with
     | UArray l =>
         match find (fun u => eqb_str (User.id u) (Identity.userId decoded)) l with
         | Some user => {| verifyStatus := 200;
                           verifyResult := Verified (publicUser user false) |}
         | None => {| verifyStatus := 404;
                      verifyResult := VerifyFailure (str "User not found") |}
         end
     | _ => {| verifyStatus := 401;
               verifyResult := VerifyFailure (str "Invalid or expired token") |}
     end, w1).
Proof.
  intros Hm Hv Hr. unfold verify, verifyBody, verifyToken, bindIO, dateNow.
  rewrite Hm, Hv. unfold ret at 1. rewrite Hr.
  destruct users as [l | | n]; try reflexivity.
  unfold lift, findById.
  destruct (find _ l); reflexivity.
Qed.

End WithJwt.
End VerifyFacts.

(** X16. [/verify] answers 400 without a token, and changes nothing; it
    answers 401 for a token that [jwt.verify] rejects, having read the clock
    and nothing else.  For a token that is valid it reads the users and
    answers 200 with the public fields of the first user that has the
    identifier of the token, 404 when the store has no such user, and 401,
    as for a token that is not valid, when what was read is no array. *)
Theorem verify_answers `{Jwt} (token : Auth.field) (w : World) :
  (Auth.missing token = true ->
   Gate.verify token w
   = ({| verifyStatus := 400;
         verifyResult := VerifyFailure (Auth.str "Token is required") |}, w))
  /\ (Auth.missing token = false -> jwtVerify (Auth.value token) (clock w) = None ->
      Gate.verify token w
      = ({| verifyStatus := 401;
            verifyResult := VerifyFailure (Auth.str "Invalid or expired token") |},
         advance w))
  /\ (forall decoded users w1,
        Auth.missing token = false ->
        jwtVerify (Auth.value token) (clock w) = Some decoded ->
        Auth.readUsers (advance w) = (Normal users, w1) ->
        Gate.verify token w
        = (match users with
           | UArray l =>
               match find (fun u => eqb_str (User.id u) (Identity.userId decoded)) l with
               | Some user => {| verifyStatus := 200;
                                 verifyResult := Verified (Auth.publicUser user false) |}
               | None => {| verifyStatus := 404;
                            verifyResult := VerifyFailure (Auth.str "User not found") |}
               end
           | _ => {| verifyStatus := 401;
                     verifyResult := VerifyFailure (Auth.str "Invalid or expired token") |}
           end, w1)).
Proof.
  split; [ apply VerifyFacts.verify_missing | ].
  split; [ apply VerifyFacts.verify_rejected | ].
  intros decoded users w1. apply VerifyFacts.verify_decoded.
Qed.

Lemma verify_answers_witness :
  verifyStatus (fst (Gate.verify (Some GateSpec.aliceToken) AccountExamples.withAlice)) = 200
  /\ verifyStatus (fst (Gate.verify (Some GateSpec.aliceToken) SessionSpec.freshWorld)) = 404.
Proof.
  destruct (@verify_answers GateSpec.plainJwt (Some GateSpec.aliceToken)
              AccountExamples.withAlice) as [_ [_ H1]].
  destruct (@verify_answers GateSpec.plainJwt (Some GateSpec.aliceToken)
              SessionSpec.freshWorld) as [_ [_ H2]].
  split.
  - erewrite H1; [ | reflexivity | reflexivity | reflexivity ]. reflexivity.
  - erewrite H2; [ | reflexivity | reflexivity | reflexivity ]. reflexivity.
Defined.

(** ** The queries on the session store *)

Module AverageFacts.
Import Number NumberFacts RoundingFacts ScoreSpec.
Open Scope Q_scope.

Lemma pow2_le_nonneg a b : (0 <= a <= b)%Z -> pow2 a <= pow2 b.
Proof.
  intro H. rewrite !pow2_of_nonneg by lia. rewrite <- Zle_Qle.
  apply Z.pow_le_mono_r; lia.
Qed.

(** Rounding does not lower a number whose scaled form is an integer. *)
Lemma fl_pos_ge_integral q z :
  0 < q -> q * pow2 (52 - ilog2 q) == inject_Z z -> q <= fl_pos q.
Proof.
  intros Hq Hz. unfold fl_pos. rewrite Qred_correct.
  set (e := ilog2 q) in *. set (s := q * pow2 (52 - e)) in *.
  assert (Hs : q == s * pow2 (e - 52)).
  { unfold s. rewrite <- Qmult_assoc.
    replace (e - 52)%Z with (- (52 - e))%Z by lia.
    rewrite pow2_cancel. ring. }
  assert (Hr : s <= inject_Z (rne s)).
  { rewrite Hz at 1. rewrite <- Zle_Qle.
    apply Z.le_trans with (Qfloor s); [ | apply rne_ge_floor ].
    rewrite Hz. rewrite Qfloor_Z. lia. }
  rewrite Hs at 1.
  apply Qmult_le_compat_r; [ exact Hr | apply Qlt_le_weak, pow2_pos ].
Qed.

Lemma fl_ge_half_integer q m :
  (0 < m < 2 ^ 53)%Z -> q == inject_Z m / 2 -> q <= fl q.
Proof.
  intros Hm Hq.
  assert (Hpos : 0 < q).
  { rewrite Hq. apply Qlt_shift_div_l; [ reflexivity | ].
    rewrite Qmult_0_l. apply inject_Z_pos. lia. }
  unfold fl. destruct (Qcompare_spec q 0) as [E | L | G]; try lra.
  set (e := ilog2 q).
  assert (He : (e <= 51)%Z).
  { destruct (Z_le_gt_dec e 51) as [Hle | Hgt]; [ exact Hle | exfalso ].
    pose proof (ilog2_le Hpos) as Hlow. fold e in Hlow.
    assert (H52 : pow2 52 <= pow2 e) by (apply pow2_le_nonneg; lia).
    assert (Hup : q < pow2 52).
    { rewrite Hq. apply Qlt_shift_div_r; [ reflexivity | ].
      rewrite pow2_of_nonneg by lia.
      change 2 with (inject_Z 2). rewrite <- inject_Z_mult, <- Zlt_Qlt.
      change (2 ^ 52 * 2)%Z with (2 ^ 53)%Z. lia. }
    lra. }
  apply (@fl_pos_ge_integral q (m * 2 ^ (51 - e))%Z); [ exact Hpos | ].
  fold e. rewrite Hq.
  replace (52 - e)%Z with (1 + (51 - e))%Z by lia.
  rewrite pow2_of_nonneg by lia.
  rewrite Z.pow_add_r by lia. rewrite !inject_Z_mult.
  change (inject_Z (2 ^ 1)) with 2. field.
Qed.

Lemma Qfloor_unique x k : inject_Z k <= x -> x < inject_Z (k + 1) -> Qfloor x = k.
Proof.
  intros Hlo Hhi. apply Z.le_antisymm.
  - assert (H : (Qfloor x < k + 1)%Z); [ | lia ].
    rewrite Zlt_Qlt. apply Qle_lt_trans with x; [ apply Qfloor_le | exact Hhi ].
  - apply Qfloor_resp_le in Hlo. rewrite Qfloor_Z in Hlo. exact Hlo.
Qed.

(** The average of the statistics is the exact quotient rounded to the
    nearest integer, a half going up. *)
Lemma round_quotient (s n : nat) :
  (0 < n)%nat -> (Z.of_nat s < 2 ^ 52)%Z ->
  Math.round (Number.div (Number.ofNat s) (Number.ofNat n))
  = ((2 * Z.of_nat s + Z.of_nat n) / (2 * Z.of_nat n))%Z.
Proof.
  intros Hn Hs. unfold Math.round, Number.div, Number.ofNat.
  set (S := Z.of_nat s) in *. set (N := Z.of_nat n).
  assert (HN : (0 < N)%Z) by (unfold N; lia).
  assert (HS : (0 <= S)%Z) by (unfold S; lia).
  set (k := ((2 * S + N) / (2 * N))%Z).
  set (r := ((2 * S + N) mod (2 * N))%Z).
  assert (Hdiv : (2 * S + N = 2 * N * k + r)%Z) by (apply Z.div_mod; lia).
  assert (Hr : (0 <= r < 2 * N)%Z) by (apply Z.mod_pos_bound; lia).
  set (q := inject_Z S / inject_Z N).
  assert (HNq : 0 < inject_Z N) by (apply inject_Z_pos; exact HN).
  assert (Hq0 : 0 <= q).
  { unfold q. apply Qle_shift_div_l; [ exact HNq | ]. rewrite Qmult_0_l.
    rewrite <- (Zle_Qle 0). exact HS. }
  assert (Hq : q * (2 * inject_Z N) + inject_Z N == 2 * inject_Z N * inject_Z k + inject_Z r).
  { assert (HdivQ : 2 * inject_Z S + inject_Z N
                    == 2 * inject_Z N * inject_Z k + inject_Z r).
    { change 2 with (inject_Z 2). rewrite <- !inject_Z_mult, <- !inject_Z_plus.
      rewrite Hdiv. reflexivity. }
    assert (HqN : q * inject_Z N == inject_Z S) by (unfold q; field; lra).
    setoid_replace (q * (2 * inject_Z N)) with (2 * (q * inject_Z N)) by ring.
    rewrite HqN. exact HdivQ. }
  destruct (fl_near_nonneg Hq0) as [Hup [Hlo _]].
  assert (Hu : q * u * (2 * inject_Z N) < 1).
  { unfold q. setoid_replace (inject_Z S / inject_Z N * u * (2 * inject_Z N))
      with (inject_Z S * (2 * u)) by (field; lra).
    unfold u. setoid_replace (2 * (1 # 9007199254740992)) with (1 # 4503599627370496)
      by reflexivity.
    assert (inject_Z S < inject_Z (2 ^ 52)) by (rewrite <- Zlt_Qlt; exact Hs).
    change (inject_Z (2 ^ 52)) with (4503599627370496 # 1) in H.
    setoid_replace 1 with ((4503599627370496 # 1) * (1 # 4503599627370496)) by reflexivity.
    apply Qmult_lt_compat_r; [ reflexivity | exact H ]. }
  assert (Hr1 : inject_Z r <= 2 * inject_Z N - 1).
  { assert (Hz : (r <= 2 * N + -1)%Z) by lia.
    rewrite Zle_Qle, inject_Z_plus, inject_Z_mult in Hz.
    change (inject_Z 2) with 2 in Hz. change (inject_Z (-1)) with (-1) in Hz. lra. }
  assert (Hr0 : 0 <= inject_Z r) by (rewrite <- (Zle_Qle 0); lia).
  apply Qfloor_unique.
  - (* the lower bound *)
    destruct (Z.eq_dec r 0) as [Ez | Enz].
    + assert (Hge : q <= fl q).
      { apply (@fl_ge_half_integer q (2 * k - 1)%Z).
        - split; [ lia | ].
          assert (2 * k - 1 <= 2 * S)%Z by nia. lia.
        - rewrite Ez in Hq. replace (2 * k - 1)%Z with (2 * k + -1)%Z by lia.
          rewrite inject_Z_plus, inject_Z_mult.
          change (inject_Z 2) with 2. change (inject_Z (-1)) with (-1).
          change (inject_Z 0) with 0 in Hq.
          apply (Qmult_inj_r _ _ (2 * inject_Z N)); [ lra | ].
          setoid_replace ((2 * inject_Z k + -1) / 2 * (2 * inject_Z N))
            with (2 * inject_Z N * inject_Z k - inject_Z N) by field.
          lra. }
      rewrite Ez in Hq. change (inject_Z 0) with 0 in Hq.
      assert (q + (1 # 2) == inject_Z k).
      { apply (Qmult_inj_r _ _ (2 * inject_Z N)); [ lra | ]. lra. }
      lra.
    + assert (Hr2 : 1 <= inject_Z r).
      { change 1 with (inject_Z 1). rewrite <- Zle_Qle. lia. }
      apply Qmult_le_r with (2 * inject_Z N); [ lra | ].
      nra.
  - rewrite inject_Z_plus. change (inject_Z 1) with 1.
    apply Qmult_lt_r with (2 * inject_Z N); [ lra | ].
    nra.
Qed.

End AverageFacts.

Module QueryFacts.
Import Study Queries SessionSpec.

(** What the three queries read. *)
Lemma read_for_query w :
  exists v w1,
    readStudySessions w = (Normal v, w1)
    /\ sessionsFile w1 = sessionsFile w
    /\ (v = SArray [] \/ sessionsFile w = Present (Encodes v)).
Proof.
  destruct (readStudySessions w) as [r w1] eqn:E.
  destruct (SessionFacts.readStudySessions_result _ E) as [Hsame [-> | [v [Hf ->]]]].
  - exists (SArray []), w1. auto.
  - exists v, w1. auto.
Qed.

Lemma history_of l userId limit w w1 :
  readStudySessions w = (Normal (SArray l), w1) ->
  history userId limit w
  = (let userSessions :=
       sliceTo (match limit with Some s => parseInt s | None => Some 20%Z end)
               (filter (ownedBy userId) l) in
     {| queryStatus := 200; queryBody := History userSessions (length userSessions) |}, w1).
Proof.
  intro Hread. unfold history, answerQuery, historyBody, bindIO. rewrite Hread. reflexivity.
Qed.

Lemma sliceTo_prefix {A} finish (l : list A) : exists rest, l = sliceTo finish l ++ rest.
Proof.
  unfold sliceTo. destruct finish as [e |]; [ | exists l; reflexivity ].
  destruct (e <? 0)%Z; eexists; symmetry; apply firstn_skipn.
Qed.

Lemma sliceTo_In {A} finish (l : list A) x : In x (sliceTo finish l) -> In x l.
Proof.
  destruct (sliceTo_prefix finish l) as [rest E]. intro H. rewrite E.
  apply in_or_app. left. exact H.
Qed.

Lemma find_owned userId sessionId l :
  find (fun s => eqb_str (Session.id s) sessionId && eqb_str (Session.userId s) userId) l
  = find (fun s => eqb_str (Session.id s) sessionId) (filter (ownedBy userId) l).
Proof.
  induction l as [| s t IH]; simpl; [ reflexivity | ].
  unfold ownedBy at 1.
  destruct (eqb_str (Session.userId s) userId); simpl.
  - destruct (eqb_str (Session.id s) sessionId); [ reflexivity | exact IH ].
  - rewrite andb_false_r. exact IH.
Qed.

Lemma session_of l userId sessionId w w1 :
  readStudySessions w = (Normal (SArray l), w1) ->
  session userId sessionId w
  = (match find (fun s => eqb_str (Session.id s) sessionId) (filter (ownedBy userId) l) with
     | Some s => {| queryStatus := 200; queryBody := Found s |}
     | None => {| queryStatus := 404;
                  queryBody := QueryFailure (str "Study session not found") |}
     end, w1).
Proof.
  intro Hread. unfold session, answerQuery, sessionBody, bindIO. rewrite Hread. simpl.
  rewrite find_owned.
  destruct (find _ (filter (ownedBy userId) l)); reflexivity.
Qed.

Lemma stats_of l userId w w1 :
  readStudySessions w = (Normal (SArray l), w1) ->
  exists st,
    stats userId w = ({| queryStatus := 200; queryBody := Statistics st |}, w1)
    /\ st = (let userSessions := filter (ownedBy userId) l in
             {| Stats.totalSessions := length userSessions;
                Stats.totalWordsProcessed := totalWords userSessions;
                Stats.averageWordsPerSession :=
                  if 0 <? length userSessions
                  then Math.round (Number.div (Number.ofNat (totalWords userSessions))
                                              (Number.ofNat (length userSessions)))
                  else 0%Z;
                Stats.mostUsedFeature := getMostUsedFeature userSessions;
                Stats.firstSession :=
                  if 0 <? length userSessions
                  then option_map Session.timestamp
                         (nth_error userSessions (length userSessions - 1))
                  else None;
                Stats.lastSession :=
                  if 0 <? length userSessions
                  then option_map Session.timestamp (nth_error userSessions 0)
                  else None;
                Stats.fileUploads :=
                  length (filter (fun s => eqb_str (Session.inputType s) (str "file"))
                                 userSessions);
                Stats.textInputs :=
                  length (filter (fun s => eqb_str (Session.inputType s) (str "text"))
                                 userSessions) |}).
Proof.
  intro Hread. eexists. split; [ | reflexivity ].
  unfold stats, answerQuery, statsBody, bindIO. rewrite Hread. reflexivity.
Qed.

Lemma query_on_no_array userId limit sessionId w w1 :
  readStudySessions w = (Normal SNotArray, w1) ->
  queryStatus (fst (history userId limit w)) = 500
  /\ queryStatus (fst (session userId sessionId w)) = 500
  /\ queryStatus (fst (stats userId w)) = 500.
Proof.
  intro Hread.
  unfold history, session, stats, answerQuery, historyBody, sessionBody, statsBody, bindIO.
  rewrite Hread. simpl. auto.
Qed.

Lemma totalWords_sum l : totalWords l = list_sum (map Session.wordCount l).
Proof.
  unfold totalWords.
  assert (G : forall acc, fold_left (fun sum s => sum + Session.wordCount s) l acc
                          = acc + list_sum (map Session.wordCount l)).
  { induction l as [| s t IH]; intro acc; simpl; [ lia | ]. rewrite IH. lia. }
  apply G.
Qed.

Lemma inputs_disjoint (l : list Session.t) :
  length (filter (fun s => eqb_str (Session.inputType s) (str "file")) l)
  + length (filter (fun s => eqb_str (Session.inputType s) (str "text")) l)
  <= length l.
Proof.
  induction l as [| s t IH]; cbn [filter length]; [ lia | ].
  destruct (eqb_str (Session.inputType s) (str "file")) eqn:Ef;
    destruct (eqb_str (Session.inputType s) (str "text")) eqn:Et; cbn [length]; try lia.
  apply eqb_str_eq in Ef, Et. rewrite Ef in Et. discriminate.
Qed.

Lemma nth_error_last {A} (l : list A) : nth_error l (length l - 1) = hd_error (rev l).
Proof.
  destruct l as [| x t] using rev_ind; [ reflexivity | ].
  rewrite rev_app_distr, length_app. simpl.
  rewrite nth_error_app2 by lia.
  replace (length t + 1 - 1 - length t) with 0 by lia. reflexivity.
Qed.

Lemma owned_spec userId s : ownedBy userId s = true <-> Session.userId s = userId.
Proof. unfold ownedBy. apply eqb_str_eq. Qed.

(** ** [parseInt] *)









End QueryFacts.

Module FeatureFacts.
Import Study Queries TopicSpec TallyFacts QuerySpec.
Import AIService.

Lemma plain_not_proto k : plainFeature k -> eqb_str k (Study.str "__proto__") = false.
Proof.
  unfold plainFeature, inheritedText. intro H.
  destruct (eqb_str k (Study.str "constructor")); [ discriminate | ].
  destruct (arrayIncludes inheritedMethods k); [ discriminate | ].
  destruct (eqb_str k (Study.str "__proto__")); [ discriminate | reflexivity ].
Qed.

Lemma bumpFeature_count own k n :
  plainFeature k -> assoc k own = Some (Count n) -> bumpFeature own k = Count (n + 1).
Proof. intros _ E. unfold bumpFeature. rewrite E. reflexivity. Qed.

Lemma bumpFeature_first own k :
  plainFeature k -> assoc k own = None -> bumpFeature own k = Count 1.
Proof. intros Hk E. unfold bumpFeature. rewrite E, Hk. reflexivity. Qed.

Lemma countFeature_fold l : forall own,
  Forall plainFeature l ->
  fold_left countFeature l own = fold_left (tallyStep bumpFeature) l own.
Proof.
  induction l as [| k t IH]; intros own Hl; simpl; [ reflexivity | ].
  apply Forall_cons_iff in Hl. destruct Hl as [Hk Ht].
  rewrite <- IH by exact Ht. unfold countFeature at 2.
  rewrite (plain_not_proto Hk). reflexivity.
Qed.

Lemma featureCount_flat (sessions : list Session.t) : forall own,
  fold_left (fun featureCount session =>
               fold_left countFeature (Session.features session) featureCount)
            sessions own
  = fold_left countFeature (flat_map Session.features sessions) own.
Proof.
  induction sessions as [| s t IH]; intro own; simpl; [ reflexivity | ].
  rewrite IH, fold_left_app. reflexivity.
Qed.

(** The reduction keeps the candidate unless the next key has at least its
    count. *)
Lemma reduce_best (count : jsstring -> nat) keys : forall a,
  let r := fold_left (fun a b => if count b <? count a then a else b) keys a in
  (r = a \/ In r keys) /\ count a <= count r /\ forall k, In k keys -> count k <= count r.
Proof.
  induction keys as [| b t IH]; intro a; simpl.
  - split; [ left; reflexivity | ]. split; [ lia | intros k [] ].
  - destruct (Nat.ltb_spec (count b) (count a)) as [Hlt | Hge].
    + destruct (IH a) as [Hin [Ha Hk]]. split; [ tauto | ]. split; [ exact Ha | ].
      intros k [<- | Hkt]; [ lia | apply Hk; exact Hkt ].
    + destruct (IH b) as [Hin [Hb Hk]]. split; [ destruct Hin as [-> | Hin]; tauto | ].
      split; [ lia | ].
      intros k [<- | Hkt]; [ exact Hb | apply Hk; exact Hkt ].
Qed.

Lemma reduce_ext {A B} (f g : A -> B -> A) (l : list B) :
  (forall a b, In b l -> f a b = g a b) -> forall a, fold_left f l a = fold_left g l a.
Proof.
  induction l as [| b t IH]; intros Hfg a; simpl; [ reflexivity | ].
  rewrite Hfg by (left; reflexivity). apply IH. intros; apply Hfg; right; assumption.
Qed.

Lemma mostUsed sessions :
  let all := flat_map Session.features sessions in
  Forall plainFeature all ->
  match all with
  | [] => getMostUsedFeature sessions = Study.str "summary"
  | _ :: _ =>
      In (getMostUsedFeature sessions) all
      /\ forall f, In f all
                   -> occurrences f all <= occurrences (getMostUsedFeature sessions) all
  end.
Proof.
  intros all Hplain. unfold getMostUsedFeature.
  rewrite featureCount_flat. fold all. rewrite countFeature_fold by exact Hplain.
  assert (Ht : tallied (fold_left (tallyStep bumpFeature) all []) all)
    by (apply (@tally_all bumpFeature plainFeature bumpFeature_count bumpFeature_first);
        exact Hplain).
  set (featureCount := fold_left (tallyStep bumpFeature) all []) in *.
  assert (Hkeys : forall k, In k (objectKeys featureCount) <-> In k all).
  { intro k. rewrite objectKeys_In. apply tallied_keys. exact Ht. }
  rewrite (reduce_ext _ (fun a b => if occurrences b all <? occurrences a all then a else b)).
  2:{ intros a b Hb. apply Hkeys in Hb. apply occurrences_pos in Hb.
      rewrite (Ht a), (Ht b).
      destruct (Nat.eqb_spec (occurrences b all) 0) as [E | _]; [ lia | ].
      destruct (Nat.eqb_spec (occurrences a all) 0) as [E | _].
      - rewrite E. simpl. destruct (occurrences b all); reflexivity.
      - reflexivity. }
  destruct (reduce_best (fun k => occurrences k all) (objectKeys featureCount)
                        (Study.str "summary")) as [Hin [Ha Hk]].
  set (r := fold_left _ (objectKeys featureCount) (Study.str "summary")) in *.
  destruct all as [| f0 rest] eqn:Eall.
  - assert (Hnone : objectKeys featureCount = []).
    { destruct (objectKeys featureCount) as [| k ks] eqn:E; [ reflexivity | ].
      exfalso. apply (Hkeys k). left. reflexivity. }
    unfold r. rewrite Hnone. reflexivity.
  - rewrite <- Eall in *.
    assert (Hbest : forall f, In f all -> occurrences f all <= occurrences r all).
    { intros f Hf. apply Hk. apply Hkeys. exact Hf. }
    split; [ | exact Hbest ].
    destruct Hin as [E | Hin]; [ | apply Hkeys; exact Hin ].
    apply occurrences_pos.
    assert (Hf0 : In f0 all) by (rewrite Eall; left; reflexivity).
    pose proof (Hbest f0 Hf0). apply occurrences_pos in Hf0. lia.
Qed.

End FeatureFacts.

(** X17. What [/history], [/session/:id] and [/stats] answer to a user depends on
    the sessions of that user alone: two stores that hold the same sessions
    for the user, in the same order, get the same three answers, whatever
    they hold for others.  A session that is found belongs to the caller and
    has the identifier asked for, so that the identifier of a session of
    somebody else is answered like one that does not exist; and every session
    of a history belongs to the caller. *)
Theorem queries_show_own_sessions_only
  (userId sessionId : jsstring) (limit : option jsstring)
  (w w' w1 w1' : World) (l l' : list Session.t) :
  Study.readStudySessions w = (Normal (SArray l), w1) ->
  Study.readStudySessions w' = (Normal (SArray l'), w1') ->
  QuerySpec.own userId l = QuerySpec.own userId l' ->
  fst (Queries.history userId limit w) = fst (Queries.history userId limit w')
  /\ fst (Queries.session userId sessionId w) = fst (Queries.session userId sessionId w')
  /\ fst (Queries.stats userId w) = fst (Queries.stats userId w')
  /\ (forall s, queryBody (fst (Queries.session userId sessionId w)) = Found s ->
        Session.userId s = userId /\ Session.id s = sessionId)
  /\ (forall sessions total,
        queryBody (fst (Queries.history userId limit w)) = History sessions total ->
        Forall (fun s => Session.userId s = userId) sessions).
Proof.
  intros Hr Hr' Hown. unfold QuerySpec.own in Hown.
  rewrite (@QueryFacts.history_of l userId limit w w1 Hr),
          (@QueryFacts.history_of l' userId limit w' w1' Hr').
  rewrite (@QueryFacts.session_of l userId sessionId w w1 Hr),
          (@QueryFacts.session_of l' userId sessionId w' w1' Hr').
  destruct (@QueryFacts.stats_of l userId w w1 Hr) as [st [Es ->]].
  destruct (@QueryFacts.stats_of l' userId w' w1' Hr') as [st' [Es' ->]].
  rewrite Es, Es'. cbn [fst]. rewrite Hown.
  split; [ reflexivity | ]. split; [ reflexivity | ]. split; [ reflexivity | ].
  split.
  - intros s Hs.
    destruct (find _ (filter (Queries.ownedBy userId) l')) as [s' |] eqn:Ef;
      [ | discriminate ].
    cbn [queryBody] in Hs. injection Hs as ->.
    apply find_some in Ef. destruct Ef as [Hin Hid].
    apply filter_In in Hin. destruct Hin as [_ Ho].
    apply QueryFacts.owned_spec in Ho. apply eqb_str_eq in Hid. auto.
  - intros sessions total Hh. cbn [queryBody] in Hh. injection Hh as <- _.
    apply Forall_forall. intros s Hs. apply QueryFacts.sliceTo_In in Hs.
    apply filter_In in Hs. destruct Hs as [_ Ho]. apply QueryFacts.owned_spec. exact Ho.
Qed.

Lemma queries_show_own_sessions_only_witness :
  fst (Queries.history (Study.str "ann") None QuerySpec.storeA)
  = fst (Queries.history (Study.str "ann") None QuerySpec.storeB)
  /\ queryStatus (fst (Queries.session (Study.str "ann") (Study.str "1700000000004")
                                       QuerySpec.storeA)) = 404.
Proof.
  destruct (@queries_show_own_sessions_only
              (Study.str "ann") (Study.str "1700000000004") None
              QuerySpec.storeA QuerySpec.storeB QuerySpec.storeA QuerySpec.storeB
              (QuerySpec.sessionOf "ben" "1700000000004" 100 ["flashcards"] "text"
                 :: QuerySpec.annSessions)
              (QuerySpec.annSessions
                 ++ [QuerySpec.sessionOf "ben" "1700000000000" 1 ["keyPoints"] "file"]))
    as [Hh _].
  - reflexivity.
  - reflexivity.
  - reflexivity.
  - split; [ exact Hh | vm_compute; reflexivity ].
Defined.



(** X19. The statistics of a user count the user's own sessions and add up their
    words; the two kinds of input together are at most the total; the last
    session is the first of the list and the first session the last of it.
    The average, as long as the words are fewer than 2^52, is the exact
    quotient rounded to the nearest integer, a half going up, and 0 for a
    user without sessions. *)
Theorem statistics_of_own_sessions (userId : jsstring) (w w1 : World) (l : list Session.t) :
  Study.readStudySessions w = (Normal (SArray l), w1) ->
  let mine := QuerySpec.own userId l in
  let words := list_sum (map Session.wordCount mine) in
  exists st,
    Queries.stats userId w = ({| queryStatus := 200; queryBody := Statistics st |}, w1)
    /\ Stats.totalSessions st = length mine
    /\ Stats.totalWordsProcessed st = words
    /\ (Z.of_nat words < 2 ^ 52 ->
        Stats.averageWordsPerSession st
        = match mine with
          | [] => 0
          | _ :: _ => (2 * Z.of_nat words + Z.of_nat (length mine))
                      / (2 * Z.of_nat (length mine))
          end)%Z
    /\ Stats.fileUploads st + Stats.textInputs st <= Stats.totalSessions st
    /\ Stats.lastSession st = option_map Session.timestamp (hd_error mine)
    /\ Stats.firstSession st = option_map Session.timestamp (hd_error (rev mine))
    /\ Stats.mostUsedFeature st = Queries.getMostUsedFeature mine.
Proof.
  intros Hr mine words.
  destruct (@QueryFacts.stats_of l userId w w1 Hr) as [st [Es ->]].
  eexists. split; [ exact Es | ]. cbn [Stats.totalSessions Stats.totalWordsProcessed
    Stats.averageWordsPerSession Stats.fileUploads Stats.textInputs Stats.lastSession
    Stats.firstSession Stats.mostUsedFeature].
  fold (QuerySpec.own userId l). fold mine.
  rewrite QueryFacts.totalWords_sum. fold words.
  split; [ reflexivity | ]. split; [ reflexivity | ]. split; [ | split; [ | split; [ | split ] ] ].
  - intro Hw. destruct mine as [| s t] eqn:Em; [ reflexivity | ].
    change (0 <? length (s :: t)) with true. cbv iota.
    apply AverageFacts.round_quotient; [ simpl; lia | exact Hw ].
  - apply QueryFacts.inputs_disjoint.
  - destruct mine; reflexivity.
  - destruct mine as [| s t] eqn:Em; [ reflexivity | ].
    change (0 <? length (s :: t)) with true. cbv iota.
    rewrite QueryFacts.nth_error_last. reflexivity.
  - reflexivity.
Qed.

Lemma statistics_of_own_sessions_witness :
  exists st,
    queryBody (fst (Queries.stats (Study.str "ann") QuerySpec.storeA)) = Statistics st
    /\ Stats.totalSessions st = 2
    /\ Stats.totalWordsProcessed st = 11
    /\ Stats.averageWordsPerSession st = 6%Z.
Proof.
  destruct (@statistics_of_own_sessions (Study.str "ann") QuerySpec.storeA QuerySpec.storeA
              (QuerySpec.sessionOf "ben" "1700000000004" 100 ["flashcards"] "text"
                 :: QuerySpec.annSessions) eq_refl)
    as [st [Es [Hn [Hw [Ha _]]]]].
  exists st. rewrite Es. split; [ reflexivity | ].
  split; [ exact Hn | ]. split; [ exact Hw | ].
  rewrite Ha; [ reflexivity | vm_compute; reflexivity ].
Defined.

(** X20. For sessions whose features are no property names of [Object.prototype],
    the most used feature is [summary] when no session has a feature, and
    otherwise a feature of the sessions that none of them outnumbers. *)
Theorem most_used_feature_is_most_frequent (sessions : list Session.t) :
  let all := flat_map Session.features sessions in
  Forall QuerySpec.plainFeature all ->
  match all with
  | [] => Queries.getMostUsedFeature sessions = Study.str "summary"
  | _ :: _ =>
      In (Queries.getMostUsedFeature sessions) all
      /\ forall f, In f all
                   -> TopicSpec.occurrences f all
                      <= TopicSpec.occurrences (Queries.getMostUsedFeature sessions) all
  end.
Proof. apply FeatureFacts.mostUsed. Qed.

Lemma most_used_feature_is_most_frequent_witness :
  In (Queries.getMostUsedFeature QuerySpec.annSessions)
     (map Study.str ["quiz"; "summary"; "quiz"])
  /\ forall f, In f (map Study.str ["quiz"; "summary"; "quiz"])
                -> TopicSpec.occurrences f (map Study.str ["quiz"; "summary"; "quiz"])
                   <= TopicSpec.occurrences (Queries.getMostUsedFeature QuerySpec.annSessions)
                                            (map Study.str ["quiz"; "summary"; "quiz"]).
Proof.
  apply (most_used_feature_is_most_frequent QuerySpec.annSessions).
  repeat constructor.
Defined.

(** ** Generating and storing: [/process] and [/process-file] *)

Module StudyFacts.
Import Study Queries SessionSpec StudySpec.

Lemma results_asked text features w :
  exists summary,
    AIService.generateSummary text (remote w) = Normal summary
    /\ generateAIResults text features w
       = (Normal {| Results.summary := if wants features "summary" then Some summary else None;
                    Results.quiz :=
                      if wants features "quiz"
                      then Some (AIService.generateSmartQuiz text) else None;
                    Results.flashcards :=
                      if wants features "flashcards"
                      then Some (AIService.generateSmartFlashcards text) else None;
                    Results.keyPoints :=
                      if wants features "keyPoints"
                      then Some (AIService.extractSmartKeyPoints text) else None |}, w).
Proof.
  destruct (RemoteFacts.generateSummary_completes text (remote w)) as [summary Hs].
  exists summary. split; [ exact Hs | ].
  unfold generateAIResults.
  unfold bindIO at 1.
  assert (E : feature features "summary"
                (reply <~ awaitFetch ;; lift (AIService.generateSummary text reply))
                (JString (str "AI summary generation is temporarily unavailable. Please try again later."))
                w
              = (Normal (if wants features "summary" then Some summary else None), w)).
  { unfold feature. destruct (wants features "summary"); [ | reflexivity ].
    unfold bindIO, tryCatchIO, awaitFetch, lift, ret. rewrite Hs. reflexivity. }
  rewrite E.
  unfold bindIO at 1. rewrite DeterminismFacts.feature_pure.
  unfold bindIO at 1. rewrite DeterminismFacts.feature_pure.
  unfold bindIO at 1. rewrite DeterminismFacts.feature_pure.
  reflexivity.
Qed.

(** Reading the sessions does not look at the clock: it does the same once
    the clock has been read. *)
Lemma readStudySessions_advance w r w1 :
  readStudySessions w = (r, w1) -> readStudySessions (advance w) = (r, advance w1).
Proof.
  destruct w as [uf sf mem clk lat ent rem fs].
  unfold readStudySessions, tryCatchIO, bindIO, readSessionsFile, nextFault, advance.
  cbn [faults sessionsFile usersFile inMemoryUsers clock later entropy remote].
  destruct fs as [| [| | | other] rest];
    cbn [faults sessionsFile usersFile inMemoryUsers clock later entropy remote];
    unfold throw, ret, readContent;
    try (destruct sf as [| [| | v]]; unfold throw, ret, lift, parse);
    intro E; injection E as <- <-; reflexivity.
Qed.

(** What [createStudySession] does with what it read. *)
Lemma create_on_array userId text features results inputType fileName w l w1 :
  readStudySessions w = (Normal (SArray l), w1) ->
  exists w',
    createStudySession userId text features results inputType fileName w
    = (Normal (sessionFor userId text features results inputType fileName w), w')
    /\ (sessionsFile w' = sessionsFile w
        \/ sessionsFile w'
           = Present (Encodes (SArray
               (firstn 50 (sessionFor userId text features results inputType fileName w
                             :: l))))).
Proof.
  intro Hr. pose proof (SessionFacts.readStudySessions_result _ Hr) as [Hsame _].
  apply readStudySessions_advance, readStudySessions_advance in Hr.
  unfold createStudySession.
  unfold bindIO at 1. cbn [dateNow]. unfold bindIO at 1. cbn [dateNow].
  unfold bindIO at 1. rewrite Hr. unfold lift, unshift. unfold bindIO at 1.
  change {| Session.id := timeToString (clock w);
            Session.userId := userId;
            Session.originalText :=
              firstn 150 text ++ (if 150 <? length text then str "..." else []);
            Session.fullTextLength := length text;
            Session.results := resultsJSON results;
            Session.features := features;
            Session.timestamp := clock (advance w);
            Session.wordCount := length (splitWords text);
            Session.inputType := inputType;
            Session.fileName := fileName |}
    with (sessionFor userId text features results inputType fileName w).
  unfold bindIO.
  destruct (writeStudySessions _ (advance (advance w1))) as [saved w'] eqn:Hw.
  destruct (SessionFacts.writeStudySessions_result _ _ Hw) as [[-> Hk] | [-> Hs]].
  - exists w'. split; [ reflexivity | left; rewrite Hk; exact Hsame ].
  - exists w'. split; [ reflexivity | right; exact Hs ].
Qed.

Lemma create_on_no_array userId text features results inputType fileName w w1 :
  readStudySessions w = (Normal SNotArray, w1) ->
  createStudySession userId text features results inputType fileName w
  = (Throw TypeError, advance (advance w1)).
Proof.
  intro Hr. apply readStudySessions_advance, readStudySessions_advance in Hr.
  unfold createStudySession, bindIO, dateNow. rewrite Hr. reflexivity.
Qed.

End StudyFacts.

Module ProcessFacts.
Import Study Queries SessionSpec StudySpec DeterminismSpec.

Lemma process_short userId text features w :
  text = None
  \/ (exists v, text = Some v /\ truthyJson v = false)
  \/ (exists t, text = Some (JString t) /\ length (trim t) < 30) ->
  process userId text features w = (tooShort, w).
Proof.
  intros [-> | [[v [-> Hv]] | [t [-> Hlen]]]]; [ reflexivity | | ].
  - unfold process, processBody. rewrite Hv. reflexivity.
  - unfold process, processBody. apply Nat.ltb_lt in Hlen.
    destruct (truthyJson (JString t)); [ | reflexivity ].
    cbn [negb trimOf]. unfold bindIO, lift. rewrite Hlen. reflexivity.
Qed.

(** A text that is there and is no string has no [trim]. *)
Lemma process_no_string userId v features w :
  truthyJson v = true -> (forall t, v <> JString t) ->
  process userId (Some v) features w
  = ({| studyStatus := 500;
        studyBody := StudyFailure (str "Failed to process study material. Please try again.") |},
     w).
Proof.
  intros Hv Hno. unfold process, processBody. rewrite Hv. cbn [negb].
  destruct v as [| b | q | t | items | props]; try reflexivity.
  exfalso. apply (Hno t). reflexivity.
Qed.

Lemma long_truthy t : 30 <= length (trim t) -> truthy t = true.
Proof.
  intro H. destruct t as [| c t']; [ simpl in H; lia | reflexivity ].
Qed.

Lemma process_no_feature userId t features w :
  30 <= length (trim t) -> selected features = None ->
  process userId (Some (JString t)) features w
  = ({| studyStatus := 400;
        studyBody := StudyFailure (str "Please select at least one feature to generate") |},
     w).
Proof.
  intros Hlen Hsel. unfold process, processBody. cbn [truthyJson trimOf].
  rewrite (long_truthy _ Hlen). apply Nat.ltb_ge in Hlen.
  cbn [negb]. unfold bindIO at 1. unfold lift at 1. rewrite Hlen, Hsel. reflexivity.
Qed.

Lemma process_body_valid userId t features names :
  30 <= length (trim t) -> selected features = Some names ->
  processBody userId (Some (JString t)) features
  = (results <~ generateAIResults (trim t) names ;;
     session <~ createStudySession userId (trim t) names results (str "text") None ;;
     ret {| studyStatus := 200;
            studyBody := Generated (str "Study materials generated successfully!")
                                   (Session.id session) (resultsJSON results) |}).
Proof.
  intros Hlen Hsel. unfold processBody. cbn [truthyJson trimOf].
  rewrite (long_truthy _ Hlen). apply Nat.ltb_ge in Hlen. cbn [negb].
  unfold bindIO at 1. unfold lift at 1. rewrite Hlen, Hsel. reflexivity.
Qed.

Lemma process_no_array userId t features names w w1 :
  30 <= length (trim t) -> selected features = Some names ->
  readStudySessions w = (Normal SNotArray, w1) ->
  process userId (Some (JString t)) features w
  = ({| studyStatus := 500;
        studyBody := StudyFailure (str "Failed to process study material. Please try again.") |},
     advance (advance w1)).
Proof.
  intros Hlen Hsel Hr. unfold process. rewrite process_body_valid with (1 := Hlen) (2 := Hsel).
  destruct (StudyFacts.results_asked (trim t) names w) as [summary [_ Eres]].
  unfold bindIO at 1. rewrite Eres.
  unfold bindIO at 1.
  rewrite (@StudyFacts.create_on_no_array userId (trim t) names _
             (str "text") None w w1 Hr).
  reflexivity.
Qed.

Lemma process_stores userId t features names w l w1 :
  30 <= length (trim t) -> selected features = Some names ->
  readStudySessions w = (Normal (SArray l), w1) ->
  exists results w',
    generateAIResults (trim t) names w = (Normal results, w)
    /\ process userId (Some (JString t)) features w
       = ({| studyStatus := 200;
             studyBody := Generated (str "Study materials generated successfully!")
                                    (timeToString (clock w)) (resultsJSON results) |}, w')
    /\ (sessionsFile w' = sessionsFile w
        \/ sessionsFile w'
           = Present (Encodes (SArray
               (firstn 50 (sessionFor userId (trim t) names results (str "text") None w
                             :: l))))).
Proof.
  intros Hlen Hsel Hr.
  destruct (StudyFacts.results_asked (trim t) names w) as [summary [_ Eres]].
  match type of Eres with _ = (Normal ?r, _) => set (results := r) in * end.
  exists results.
  destruct (@StudyFacts.create_on_array userId (trim t) names
              results (str "text") None w l w1 Hr) as [w' [Ec Hfile]].
  exists w'. split; [ exact Eres | ]. split; [ | exact Hfile ].
  unfold process. rewrite process_body_valid with (1 := Hlen) (2 := Hsel).
  unfold bindIO at 1. rewrite Eres.
  unfold bindIO at 1. rewrite Ec. reflexivity.
Qed.

End ProcessFacts.

Module UploadFacts.
Import Study Queries SessionSpec StudySpec UploadSpec.

Lemma extract_media file w :
  fileFilter file = true ->
  Upload.mimetype file <> str "text/plain" ->
  extractText file w
  = (Normal (if eqb_str (Upload.mimetype file) wordDocument
             then genericExtract (Upload.originalname file)
             else sampleExtract (Upload.originalname file)), w).
Proof.
  destruct file as [path mimetype name content]. unfold fileFilter. cbn [Upload.mimetype
    Upload.originalname]. intros Hin Hne.
  apply KeyTermFacts.arrayIncludes_In in Hin. unfold allowedTypes in Hin.
  cbn [map In] in Hin.
  repeat (destruct Hin as [<- | Hin]; [ try reflexivity | ]);
    try contradiction.
Qed.

Lemma processFile_by_extract userId file file' features w :
  Upload.originalname file' = Upload.originalname file ->
  extractText file' w = extractText file w ->
  processFile userId (Some file') features w = processFile userId (Some file) features w.
Proof.
  intros Hname Hext. unfold processFile.
  destruct (selected features) as [names |]; [ | reflexivity ].
  unfold processFileBody. unfold bindIO at 1. unfold bindIO at 4.
  rewrite Hext, Hname. reflexivity.
Qed.







End UploadFacts.

(** X21. [generateAIResults] never throws and leaves the world as it is.  Its
    result has a value for each feature that was asked for and for no other:
    the quiz, the flashcards and the key points of the rule-based generators
    and the summary that [generateSummary] returns; the values of its [catch]
    blocks are never used. *)
Theorem results_hold_what_was_asked (text : jsstring) (features : list jsstring) (w : World) :
  exists summary,
    AIService.generateSummary text (remote w) = Normal summary
    /\ Study.generateAIResults text features w
       = (Normal {| Results.summary :=
                      if Study.wants features "summary" then Some summary else None;
                    Results.quiz :=
                      if Study.wants features "quiz"
                      then Some (AIService.generateSmartQuiz text) else None;
                    Results.flashcards :=
                      if Study.wants features "flashcards"
                      then Some (AIService.generateSmartFlashcards text) else None;
                    Results.keyPoints :=
                      if Study.wants features "keyPoints"
                      then Some (AIService.extractSmartKeyPoints text) else None |}, w).
Proof. apply StudyFacts.results_asked. Qed.

(** X22. [/process] answers 400, and touches nothing, for a text that is
    missing or falsy, for a string of fewer than 30 characters once trimmed,
    and, the text being long enough, for features that are no array or an
    empty one; it answers 500 for a text that is truthy and no string.
    Otherwise it generates the results from the trimmed text; it then
    answers 500 when the file of the sessions holds a value that is no array,
    and leaves that file as it is, and answers 200 with the results as JSON
    shows them and the first reading of the clock as the identifier of the
    session when the file holds an array, which stays as it was or gets the
    new session in front, cut after the 50th; the time stamp of that session
    is the second reading of the clock. *)
Theorem process_answers (userId : jsstring) (text : option json)
  (features : option featuresValue) (w : World) :
  (text = None
   \/ (exists v, text = Some v /\ truthyJson v = false)
   \/ (exists t, text = Some (JString t) /\ length (trim t) < 30) ->
   Study.process userId text features w
   = ({| studyStatus := 400;
         studyBody := StudyFailure
                        (Study.str "Please provide at least 30 characters of text") |}, w))
  /\ (forall v, text = Some v -> truthyJson v = true -> (forall t, v <> JString t) ->
        Study.process userId text features w
        = ({| studyStatus := 500;
              studyBody := StudyFailure
                (Study.str "Failed to process study material. Please try again.") |}, w))
  /\ (forall t, text = Some (JString t) -> 30 <= length (trim t) ->
        Study.selected features = None ->
        Study.process userId text features w
        = ({| studyStatus := 400;
              studyBody := StudyFailure
                             (Study.str "Please select at least one feature to generate") |},
           w))
  /\ (forall t names w1,
        text = Some (JString t) -> 30 <= length (trim t) ->
        Study.selected features = Some names ->
        Study.readStudySessions w = (Normal SNotArray, w1) ->
        Study.process userId text features w
        = ({| studyStatus := 500;
              studyBody := StudyFailure
                (Study.str "Failed to process study material. Please try again.") |},
           advance (advance w1))
        /\ sessionsFile w1 = sessionsFile w)
  /\ (forall t names l w1,
        text = Some (JString t) -> 30 <= length (trim t) ->
        Study.selected features = Some names ->
        Study.readStudySessions w = (Normal (SArray l), w1) ->
        exists results w',
          Study.generateAIResults (trim t) names w = (Normal results, w)
          /\ Study.process userId text features w
             = ({| studyStatus := 200;
                   studyBody := Generated (Study.str "Study materials generated successfully!")
                                          (timeToString (reading 0 w))
                                          (Study.resultsJSON results) |}, w')
          /\ (sessionsFile w' = sessionsFile w
              \/ sessionsFile w'
                 = Present (Encodes (SArray
                     (firstn 50 (StudySpec.sessionFor userId (trim t) names results
                                   (Study.str "text") None w :: l)))))).
Proof.
  split; [ apply ProcessFacts.process_short | ].
  split; [ intros v -> Hv Hno; apply ProcessFacts.process_no_string; assumption | ].
  split; [ intros t -> Hlen Hsel; apply ProcessFacts.process_no_feature; assumption | ].
  split.
  - intros t names w1 -> Hlen Hsel Hr. split.
    + eapply ProcessFacts.process_no_array; eassumption.
    + apply (SessionFacts.readStudySessions_result _ Hr).
  - intros t names l w1 -> Hlen Hsel Hr. eapply ProcessFacts.process_stores; eassumption.
Qed.

Lemma process_answers_witness :
  studyStatus (fst (Study.process (Study.str "ann") (Some (JString sampleText)) None
                                  StudySpec.objectStore)) = 500.
Proof.
  destruct (@process_answers (Study.str "ann") (Some (JString sampleText)) None
              StudySpec.objectStore) as [_ [_ [_ [H500 _]]]].
  destruct (H500 sampleText Study.allFeatures StudySpec.objectStore) as [E _].
  - reflexivity.
  - vm_compute. repeat constructor.
  - reflexivity.
  - reflexivity.
  - rewrite E. reflexivity.
Defined.

(** X23. An upload that the filter lets through and that is no plain text is
    never read: the text that is analysed and stored is a fixed sentence
    around the name of the file, so that the answer is the same whatever the
    file contains. *)
Theorem upload_content_is_not_read (userId : jsstring) (file : Upload.t)
  (features : option featuresValue) (w : World) :
  Queries.fileFilter file = true ->
  Upload.mimetype file <> Study.str "text/plain" ->
  Queries.extractText file w
  = (Normal (if eqb_str (Upload.mimetype file) UploadSpec.wordDocument
             then UploadSpec.genericExtract (Upload.originalname file)
             else UploadSpec.sampleExtract (Upload.originalname file)), w)
  /\ forall content,
       Queries.processFile userId (Some (UploadSpec.withContent file content)) features w
       = Queries.processFile userId (Some file) features w.
Proof.
  intros Hf Hm. split; [ apply UploadFacts.extract_media; assumption | ].
  intro content. apply UploadFacts.processFile_by_extract; [ reflexivity | ].
  rewrite !UploadFacts.extract_media by assumption. reflexivity.
Qed.

Lemma upload_content_is_not_read_witness :
  fst (Queries.extractText UploadSpec.lecture SessionSpec.freshWorld)
  = Normal (Study.str ("Content extracted from lecture.mp3. This is sample extracted text "
                       ++ "that would normally come from the file.")).
Proof.
  destruct (@upload_content_is_not_read (Study.str "ann") UploadSpec.lecture None
              SessionSpec.freshWorld) as [He _].
  - reflexivity.
  - discriminate.
  - rewrite He. reflexivity.
Defined.


